(** * SwiftFetch native messaging host: a shallow embedding and its properties

    The program under study is [SwiftFetch/Resources/native_host.py]: a
    read-dispatch-write loop that exchanges length-prefixed JSON frames with a
    browser extension over stdin/stdout and launches the companion
    application for [download] requests.

    Layout of the development:
    - [Wire]    bytes, Python text, [struct.pack('I')], UTF-8;
    - [Json]    the values [json.loads] produces, [json.dumps], [json.loads];
    - [Host]    the process state, the environment, and the four functions of
                the source ([read_message], [write_message],
                [handle_download], [main]);
    - the notions the properties are stated with, and a sample host;
    - [TestDriver]  [send_native_message] of [test_native_host.py], which
                runs the host on one request and parses its first response;
    - lemmas on the wire level, the codec and the dispatcher;
    - the text codec: [json.loads] reads back what [json.dumps] printed, and
      never lacks fuel;
    - the claims [C1] .. [C10], one theorem each, and two runs of the host;
    - further properties [X1] .. [X15]: the length prefix, the edges of
      [read_message], the branches of the dispatcher the claims leave out,
      what a whole run keeps (framing of the output, launches, log), a
      conversation of several requests, the test driver, the values the
      decoder returns, the failures of [write_message] and the lookup of a
      field.

    Modelling assumptions, stated once:
    - the host is little-endian (the source packs with the native order; the
      application paths are macOS ones, x86-64 or arm64);
    - texts are sequences of code points, as Python [str] is;
    - [json] is the accelerated decoder and encoder with their default
      options; integers are unbounded and nesting depth is unbounded (no
      interpreter limit on digits or recursion is modelled);
    - a floating-point number is kept as the literal it was read from; its
      truth value is exact, the text the serializer prints for it is a
      parameter of the runtime;
    - exceptions are the synchronous ones, all subclasses of [Exception];
      the texts of [str(e)] are parameters of the runtime. *)

From Stdlib.Strings Require Import String Ascii Byte.
From Stdlib Require Import List NArith ZArith Bool Lia.
From Stdlib Require Decimal DecimalFacts DecimalN DecimalZ DecimalQ.
From Stdlib Require Import QArith.
Import ListNotations.

Local Open Scope N_scope.

(* ------------------------------------------------------------------ *)
(** * Wire level: bytes, text, length prefix, UTF-8 *)

Module Wire.

(** A Python [bytes] object. *)
Definition bytes := list byte.

(** A Python [str]: a sequence of code points (surrogates included). *)
Definition pystr := list N.

(** ASCII source text as a Python [str]. *)
Definition py (s : string) : pystr :=
  map (fun a => N_of_ascii a) (list_ascii_of_string s).

Fixpoint pystr_eqb (a b : pystr) : bool :=
  match a, b with
  | [], [] => true
  | x :: a', y :: b' => (x =? y) && pystr_eqb a' b'
  | _, _ => false
  end.

Definition byte_of_N (n : N) : byte :=
  match Byte.of_N (n mod 256) with
  | Some b => b
  | None => x00
  end.

(** [struct.pack('I', n)]: four bytes, least significant first; the packer
    raises [struct.error] outside [0, 2^32). *)
Definition struct_pack_I (n : N) : option bytes :=
  if n <? 2 ^ 32
  then Some [ byte_of_N n; byte_of_N (n / 2 ^ 8);
              byte_of_N (n / 2 ^ 16); byte_of_N (n / 2 ^ 24) ]
  else None.

(** [struct.unpack('I', raw)[0]]: raises [struct.error] unless [raw] has
    exactly four bytes. *)
Definition struct_unpack_I (raw : bytes) : option N :=
  match raw with
  | [b0; b1; b2; b3] =>
      Some (Byte.to_N b0 + 2 ^ 8 * Byte.to_N b1
            + 2 ^ 16 * Byte.to_N b2 + 2 ^ 24 * Byte.to_N b3)
  | _ => None
  end.

(** ** UTF-8, strict, as [bytes.decode('utf-8')] and [str.encode('utf-8')] *)

Definition is_surrogate (c : N) : bool := (0xD800 <=? c) && (c <=? 0xDFFF).
Definition is_high_surrogate (c : N) : bool := (0xD800 <=? c) && (c <=? 0xDBFF).
Definition is_low_surrogate (c : N) : bool := (0xDC00 <=? c) && (c <=? 0xDFFF).

(** A continuation byte [10xxxxxx] gives its six payload bits. *)
Definition continuation (b : byte) : option N :=
  let n := Byte.to_N b in
  if (0x80 <=? n) && (n <? 0xC0) then Some (n - 0x80) else None.

Definition cons_opt {A} (x : A) (o : option (list A)) : option (list A) :=
  match o with
  | Some l => Some (x :: l)
  | None => None
  end.

(** [None] stands for [UnicodeDecodeError]: a stray continuation byte, an
    overlong form, a surrogate, a value above U+10FFFF or a truncated
    sequence. *)
Fixpoint utf8_decode (bs : bytes) : option pystr :=
  match bs with
  | [] => Some []
  | b0 :: r0 =>
      let c0 := Byte.to_N b0 in
      if c0 <? 0x80 then cons_opt c0 (utf8_decode r0)
      else if c0 <? 0xC2 then None
      else if c0 <? 0xE0 then
        match r0 with
        | b1 :: r1 =>
            match continuation b1 with
            | Some x1 => cons_opt ((c0 - 0xC0) * 64 + x1) (utf8_decode r1)
            | None => None
            end
        | _ => None
        end
      else if c0 <? 0xF0 then
        match r0 with
        | b1 :: b2 :: r2 =>
            match continuation b1, continuation b2 with
            | Some x1, Some x2 =>
                let c := (c0 - 0xE0) * 4096 + x1 * 64 + x2 in
                if (0x800 <=? c) && negb (is_surrogate c)
                then cons_opt c (utf8_decode r2)
                else None
            | _, _ => None
            end
        | _ => None
        end
      else if c0 <? 0xF5 then
        match r0 with
        | b1 :: b2 :: b3 :: r3 =>
            match continuation b1, continuation b2, continuation b3 with
            | Some x1, Some x2, Some x3 =>
                let c := (c0 - 0xF0) * 262144 + x1 * 4096 + x2 * 64 + x3 in
                if (0x10000 <=? c) && (c <=? 0x10FFFF)
                then cons_opt c (utf8_decode r3)
                else None
            | _, _, _ => None
            end
        | _ => None
        end
      else None
  end.

(** The bytes of one code point; [None] stands for [UnicodeEncodeError]
    (a surrogate cannot be encoded). *)
Definition utf8_encode_char (c : N) : option bytes :=
  if c <? 0x80 then Some [byte_of_N c]
  else if c <? 0x800 then
    Some [byte_of_N (0xC0 + c / 64); byte_of_N (0x80 + c mod 64)]
  else if is_surrogate c then None
  else if c <? 0x10000 then
    Some [byte_of_N (0xE0 + c / 4096); byte_of_N (0x80 + (c / 64) mod 64);
          byte_of_N (0x80 + c mod 64)]
  else if c <=? 0x10FFFF then
    Some [byte_of_N (0xF0 + c / 262144); byte_of_N (0x80 + (c / 4096) mod 64);
          byte_of_N (0x80 + (c / 64) mod 64); byte_of_N (0x80 + c mod 64)]
  else None.

Fixpoint utf8_encode (s : pystr) : option bytes :=
  match s with
  | [] => Some []
  | c :: s' =>
      match utf8_encode_char c, utf8_encode s' with
      | Some b, Some bs => Some (b ++ bs)
      | _, _ => None
      end
  end.

End Wire.
Import Wire.

(* ------------------------------------------------------------------ *)
(** * JSON values, [json.dumps] and [json.loads] *)

Module Json.

(** A float as the decoder met it: one of the three constants the decoder
    accepts, or a decimal literal with a fraction or an exponent. *)
Inductive float_lit : Type :=
  | FNaN
  | FInfinity (negative : bool)
  | FNumber (d : Decimal.decimal).

(** The Python values [json.loads] returns.  A [dict] keeps insertion order
    and has pairwise distinct keys. *)
Unset Elimination Schemes.
Inductive pyval : Type :=
  | VNone
  | VBool (b : bool)
  | VInt (n : Z)
  | VFloat (f : float_lit)
  | VStr (s : pystr)
  | VList (l : list pyval)
  | VDict (m : list (pystr * pyval)).
Set Elimination Schemes.

(** Induction through the lists a [VList] and a [VDict] hold. *)
Section PyvalInd.
Variable P : pyval -> Prop.
Hypothesis HNone : P VNone.
Hypothesis HBool : forall b, P (VBool b).
Hypothesis HInt : forall n, P (VInt n).
Hypothesis HFloat : forall f, P (VFloat f).
Hypothesis HStr : forall s, P (VStr s).
Hypothesis HList : forall l, Forall P l -> P (VList l).
Hypothesis HDict : forall m, Forall (fun kv => P (snd kv)) m -> P (VDict m).

Fixpoint pyval_ind (v : pyval) : P v :=
  match v with
  | VNone => HNone
  | VBool b => HBool b
  | VInt n => HInt n
  | VFloat f => HFloat f
  | VStr s => HStr s
  | VList l =>
      HList l ((fix items (l : list pyval) : Forall P l :=
                match l with
                | [] => Forall_nil P
                | x :: l' => Forall_cons x (pyval_ind x) (items l')
                end) l)
  | VDict m =>
      HDict m ((fix members (m : list (pystr * pyval))
                : Forall (fun kv => P (snd kv)) m :=
                match m with
                | [] => Forall_nil _
                | kv :: m' =>
                    Forall_cons (P := fun kv => P (snd kv)) kv
                      (pyval_ind (snd kv)) (members m')
                end) m)
  end.
End PyvalInd.

(** Python truth value of an object: the test of [if not message]. *)
Definition uint_is_zero (u : Decimal.uint) : bool := (N.of_uint u =? 0).

Definition int_abs (i : Decimal.int) : Decimal.uint :=
  match i with Decimal.Pos u => u | Decimal.Neg u => u end.

(** A decimal literal denotes [m * 10 ^ e]. *)
Definition literal_mantissa (d : Decimal.decimal) : Z :=
  match d with
  | Decimal.Decimal i f | Decimal.DecimalExp i f _ =>
      Z.of_N (N.of_uint (Decimal.app (int_abs i) f))
  end.

Definition literal_exponent (d : Decimal.decimal) : Z :=
  match d with
  | Decimal.Decimal _ f => - Z.of_nat (Decimal.nb_digits f)
  | Decimal.DecimalExp _ f e => Z.of_int e - Z.of_nat (Decimal.nb_digits f)
  end.

(** The literal rounds to [0.0] or [-0.0] in binary64 (round to nearest,
    ties to even): its magnitude is at most [2 ^ -1075]. *)
Definition rounds_to_zero (d : Decimal.decimal) : bool :=
  let m := literal_mantissa d in
  let e := literal_exponent d in
  ((m =? 0) || ((e <? 0) && (m * 2 ^ 1075 <=? 10 ^ (- e))))%Z.

Definition truthy (v : pyval) : bool :=
  match v with
  | VNone => false
  | VBool b => b
  | VInt n => negb (n =? 0)%Z
  | VFloat FNaN => true
  | VFloat (FInfinity _) => true
  | VFloat (FNumber d) => negb (rounds_to_zero d)
  | VStr s => match s with [] => false | _ => true end
  | VList l => match l with [] => false | _ => true end
  | VDict m => match m with [] => false | _ => true end
  end.

(** [d.get(key, default)] *)
Fixpoint dict_get (m : list (pystr * pyval)) (key : pystr) (default : pyval)
  : pyval :=
  match m with
  | [] => default
  | (k, v) :: m' => if pystr_eqb k key then v else dict_get m' key default
  end.

(** [d[key] = v]: an existing key keeps its place. *)
Fixpoint dict_set (m : list (pystr * pyval)) (key : pystr) (v : pyval)
  : list (pystr * pyval) :=
  match m with
  | [] => [(key, v)]
  | (k, x) :: m' =>
      if pystr_eqb k key then (k, v) :: m' else (k, x) :: dict_set m' key v
  end.

Definition dict_of_pairs (ps : list (pystr * pyval)) : list (pystr * pyval) :=
  fold_left (fun m kv => dict_set m (fst kv) (snd kv)) ps [].

(** ** Characters of the grammar *)

Definition QUOTE : N := 34.
Definition BACKSLASH : N := 92.
Definition chr (a : ascii) : N := N_of_ascii a.

Definition is_whitespace (c : N) : bool :=
  (c =? 32) || (c =? 9) || (c =? 10) || (c =? 13).

(** ** [json.dumps] with the default options
    ([ensure_ascii=True], separators [", "] and [": "], [allow_nan=True]) *)

Fixpoint uint_text (u : Decimal.uint) : pystr :=
  match u with
  | Decimal.Nil => []
  | Decimal.D0 u' => 48 :: uint_text u'
  | Decimal.D1 u' => 49 :: uint_text u'
  | Decimal.D2 u' => 50 :: uint_text u'
  | Decimal.D3 u' => 51 :: uint_text u'
  | Decimal.D4 u' => 52 :: uint_text u'
  | Decimal.D5 u' => 53 :: uint_text u'
  | Decimal.D6 u' => 54 :: uint_text u'
  | Decimal.D7 u' => 55 :: uint_text u'
  | Decimal.D8 u' => 56 :: uint_text u'
  | Decimal.D9 u' => 57 :: uint_text u'
  end.

(** [int.__repr__] *)
Definition int_text (n : Z) : pystr :=
  match Z.to_int n with
  | Decimal.Pos u => uint_text u
  | Decimal.Neg u => chr "-" :: uint_text u
  end.

Definition hex_digit (n : N) : N := if n <? 10 then 48 + n else 87 + n.

(** ['\\u{0:04x}'.format(c)] *)
Definition u_escape (c : N) : pystr :=
  [ BACKSLASH; chr "u"; hex_digit (c / 4096 mod 16); hex_digit (c / 256 mod 16);
    hex_digit (c / 16 mod 16); hex_digit (c mod 16) ].

(** The replacement [encode_basestring_ascii] makes for one code point. *)
Definition escape_char (c : N) : pystr :=
  if c =? QUOTE then [BACKSLASH; QUOTE]
  else if c =? BACKSLASH then [BACKSLASH; BACKSLASH]
  else if c =? 10 then [BACKSLASH; chr "n"]
  else if c =? 13 then [BACKSLASH; chr "r"]
  else if c =? 9 then [BACKSLASH; chr "t"]
  else if c =? 8 then [BACKSLASH; chr "b"]
  else if c =? 12 then [BACKSLASH; chr "f"]
  else if (32 <=? c) && (c <=? 126) then [c]
  else if c <? 0x10000 then u_escape c
  else
    let n := c - 0x10000 in
    u_escape (0xD800 + (n / 1024) mod 1024) ++ u_escape (0xDC00 + n mod 1024).

Definition encode_basestring_ascii (s : pystr) : pystr :=
  QUOTE :: flat_map escape_char s ++ [QUOTE].

(** [', '.join(items)] *)
Fixpoint join_items (items : list pystr) : pystr :=
  match items with
  | [] => []
  | [x] => x
  | x :: xs => x ++ py ", " ++ join_items xs
  end.

Section Dumps.
(** The text the encoder prints for a float ([float.__repr__], or one of
    [NaN], [Infinity], [-Infinity]). *)
Variable float_text : float_lit -> string.

Fixpoint json_dumps (v : pyval) : pystr :=
  match v with
  | VNone => py "null"
  | VBool true => py "true"
  | VBool false => py "false"
  | VInt n => int_text n
  | VFloat f => py (float_text f)
  | VStr s => encode_basestring_ascii s
  | VList l => chr "[" :: join_items (map json_dumps l) ++ [chr "]"]
  | VDict m =>
      chr "{"
        :: join_items
             (map (fun kv => encode_basestring_ascii (fst kv) ++ py ": "
                             ++ json_dumps (snd kv)) m)
        ++ [chr "}"]
  end.
End Dumps.

(** ** [json.loads]: the scanner of the accelerated decoder *)

(** What a scanner returns: the value and the text after it; a rejection
    (the decoder raises [JSONDecodeError]); or [Exhausted] when the fuel of
    the recursion ran out (shown below never to happen for the fuel
    [json_loads] provides). *)
Inductive scan (A : Type) : Type :=
  | Scanned (a : A) (rest : pystr)
  | Malformed
  | Exhausted.
Arguments Scanned {A} a rest.
Arguments Malformed {A}.
Arguments Exhausted {A}.

Definition scan_map {A B} (f : A -> B) (r : scan A) : scan B :=
  match r with
  | Scanned a rest => Scanned (f a) rest
  | Malformed => Malformed
  | Exhausted => Exhausted
  end.

Fixpoint skip_whitespace (s : pystr) : pystr :=
  match s with
  | c :: s' => if is_whitespace c then skip_whitespace s' else s
  | [] => []
  end.

(** [s[idx:idx+len(word)] == word], giving the text after the word. *)
Fixpoint strip_prefix (word s : pystr) : option pystr :=
  match word, s with
  | [], _ => Some s
  | w :: word', c :: s' => if w =? c then strip_prefix word' s' else None
  | _ :: _, [] => None
  end.

Definition digit_of (c : N) : option (Decimal.uint -> Decimal.uint) :=
  if c =? 48 then Some Decimal.D0 else if c =? 49 then Some Decimal.D1
  else if c =? 50 then Some Decimal.D2 else if c =? 51 then Some Decimal.D3
  else if c =? 52 then Some Decimal.D4 else if c =? 53 then Some Decimal.D5
  else if c =? 54 then Some Decimal.D6 else if c =? 55 then Some Decimal.D7
  else if c =? 56 then Some Decimal.D8 else if c =? 57 then Some Decimal.D9
  else None.

Definition is_digit (c : N) : bool := (48 <=? c) && (c <=? 57).

(** The longest run of ASCII digits at the head of [s]. *)
Fixpoint scan_digits (s : pystr) : Decimal.uint * pystr :=
  match s with
  | c :: s' =>
      match digit_of c with
      | Some d => let (u, rest) := scan_digits s' in (d u, rest)
      | None => (Decimal.Nil, s)
      end
  | [] => (Decimal.Nil, [])
  end.

(** The fraction: a dot followed by at least one digit. *)
Definition scan_fraction (s : pystr) : option Decimal.uint * pystr :=
  match s with
  | dot :: (d :: _) as s' =>
      if (dot =? chr ".") && is_digit d
      then let (f, rest) := scan_digits s' in (Some f, rest)
      else (None, s)
  | _ => (None, s)
  end.

(** The exponent: [e] or [E], an optional sign, at least one digit; the
    scanner backs up to the [e] when no digit follows. *)
Definition scan_exponent (s : pystr) : option Decimal.int * pystr :=
  match s with
  | e :: s1 =>
      if (e =? chr "e") || (e =? chr "E") then
        let (negative, s2) :=
          match s1 with
          | sg :: s2 =>
              if sg =? chr "-" then (true, s2)
              else if sg =? chr "+" then (false, s2)
              else (false, s1)
          | [] => (false, s1)
          end in
        match scan_digits s2 with
        | (Decimal.Nil, _) => (None, s)
        | (u, rest) =>
            (Some (if negative then Decimal.Neg u else Decimal.Pos u), rest)
        end
      else (None, s)
  | [] => (None, s)
  end.

(** The optional minus sign of a number. *)
Definition scan_sign (s : pystr) : bool * pystr :=
  match s with
  | c :: s' => if c =? chr "-" then (true, s') else (false, s)
  | [] => (false, s)
  end.

(** The integer part: [0] alone, or a run of digits that starts with a
    non-zero digit. *)
Definition scan_integer (s : pystr) : option (Decimal.uint * pystr) :=
  match s with
  | c :: s' =>
      if c =? chr "0" then Some (Decimal.D0 Decimal.Nil, s')
      else if is_digit c then Some (scan_digits s)
      else None
  | [] => None
  end.

(** [_match_number]: an optional minus sign, then [0] or a run of digits
    that starts with a non-zero digit, then the optional fraction and
    exponent; an [int] when neither is present, else a [float]. *)
Definition match_number (s : pystr) : scan pyval :=
  let (negative, s1) := scan_sign s in
  match scan_integer s1 with
  | None => Malformed
  | Some (u, s2) =>
      let i := if negative then Decimal.Neg u else Decimal.Pos u in
      let (frac, s3) := scan_fraction s2 in
      let (exp, s4) := scan_exponent s3 in
      match frac, exp with
      | None, None => Scanned (VInt (Z.of_int i)) s4
      | Some f, None => Scanned (VFloat (FNumber (Decimal.Decimal i f))) s4
      | None, Some e =>
          Scanned (VFloat (FNumber (Decimal.DecimalExp i Decimal.Nil e))) s4
      | Some f, Some e =>
          Scanned (VFloat (FNumber (Decimal.DecimalExp i f e))) s4
      end
  end.

Definition hex_value (c : N) : option N :=
  if (48 <=? c) && (c <=? 57) then Some (c - 48)
  else if (97 <=? c) && (c <=? 102) then Some (c - 87)
  else if (65 <=? c) && (c <=? 70) then Some (c - 55)
  else None.

Definition hex4_value (a b c d : N) : option N :=
  match hex_value a, hex_value b, hex_value c, hex_value d with
  | Some x, Some y, Some z, Some w => Some (x * 4096 + y * 256 + z * 16 + w)
  | _, _, _, _ => None
  end.

(** The character a two-character escape stands for. *)
Definition simple_escape (c : N) : option N :=
  if c =? QUOTE then Some QUOTE
  else if c =? BACKSLASH then Some BACKSLASH
  else if c =? chr "/" then Some (chr "/")
  else if c =? chr "b" then Some 8
  else if c =? chr "f" then Some 12
  else if c =? chr "n" then Some 10
  else if c =? chr "r" then Some 13
  else if c =? chr "t" then Some 9
  else None.

Definition join_surrogates (hi lo : N) : N :=
  0x10000 + (hi - 0xD800) * 1024 + (lo - 0xDC00).

Definition push (c : N) (r : option (pystr * pystr)) : option (pystr * pystr) :=
  match r with
  | Some (s, rest) => Some (c :: s, rest)
  | None => None
  end.

(** [scanstring] in strict mode, entered after the opening quote: the
    decoded text and what follows the closing quote. *)
Fixpoint scanstring (s : pystr) : option (pystr * pystr) :=
  match s with
  | [] => None
  | c :: s1 =>
      if c =? QUOTE then Some ([], s1)
      else if c =? BACKSLASH then
        match s1 with
        | [] => None
        | e :: s2 =>
            if e =? chr "u" then
              match s2 with
              | h1 :: h2 :: h3 :: h4 :: s3 =>
                  match hex4_value h1 h2 h3 h4 with
                  | None => None
                  | Some u =>
                      if is_high_surrogate u then
                        match s3 with
                        | b :: u' :: k1 :: k2 :: k3 :: k4 :: s4 =>
                            if (b =? BACKSLASH) && (u' =? chr "u") then
                              match hex4_value k1 k2 k3 k4 with
                              | None => None
                              | Some u2 =>
                                  if is_low_surrogate u2
                                  then push (join_surrogates u u2) (scanstring s4)
                                  else push u (scanstring s3)
                              end
                            else push u (scanstring s3)
                        | _ => push u (scanstring s3)
                        end
                      else push u (scanstring s3)
                  end
              | _ => None
              end
            else
              match simple_escape e with
              | Some x => push x (scanstring s2)
              | None => None
              end
        end
      else if c <=? 0x1F then None
      else push c (scanstring s1)
  end.

Definition scan_of_option {A} (o : option (A * pystr)) : scan A :=
  match o with
  | Some (a, rest) => Scanned a rest
  | None => Malformed
  end.

Definition constant (word : string) (v : pyval) (s : pystr) : option (scan pyval) :=
  match strip_prefix (py word) s with
  | Some rest => Some (Scanned v rest)
  | None => None
  end.

(** A value that is neither a string nor a container: one of the
    constants, else a number. *)
Definition scan_atom (s : pystr) : scan pyval :=
  let keyword :=
    match s with
    | c :: _ =>
        if c =? chr "n" then constant "null" VNone s
        else if c =? chr "t" then constant "true" (VBool true) s
        else if c =? chr "f" then constant "false" (VBool false) s
        else if c =? chr "N" then constant "NaN" (VFloat FNaN) s
        else if c =? chr "I" then
          constant "Infinity" (VFloat (FInfinity false)) s
        else if c =? chr "-" then
          constant "-Infinity" (VFloat (FInfinity true)) s
        else None
    | [] => None
    end in
  match keyword with
  | Some r => r
  | None => match_number s
  end.

(** [scan_once], [JSONArray] and [JSONObject].  [scan_items] is entered
    at the first character of an item, [scan_members] at the quote that
    opens a key. *)
Fixpoint scan_once (fuel : nat) (s : pystr) : scan pyval :=
  match fuel with
  | O => Exhausted
  | S fuel' =>
      match s with
      | [] => Malformed
      | c :: s1 =>
          if c =? QUOTE then
            scan_of_option (option_map (fun r => (VStr (fst r), snd r)) (scanstring s1))
          else if c =? chr "{" then
            match skip_whitespace s1 with
            | c2 :: s2 =>
                if c2 =? chr "}" then Scanned (VDict []) s2
                else scan_map (fun ps => VDict (dict_of_pairs ps))
                       (scan_members fuel' (c2 :: s2))
            | [] => Malformed
            end
          else if c =? chr "[" then
            match skip_whitespace s1 with
            | c2 :: s2 =>
                if c2 =? chr "]" then Scanned (VList []) s2
                else scan_map VList (scan_items fuel' (c2 :: s2))
            | [] => Malformed
            end
          else scan_atom s
      end
  end

with scan_items (fuel : nat) (s : pystr) : scan (list pyval) :=
  match fuel with
  | O => Exhausted
  | S fuel' =>
      match scan_once fuel' s with
      | Scanned v r =>
          match skip_whitespace r with
          | c :: r1 =>
              if c =? chr "]" then Scanned [v] r1
              else if c =? chr "," then
                scan_map (cons v) (scan_items fuel' (skip_whitespace r1))
              else Malformed
          | [] => Malformed
          end
      | Malformed => Malformed
      | Exhausted => Exhausted
      end
  end

with scan_members (fuel : nat) (s : pystr) : scan (list (pystr * pyval)) :=
  match fuel with
  | O => Exhausted
  | S fuel' =>
      match s with
      | q :: s1 =>
          if q =? QUOTE then
            match scanstring s1 with
            | Some (key, r) =>
                match skip_whitespace r with
                | colon :: r1 =>
                    if colon =? chr ":" then
                      match scan_once fuel' (skip_whitespace r1) with
                      | Scanned v r2 =>
                          match skip_whitespace r2 with
                          | c :: r3 =>
                              if c =? chr "}" then Scanned [(key, v)] r3
                              else if c =? chr "," then
                                scan_map (cons (key, v))
                                  (scan_members fuel' (skip_whitespace r3))
                              else Malformed
                          | [] => Malformed
                          end
                      | Malformed => Malformed
                      | Exhausted => Exhausted
                      end
                    else Malformed
                | [] => Malformed
                end
            | None => Malformed
            end
          else Malformed
      | [] => Malformed
      end
  end.

(** [json.loads(s)]: leading whitespace, one value, trailing whitespace and
    nothing else.  [None] stands for [JSONDecodeError]. *)
Definition json_loads (s : pystr) : option pyval :=
  match scan_once (2 * length s + 1) (skip_whitespace s) with
  | Scanned v rest =>
      match skip_whitespace rest with
      | [] => Some v
      | _ :: _ => None
      end
  | Malformed => None
  | Exhausted => None
  end.

End Json.
Import Json.

(* ------------------------------------------------------------------ *)
(** * The native messaging host *)

Module Host.

(** The exceptions the program can meet; all are subclasses of
    [Exception]. *)
Inductive fault : Type :=
  | StructUnpackError (raw : bytes)        (* [struct.unpack] on 1..3 bytes *)
  | StructPackError (n : N)                (* [struct.pack] of a length >= 2^32 *)
  | UnicodeDecodeError (payload : bytes)   (* [bytes.decode('utf-8')] *)
  | UnicodeEncodeError (text : pystr)      (* [str.encode('utf-8')] *)
  | JSONDecodeError (doc : pystr)          (* [json.loads] *)
  | AttributeError (receiver : pyval)      (* [.get] on a value that has none *)
  | BrokenPipeError                        (* flushing a closed stdout *)
  | CalledProcessError (argv : list pyval) (* [check=True] and a non-zero exit *)
  | LaunchError (argv : list pyval).       (* any other exception of [subprocess.run] *)

(** What the process cannot decide by itself: the file system, the launch
    command, the reader of stdout, and the texts the Python runtime prints. *)
Record env : Type := {
  (** [os.path.exists] *)
  path_exists : pystr -> bool;
  (** [subprocess.run(argv, check=True)]: [None] when the command exits
      with status 0, else the exception raised. *)
  subprocess_run : list pyval -> option fault;
  (** Whether the reader of stdout still accepts data, given what it has
      received so far. *)
  pipe_open : bytes -> bool;
  (** The text [json.dumps] prints for a float. *)
  float_text : float_lit -> string;
  (** [str(v)] for a float, a list or a dict. *)
  repr_text : pyval -> pystr;
  (** [str(e)] for an exception. *)
  fault_text : fault -> pystr
}.

Inductive log_record : Type :=
  | InfoStarted
  | InfoReceived (message : pyval)
  | InfoSent (response : pyval)
  | InfoExiting
  | ErrorDownload (e : fault)
  | ErrorProcessing (e : fault).

(** The state the process acts on. *)
Record world : Type := {
  stdin : bytes;                   (* bytes not yet read *)
  stdout_buffer : bytes;           (* written, not yet flushed *)
  stdout : bytes;                  (* delivered to the reader *)
  launches : list (list pyval);    (* calls of [subprocess.run], oldest first *)
  log : list log_record            (* the log file, oldest first *)
}.

Definition set_stdin (w : world) (b : bytes) : world :=
  {| stdin := b; stdout_buffer := stdout_buffer w; stdout := stdout w;
     launches := launches w; log := log w |}.

Definition set_stdout (w : world) (buffer delivered : bytes) : world :=
  {| stdin := stdin w; stdout_buffer := buffer; stdout := delivered;
     launches := launches w; log := log w |}.

Definition add_launch (w : world) (argv : list pyval) : world :=
  {| stdin := stdin w; stdout_buffer := stdout_buffer w; stdout := stdout w;
     launches := launches w ++ [argv]; log := log w |}.

Definition add_log (w : world) (r : log_record) : world :=
  {| stdin := stdin w; stdout_buffer := stdout_buffer w; stdout := stdout w;
     launches := launches w; log := log w ++ [r] |}.

(** ** Computations: state and exceptions *)

Inductive result (A : Type) : Type :=
  | Return (a : A)
  | Raise (e : fault).
Arguments Return {A} a.
Arguments Raise {A} e.

Definition M (A : Type) : Type := world -> result A * world.

Definition ret {A} (a : A) : M A := fun w => (Return a, w).
Definition raise {A} (e : fault) : M A := fun w => (Raise e, w).

Definition bind {A B} (c : M A) (k : A -> M B) : M B :=
  fun w =>
    match c w with
    | (Return a, w') => k a w'
    | (Raise e, w') => (Raise e, w')
    end.

(** [try: c  except Exception as e: h e] *)
Definition try_except {A} (c : M A) (h : fault -> M A) : M A :=
  fun w =>
    match c w with
    | (Return a, w') => (Return a, w')
    | (Raise e, w') => h e w'
    end.

Definition or_raise {A} (o : option A) (e : fault) : M A :=
  match o with
  | Some a => ret a
  | None => raise e
  end.

Declare Scope host_scope.
Delimit Scope host_scope with host.
Notation "x <- c ;; k" := (bind c (fun x => k))
  (at level 61, c at next level, right associativity) : host_scope.
Notation "c ;; k" := (bind c (fun _ => k))
  (at level 61, right associativity) : host_scope.
Local Open Scope host_scope.

Definition logging (r : log_record) : M unit :=
  fun w => (Return tt, add_log w r).

(** ** The streams *)

(** The first [n] bytes of the input, fewer when it ends before, and what
    remains. *)
Fixpoint split_at (n : N) (l : bytes) : bytes * bytes :=
  match l with
  | [] => ([], [])
  | b :: l' =>
      if n =? 0 then ([], l)
      else let (got, rest) := split_at (N.pred n) l' in (b :: got, rest)
  end.

(** [sys.stdin.buffer.read(n)] *)
Definition stdin_read (n : N) : M bytes :=
  fun w => let (got, rest) := split_at n (stdin w) in (Return got, set_stdin w rest).

(** [sys.stdout.buffer.write(data)] *)
Definition stdout_write (data : bytes) : M unit :=
  fun w => (Return tt, set_stdout w (stdout_buffer w ++ data) (stdout w)).

(** [sys.stdout.flush()]: hands the buffer to the reader, or raises and
    keeps it when the reader is gone. *)
Definition stdout_flush (E : env) : M unit :=
  fun w =>
    if pipe_open E (stdout w)
    then (Return tt, set_stdout w [] (stdout w ++ stdout_buffer w))
    else (Raise BrokenPipeError, w).

(** ** [read_message] *)

Definition read_message : M pyval :=
  raw_length <- stdin_read 4 ;;
  match raw_length with
  | [] => ret VNone
  | _ :: _ =>
      message_length <-
        or_raise (struct_unpack_I raw_length) (StructUnpackError raw_length) ;;
      payload <- stdin_read message_length ;;
      message <- or_raise (utf8_decode payload) (UnicodeDecodeError payload) ;;
      or_raise (json_loads message) (JSONDecodeError message)
  end.

(** ** [write_message] *)

Definition write_message (E : env) (message : pyval) : M unit :=
  let text := json_dumps (float_text E) message in
  encoded <- or_raise (utf8_encode text) (UnicodeEncodeError text) ;;
  let n := N.of_nat (length encoded) in
  header <- or_raise (struct_pack_I n) (StructPackError n) ;;
  stdout_write header ;;
  stdout_write encoded ;;
  stdout_flush E.

(** ** [handle_download] *)

Definition app_paths : list pystr :=
  [ py "/Applications/SwiftFetch.app";
    py "/Users/devitripathy/Library/Developer/Xcode/DerivedData/SwiftFetch-hkguncbcnfxahpcsjswpmkdlbqjt/Build/Products/Debug/SwiftFetch.app" ].

Definition open_command (app_path : pystr) (url : pyval) : list pyval :=
  [VStr (py "open"); VStr (py "-a"); VStr app_path; url].

(** [subprocess.run(argv, check=True)] *)
Definition run_checked (E : env) (argv : list pyval) : M unit :=
  fun w =>
    match subprocess_run E argv with
    | None => (Return tt, add_launch w argv)
    | Some e => (Raise e, add_launch w argv)
    end.

Definition handle_download (E : env) (url filename : pyval) : M bool :=
  try_except
    (match find (path_exists E) app_paths with
     | None => ret false
     | Some app_path =>
         run_checked E (open_command app_path url) ;;
         ret true
     end)
    (fun e => logging (ErrorDownload e) ;; ret false).

(** ** [main] *)

(** [message.get(key, default)]: only a [dict] has the method. *)
Definition get (message : pyval) (key : string) (default : pyval) : M pyval :=
  match message with
  | VDict m => ret (dict_get m (py key) default)
  | _ => raise (AttributeError message)
  end.

(** [v == 'literal'] *)
Definition equals (v : pyval) (literal : string) : bool :=
  match v with
  | VStr s => pystr_eqb s (py literal)
  | _ => false
  end.

(** The text an f-string gives for [{v}], that is [str(v)]. *)
Definition format_value (E : env) (v : pyval) : pystr :=
  match v with
  | VStr s => s
  | VNone => py "None"
  | VBool true => py "True"
  | VBool false => py "False"
  | VInt n => int_text n
  | _ => repr_text E v
  end.

Definition pong : pyval :=
  VDict [ (py "type", VStr (py "pong"));
          (py "status", VStr (py "connected"));
          (py "version", VStr (py "1.0.0")) ].

Definition download_response (success : bool) (url : pyval) : pyval :=
  VDict [ (py "type", VStr (py "download_response"));
          (py "success", VBool success);
          (py "url", url) ].

Definition status_response : pyval :=
  VDict [ (py "type", VStr (py "status_response"));
          (py "connected", VBool true);
          (py "app_running", VBool true) ].

Definition unknown_type_response (E : env) (msg_type : pyval) : pyval :=
  VDict [ (py "type", VStr (py "error"));
          (py "message",
           VStr (py "Unknown message type: " ++ format_value E msg_type)) ].

Definition error_response (E : env) (e : fault) : pyval :=
  VDict [ (py "type", VStr (py "error"));
          (py "message", VStr (fault_text E e)) ].

(** How one pass through the body of [while True] ends. *)
Inductive control : Type := Continue | Break.

(** The [if]/[elif] chain on [msg_type]: builds the response and writes
    it. *)
Definition dispatch (E : env) (message msg_type : pyval) : M pyval :=
  if equals msg_type "ping" then
    let response := pong in
    write_message E response ;; ret response
  else if equals msg_type "download" then
    url <- get message "url" (VStr []) ;;
    filename <- get message "filename" (VStr []) ;;
    success <- handle_download E url filename ;;
    let response := download_response success url in
    write_message E response ;; ret response
  else if equals msg_type "status" then
    let response := status_response in
    write_message E response ;; ret response
  else
    let response := unknown_type_response E msg_type in
    write_message E response ;; ret response.

(** The [try] block. *)
Definition try_block (E : env) : M control :=
  message <- read_message ;;
  if negb (truthy message) then ret Break
  else
    logging (InfoReceived message) ;;
    msg_type <- get message "type" (VStr []) ;;
    response <- dispatch E message msg_type ;;
    logging (InfoSent response) ;;
    ret Continue.

(** The [except Exception as e] block; its inner [try] has a bare
    [except: pass]. *)
Definition except_block (E : env) (e : fault) : M control :=
  logging (ErrorProcessing e) ;;
  try_except (write_message E (error_response E e)) (fun _ => ret tt) ;;
  ret Continue.

(** One pass through the body of the loop. *)
Definition iteration (E : env) : M control :=
  try_except (try_block E) (except_block E).

(** How the process ends: the loop was left by [break]; an exception
    escaped the loop; or the bound on the number of passes was reached. *)
Inductive exit : Type :=
  | Exited
  | Crashed (e : fault)
  | Unfinished.

Fixpoint main_loop (E : env) (passes : nat) (w : world) : exit * world :=
  match passes with
  | O => (Unfinished, w)
  | S passes' =>
      match iteration E w with
      | (Return Break, w') => (Exited, w')
      | (Return Continue, w') => main_loop E passes' w'
      | (Raise e, w') => (Crashed e, w')
      end
  end.

(** [main()]: every pass that does not leave the loop consumes input, so
    one pass more than there are input bytes is enough. *)
Definition main (E : env) (w : world) : exit * world :=
  let w0 := add_log w InfoStarted in
  match main_loop E (S (length (stdin w0))) w0 with
  | (Exited, w') => (Exited, add_log w' InfoExiting)
  | other => other
  end.

End Host.
Import Host.

(* ------------------------------------------------------------------ *)
(** * Notions the properties are stated with *)

Local Open Scope host_scope.

(** The frame of a message: header then payload, when the message can be
    encoded and its length fits the header. *)
Definition frame_of (E : env) (message : pyval) : option bytes :=
  match utf8_encode (json_dumps (float_text E) message) with
  | Some payload =>
      match struct_pack_I (N.of_nat (length payload)) with
      | Some header => Some (header ++ payload)
      | None => None
      end
  | None => None
  end.

(** Writing a response inside the [try] block, the rest of the pass
    included: the [InfoSent] record on success, the [except] block on
    failure. *)
Definition respond (E : env) (response : pyval) : M control :=
  try_except
    (write_message E response ;; logging (InfoSent response) ;; ret Continue)
    (except_block E).

(** At most one frame was delivered between [w] and [w']. *)
Definition at_most_one_frame (E : env) (w w' : world) : Prop :=
  stdout w' = stdout w \/
  exists response fr,
    frame_of E response = Some fr /\
    stdout w' = stdout w ++ stdout_buffer w ++ fr.

(** A sample host for concrete runs: no companion application is
    installed, the reader of stdout stays, and the runtime texts are short
    stand-ins. *)
Definition sample_env : env :=
  {| path_exists := fun _ => false;
     subprocess_run := fun _ => None;
     pipe_open := fun _ => true;
     float_text := fun _ => "0.0"%string;
     repr_text := fun _ => py "<value>";
     fault_text := fun e =>
       match e with
       | StructUnpackError _ => py "unpack requires a buffer of 4 bytes"
       | AttributeError _ => py "object has no attribute 'get'"
       | _ => py "fault"
       end |}.

(** The same host with the application installed at the first path. *)
Definition installed_env : env :=
  {| path_exists := fun p => pystr_eqb p (py "/Applications/SwiftFetch.app");
     subprocess_run := fun _ => None;
     pipe_open := fun _ => true;
     float_text := float_text sample_env;
     repr_text := repr_text sample_env;
     fault_text := fault_text sample_env |}.

(** The process at start, with [input] waiting on stdin. *)
Definition initial (input : bytes) : world :=
  {| stdin := input; stdout_buffer := []; stdout := [];
     launches := []; log := [] |}.

Definition ascii_bytes (s : string) : bytes :=
  map byte_of_ascii (list_ascii_of_string s).

(** The frame a client sends for an ASCII JSON text. *)
Definition frame (text : string) : bytes :=
  match struct_pack_I (N.of_nat (String.length text)) with
  | Some header => header ++ ascii_bytes text
  | None => []
  end.

(** What the decoder makes of the payload bytes of a frame. *)
Definition decode_payload (payload : bytes) : result pyval :=
  match utf8_decode payload with
  | None => Raise (UnicodeDecodeError payload)
  | Some text =>
      match json_loads text with
      | None => Raise (JSONDecodeError text)
      | Some v => Return v
      end
  end.

(** The frame a client sends for a message: [struct.pack('I', len(encoded))
    + encoded] with [encoded = json.dumps(message).encode('utf-8')], as
    [send_native_message] of the test driver builds it. *)
Definition send_native_message (message : pyval) : bytes :=
  match frame_of sample_env message with
  | Some fr => fr
  | None => []
  end.

(** The request the test driver sends, and the answer to it. *)
Definition ping_message : pyval := VDict [(py "type", VStr (py "ping"))].

Definition ping_frame : bytes := send_native_message ping_message.

Definition pong_frame : bytes := send_native_message pong.

(** A download request that names a file. *)
Definition download_request : pyval :=
  VDict [ (py "type", VStr (py "download"));
          (py "url", VStr (py "https://example.com/file"));
          (py "filename", VStr (py "file.bin")) ].

(** A text that does not go on with a digit, a fraction or an exponent:
    what follows a number inside the encoder's output. *)
Definition ends_number (rest : pystr) : Prop :=
  match rest with
  | [] => True
  | c :: _ => c = chr "," \/ c = chr "]" \/ c = chr "}"
  end.

(** The text after a high surrogate escape does not go on with the escape
    of a low surrogate. *)
Definition no_low_escape (t : pystr) : Prop :=
  forall k1 k2 k3 k4 t',
    t = BACKSLASH :: chr "u" :: k1 :: k2 :: k3 :: k4 :: t' ->
    exists u2, hex4_value k1 k2 k3 k4 = Some u2 /\ is_low_surrogate u2 = false.

(** Text as the decoders produce it: code points up to U+10FFFF, and no
    high surrogate immediately followed by a low one (such a pair is one
    character above U+FFFF). *)
Fixpoint text_ok (s : pystr) : Prop :=
  match s with
  | [] => True
  | c :: s' =>
      c <= 0x10FFFF /\
      (is_high_surrogate c = true ->
       match s' with
       | c' :: _ => is_low_surrogate c' = false
       | [] => True
       end) /\
      text_ok s'
  end.

(** The values of the JSON data model as the host exchanges them: no
    float, texts as above, objects with pairwise distinct keys. *)
Fixpoint json_plain (v : pyval) : Prop :=
  match v with
  | VNone | VBool _ | VInt _ => True
  | VFloat _ => False
  | VStr s => text_ok s
  | VList l => fold_right (fun x rest => json_plain x /\ rest) True l
  | VDict m =>
      NoDup (map fst m) /\
      fold_right
        (fun kv rest => text_ok (fst kv) /\ json_plain (snd kv) /\ rest) True m
  end.

(** [scan_once] reads back what [json_dumps] printed for [v], whatever
    delimiter follows, with a fuel of twice the length of the text. *)
Definition scans_back (ft : float_lit -> string) (v : pyval) : Prop :=
  forall fuel rest,
    ends_number rest ->
    (2 * length (json_dumps ft v) < fuel)%nat ->
    scan_once fuel (json_dumps ft v ++ rest) = Scanned v rest.

Definition member_text (ft : float_lit -> string) (kv : pystr * pyval) : pystr :=
  encode_basestring_ascii (fst kv) ++ py ": " ++ json_dumps ft (snd kv).

Definition ascii_text (s : pystr) : Prop := Forall (fun c => c < 128) s.


(** Unicode scalar values: every code point but the surrogates. *)
Definition is_scalar (c : N) : bool := (c <=? 0x10FFFF) && negb (is_surrogate c).

(** ** Notions of the properties of whole runs *)

(** What [handle_download] returns for [url]: [True] when an application
    is found at one of the paths and the launch command exits with
    status 0. *)
Definition launch_succeeds (E : env) (url : pyval) : bool :=
  match find (path_exists E) app_paths with
  | None => false
  | Some app_path =>
      match subprocess_run E (open_command app_path url) with
      | None => true
      | Some _ => false
      end
  end.

(** The response the [if]/[elif] chain of [main] builds for an object. *)
Definition reply (E : env) (m : list (pystr * pyval)) : pyval :=
  let msg_type := dict_get m (py "type") (VStr []) in
  if equals msg_type "ping" then pong
  else if equals msg_type "download" then
    let url := dict_get m (py "url") (VStr []) in
    download_response (launch_succeeds E url) url
  else if equals msg_type "status" then status_response
  else unknown_type_response E msg_type.

(** The five response literals of [main]. *)
Inductive is_response (E : env) : pyval -> Prop :=
  | is_pong : is_response E pong
  | is_download_response (success : bool) (url : pyval) :
      is_response E (download_response success url)
  | is_status_response : is_response E status_response
  | is_unknown_type_response (msg_type : pyval) :
      is_response E (unknown_type_response E msg_type)
  | is_error_response (e : fault) : is_response E (error_response E e).



(** A call of [subprocess.run] that a download request accounts for: the
    command opens an application found at one of the paths with the [url]
    of an object of type [download] that the log of [w] records as
    received. *)
Definition launched_for_download (E : env) (w : world) (argv : list pyval)
  : Prop :=
  exists app_path m,
    argv = open_command app_path (dict_get m (py "url") (VStr [])) /\
    find (path_exists E) app_paths = Some app_path /\
    dict_get m (py "type") (VStr []) = VStr (py "download") /\
    In (InfoReceived (VDict m)) (log w).

(** The launches of [w'] are those of [w] followed by launches that
    download requests account for. *)
Definition launches_since (E : env) (w w' : world) : Prop :=
  exists new,
    launches w' = launches w ++ new /\
    Forall (launched_for_download E w') new.

(** No float anywhere in the value. *)
Fixpoint float_free (v : pyval) : bool :=
  match v with
  | VNone | VBool _ | VInt _ | VStr _ => true
  | VFloat _ => false
  | VList l => forallb float_free l
  | VDict m => forallb (fun kv => float_free (snd kv)) m
  end.

(** The text [x] scanned from [s] starts with a low surrogate only if [s]
    starts with the escape of one. *)
Definition from_low_escape (s x : pystr) : Prop :=
  forall c x',
    x = c :: x' -> is_low_surrogate c = true ->
    exists k1 k2 k3 k4 t u,
      s = BACKSLASH :: chr "u" :: k1 :: k2 :: k3 :: k4 :: t /\
      hex4_value k1 k2 k3 k4 = Some u /\ is_low_surrogate u = true.

(** What the decoder returns but for floats: a value is one the codec
    carries unchanged as soon as it holds no float. *)
Definition plain_but_floats (v : pyval) : Prop :=
  float_free v = true -> json_plain v.

(** A JSON text as a client may send it: an array that holds a string
    written as the two escapes of a surrogate pair (U+D83D, U+DE00) and an
    object in which the key [k] comes twice, with the values 1 and 2. *)
Definition escaped_pair_text : pystr :=
  [91; 34; 92] ++ py "ud83d" ++ [92] ++ py "ude00" ++ [34; 44; 32; 123; 34]
  ++ py "k" ++ [34; 58; 32; 49; 44; 32; 34]
  ++ py "k" ++ [34; 58; 32; 50; 125; 93].

Definition escaped_pair_frame : bytes :=
  match struct_pack_I (N.of_nat (length escaped_pair_text)) with
  | Some header => header ++ map byte_of_N escaped_pair_text
  | None => []
  end.

(** A payload of JSON whitespace only (space, tab, line feed, carriage
    return), the empty payload included. *)
Definition blank (payload : bytes) : Prop :=
  Forall (fun b => is_whitespace (Byte.to_N b) = true) payload.

(** What one pass of the loop can add to the log. *)
Inductive pass_log : list log_record -> Prop :=
  | log_read_fault (e : fault) : pass_log [ErrorProcessing e]
  | log_answered (message response : pyval) :
      pass_log [InfoReceived message; InfoSent response]
  | log_fault (message : pyval) (e : fault) :
      pass_log [InfoReceived message; ErrorProcessing e]
  | log_launch_failed (message response : pyval) (e : fault) :
      pass_log [InfoReceived message; ErrorDownload e; InfoSent response]
  | log_launch_failed_fault (message : pyval) (e e' : fault) :
      pass_log [InfoReceived message; ErrorDownload e; ErrorProcessing e'].


(* ------------------------------------------------------------------ *)
(** * The test driver [test_native_host.py] *)

Module TestDriver.

(** The host as the driver runs it: the driver reads its stdout to the
    end, so the pipe stays open; the rest of the environment is the
    machine's. *)
Definition piped (E : env) : env :=
  {| path_exists := path_exists E;
     subprocess_run := subprocess_run E;
     pipe_open := fun _ => true;
     float_text := float_text E;
     repr_text := repr_text E;
     fault_text := fault_text E |}.

(** [subprocess.Popen([...native_host.py], ...)] followed by
    [proc.communicate(input=data)]: the program started is the host, taken
    at its start, with [data] on its stdin; it runs until it exits, and
    what it wrote to stdout comes back (the interpreter flushes the buffer
    when the process ends).  The log file and stderr are not read. *)
Definition communicate (E : env) (data : bytes) : bytes :=
  let w := snd (main (piped E) (initial data)) in
  stdout w ++ stdout_buffer w.

(** [send_native_message(message)].  [stdout[:4]] and
    [stdout[4:4+response_length]] are slices: they take what there is. *)
Definition send_native_message (E : env) (message : pyval) : result pyval :=
  let text := json_dumps (float_text E) message in
  match utf8_encode text with
  | None => Raise (UnicodeEncodeError text)
  | Some encoded =>
      let n := N.of_nat (length encoded) in
      match struct_pack_I n with
      | None => Raise (StructPackError n)
      | Some length_bytes =>
          let full_message := length_bytes ++ encoded in
          let stdout := communicate E full_message in
          if (4 <=? length stdout)%nat then
            match struct_unpack_I (firstn 4 stdout) with
            | None => Raise (StructUnpackError (firstn 4 stdout))
            | Some response_length =>
                decode_payload (fst (split_at response_length (skipn 4 stdout)))
            end
          else Return VNone
      end
  end.

End TestDriver.

(* ------------------------------------------------------------------ *)
(** * Properties of the wire level *)

Lemma byte_of_N_to_N (n : N) : Byte.to_N (byte_of_N n) = n mod 256.
Proof.
  unfold byte_of_N.
  destruct (Byte.of_N (n mod 256)) as [b|] eqn:Hb.
  - now apply Byte.to_of_N.
  - apply Byte.of_N_None_iff in Hb.
    pose proof (N.mod_upper_bound n 256). lia.
Qed.

Lemma byte_of_N_of_byte (b : byte) : byte_of_N (Byte.to_N b) = b.
Proof.
  unfold byte_of_N.
  pose proof (Byte.to_N_bounded b).
  rewrite N.mod_small by lia.
  now rewrite Byte.of_to_N.
Qed.

(** The header is the length, least significant byte first. *)
Lemma struct_pack_I_little_endian (n : N) (header : bytes) :
  struct_pack_I n = Some header ->
  n < 2 ^ 32 /\
  exists b0 b1 b2 b3,
    header = [b0; b1; b2; b3] /\
    Byte.to_N b0 = n mod 2 ^ 8 /\
    Byte.to_N b1 = (n / 2 ^ 8) mod 2 ^ 8 /\
    Byte.to_N b2 = (n / 2 ^ 16) mod 2 ^ 8 /\
    Byte.to_N b3 = (n / 2 ^ 24) mod 2 ^ 8.
Proof.
  unfold struct_pack_I.
  destruct (n <? 2 ^ 32) eqn:Hn; [|discriminate].
  intros H. injection H as <-.
  apply N.ltb_lt in Hn. split; [exact Hn|].
  do 4 eexists. split; [reflexivity|].
  now rewrite !byte_of_N_to_N.
Qed.


Lemma struct_pack_I_length (n : N) (header : bytes) :
  struct_pack_I n = Some header -> length header = 4%nat.
Proof.
  unfold struct_pack_I. destruct (n <? 2 ^ 32); [|discriminate].
  intros H. now injection H as <-.
Qed.

(** Unpacking a packed length gives it back. *)
Lemma struct_unpack_pack (n : N) (header : bytes) :
  struct_pack_I n = Some header -> struct_unpack_I header = Some n.
Proof.
  unfold struct_pack_I.
  destruct (n <? 2 ^ 32) eqn:Hn; [|discriminate].
  intros H. injection H as <-. apply N.ltb_lt in Hn.
  unfold struct_unpack_I. rewrite !byte_of_N_to_N. f_equal.
  change (2 ^ 32) with (256 * 256 * 256 * 256) in Hn.
  change (N.pos (2 ^ 8)) with 256.
  change (N.pos (2 ^ 16)) with (256 * 256).
  change (N.pos (2 ^ 24)) with (256 * 256 * 256).
  rewrite <- !N.Div0.div_div.
  set (q1 := n / 256). set (q2 := q1 / 256). set (q3 := q2 / 256).
  assert (H3 : q3 < 256).
  { unfold q3, q2, q1.
    repeat (apply N.Div0.div_lt_upper_bound). lia. }
  rewrite (N.mod_small q3) by exact H3.
  pose proof (N.div_mod n 256 ltac:(lia)) as E0.
  pose proof (N.div_mod q1 256 ltac:(lia)) as E1.
  pose proof (N.div_mod q2 256 ltac:(lia)) as E2.
  fold q1 in E0. fold q2 in E1. fold q3 in E2.
  lia.
Qed.

(** ** Reading from the input *)

Lemma split_at_app (n : N) (l : bytes) :
  fst (split_at n l) ++ snd (split_at n l) = l.
Proof.
  revert n. induction l as [|b l IH]; intros n; simpl; [reflexivity|].
  destruct (n =? 0); [reflexivity|].
  specialize (IH (N.pred n)). destruct (split_at (N.pred n) l) as [got rest].
  simpl in *. now rewrite IH.
Qed.

Lemma split_at_length (n : N) (l : bytes) :
  N.of_nat (length (fst (split_at n l))) = N.min n (N.of_nat (length l)).
Proof.
  revert n. induction l as [|b l IH]; intros n.
  - simpl. lia.
  - cbn [split_at]. destruct (n =? 0) eqn:Hn.
    + apply N.eqb_eq in Hn. subst. simpl. lia.
    + apply N.eqb_neq in Hn. specialize (IH (N.pred n)).
      destruct (split_at (N.pred n) l) as [got rest].
      cbn [fst length] in *. lia.
Qed.

(** Exactly [n] bytes are taken when they are there. *)
Lemma split_at_exact (a b : bytes) :
  split_at (N.of_nat (length a)) (a ++ b) = (a, b).
Proof.
  induction a as [|x a IH].
  - simpl. destruct b; reflexivity.
  - cbn [length app split_at].
    replace (N.of_nat (S (length a)) =? 0) with false
      by (symmetry; apply N.eqb_neq; lia).
    replace (N.pred (N.of_nat (S (length a)))) with (N.of_nat (length a)) by lia.
    now rewrite IH.
Qed.

(** A short input is taken whole. *)
Lemma split_at_short (n : N) (l : bytes) :
  N.of_nat (length l) <= n -> split_at n l = (l, []).
Proof.
  revert n. induction l as [|x l IH]; intros n Hn; [reflexivity|].
  cbn [split_at length] in *.
  replace (n =? 0) with false by (symmetry; apply N.eqb_neq; lia).
  rewrite IH by lia. reflexivity.
Qed.

Lemma split_at_rest_length (n : N) (l : bytes) :
  (length (snd (split_at n l)) <= length l)%nat.
Proof.
  pose proof (split_at_app n l) as H.
  apply (f_equal (@length byte)) in H. rewrite length_app in H. lia.
Qed.

(* ------------------------------------------------------------------ *)
(** * Properties of the codec *)

(** [write_message], case by case. *)
Lemma write_message_cases (E : env) (message : pyval) (w : world) :
  write_message E message w =
  let text := json_dumps (float_text E) message in
  match utf8_encode text with
  | None => (Raise (UnicodeEncodeError text), w)
  | Some payload =>
      let n := N.of_nat (length payload) in
      match struct_pack_I n with
      | None => (Raise (StructPackError n), w)
      | Some header =>
          if pipe_open E (stdout w)
          then (Return tt,
                set_stdout w [] (stdout w ++ stdout_buffer w ++ header ++ payload))
          else (Raise BrokenPipeError,
                set_stdout w (stdout_buffer w ++ header ++ payload) (stdout w))
      end
  end.
Proof.
  unfold write_message, bind, or_raise. cbv zeta.
  destruct (utf8_encode _) as [payload|]; [|reflexivity].
  cbn [ret].
  destruct (struct_pack_I _) as [header|]; [|reflexivity].
  unfold stdout_write, stdout_flush, set_stdout. cbn.
  destruct (pipe_open E (stdout w)); now rewrite <- ?app_assoc.
Qed.

Lemma write_message_delivers (E : env) (message : pyval) (w : world) (fr : bytes) :
  frame_of E message = Some fr ->
  pipe_open E (stdout w) = true ->
  write_message E message w =
  (Return tt, set_stdout w [] (stdout w ++ stdout_buffer w ++ fr)).
Proof.
  intros Hfr Hopen. rewrite write_message_cases. cbv zeta.
  unfold frame_of in Hfr.
  destruct (utf8_encode _) as [payload|]; [|discriminate].
  destruct (struct_pack_I _) as [header|]; [|discriminate].
  injection Hfr as <-. now rewrite Hopen.
Qed.

Lemma write_message_success (E : env) (message : pyval) (w w' : world) :
  write_message E message w = (Return tt, w') ->
  exists fr,
    frame_of E message = Some fr /\
    pipe_open E (stdout w) = true /\
    w' = set_stdout w [] (stdout w ++ stdout_buffer w ++ fr).
Proof.
  rewrite write_message_cases. cbv zeta. unfold frame_of.
  destruct (utf8_encode _) as [payload|]; [|discriminate].
  destruct (struct_pack_I _) as [header|]; [|discriminate].
  destruct (pipe_open E (stdout w)); [|discriminate].
  intros H. injection H as <-. eauto.
Qed.

(** Whatever happens, writing leaves the input, the launches and the log
    alone, and never takes back what was delivered. *)
Lemma write_message_frame (E : env) (message : pyval) (w : world) :
  let w' := snd (write_message E message w) in
  stdin w' = stdin w /\ launches w' = launches w /\ log w' = log w /\
  (stdout w' = stdout w \/
   exists fr, frame_of E message = Some fr /\
              stdout w' = stdout w ++ stdout_buffer w ++ fr).
Proof.
  rewrite write_message_cases. cbv zeta. unfold frame_of.
  destruct (utf8_encode _) as [payload|]; [|cbn; auto].
  destruct (struct_pack_I _) as [header|]; [|cbn; auto].
  destruct (pipe_open E (stdout w)); cbn; eauto 8.
Qed.

(** [read_message], case by case on the input. *)
Lemma read_message_cases (w : world) :
  read_message w =
  match split_at 4 (stdin w) with
  | ([], rest) => (Return VNone, set_stdin w rest)
  | (raw_length, rest) =>
      match struct_unpack_I raw_length with
      | None => (Raise (StructUnpackError raw_length), set_stdin w rest)
      | Some n =>
          let (payload, rest') := split_at n rest in
          match utf8_decode payload with
          | None => (Raise (UnicodeDecodeError payload), set_stdin w rest')
          | Some text =>
              match json_loads text with
              | None => (Raise (JSONDecodeError text), set_stdin w rest')
              | Some v => (Return v, set_stdin w rest')
              end
          end
      end
  end.
Proof.
  unfold read_message, bind, stdin_read.
  destruct (split_at 4 (stdin w)) as [raw rest].
  destruct raw as [|b raw]; [reflexivity|].
  unfold or_raise at 1.
  destruct (struct_unpack_I (b :: raw)) as [n|]; [|reflexivity].
  cbn [ret stdin set_stdin].
  destruct (split_at n rest) as [payload rest'].
  unfold or_raise.
  destruct (utf8_decode payload) as [text|]; [|reflexivity].
  cbn [ret].
  destruct (json_loads text); reflexivity.
Qed.

(** Reading only moves the input forward. *)
Lemma read_message_frame (w : world) :
  let w' := snd (read_message w) in
  stdout w' = stdout w /\ stdout_buffer w' = stdout_buffer w /\
  launches w' = launches w /\ log w' = log w /\
  (length (stdin w') <= length (stdin w))%nat.
Proof.
  rewrite read_message_cases.
  pose proof (split_at_rest_length 4 (stdin w)) as H4.
  destruct (split_at 4 (stdin w)) as [raw rest]. cbn [snd] in H4.
  assert (Hdone : forall r : result pyval,
             let w' := snd (r, set_stdin w rest) in
             stdout w' = stdout w /\ stdout_buffer w' = stdout_buffer w /\
             launches w' = launches w /\ log w' = log w /\
             (length (stdin w') <= length (stdin w))%nat)
    by (intros r; cbn; auto).
  destruct raw as [|b raw]; [apply Hdone|].
  destruct (struct_unpack_I (b :: raw)) as [n|]; [|apply Hdone].
  pose proof (split_at_rest_length n rest) as Hn.
  destruct (split_at n rest) as [payload rest']. cbn [snd] in Hn.
  destruct (utf8_decode payload) as [text|];
    [destruct (json_loads text)|]; cbn; repeat split; auto; lia.
Qed.

(** At the end of the stream nothing is consumed and [None] comes back. *)
Lemma read_message_eof (w : world) :
  stdin w = [] -> read_message w = (Return VNone, w).
Proof.
  intros H. rewrite read_message_cases, H. cbn.
  unfold set_stdin. destruct w; cbn in *. now subst.
Qed.

(** A value other than [None] comes from at least one consumed byte. *)
Lemma read_message_consumes (w w' : world) (r : result pyval) :
  read_message w = (r, w') ->
  (length (stdin w') < length (stdin w))%nat \/ (r = Return VNone /\ w' = w).
Proof.
  rewrite read_message_cases.
  pose proof (split_at_app 4 (stdin w)) as Happ.
  destruct (split_at 4 (stdin w)) as [raw rest]. cbn [fst snd] in Happ.
  destruct raw as [|b raw].
  - cbn in Happ. subst rest. intros H. injection H as <- <-. right.
    split; [reflexivity|]. unfold set_stdin. now destruct w.
  - assert (Hlt : (length rest < length (stdin w))%nat).
    { rewrite <- Happ. cbn. rewrite length_app. lia. }
    intros H. left.
    destruct (struct_unpack_I (b :: raw)) as [n|].
    + pose proof (split_at_rest_length n rest) as Hn.
      destruct (split_at n rest) as [payload rest']. cbn [snd] in Hn.
      destruct (utf8_decode payload) as [text|];
        [destruct (json_loads text)|]; injection H as <- <-; cbn; lia.
    + injection H as <- <-. cbn. lia.
Qed.

(* ------------------------------------------------------------------ *)
(** * Properties of the action invoker and of the dispatcher *)

(** [find] is the [for ... if ...: break] search: the first path that
    exists. *)
Lemma find_first {A} (p : A -> bool) (l : list A) (x : A) :
  find p l = Some x <->
  exists before after,
    l = before ++ x :: after /\
    Forall (fun y => p y = false) before /\ p x = true.
Proof.
  induction l as [|a l IH]; cbn.
  - split; [discriminate|].
    intros (before & after & H & _). now destruct before.
  - destruct (p a) eqn:Hpa.
    + split.
      * intros H. injection H as <-. exists [], l. auto.
      * intros (before & after & H & Hall & Hpx).
        destruct before as [|b before]; cbn in H; injection H as -> ->.
        -- reflexivity.
        -- inversion Hall; congruence.
    + rewrite IH. split.
      * intros (before & after & -> & Hall & Hpx).
        exists (a :: before), after. auto.
      * intros (before & after & H & Hall & Hpx).
        destruct before as [|b before]; cbn in H; injection H as -> ->.
        -- congruence.
        -- inversion Hall; subst. eauto.
Qed.

Lemma find_none {A} (p : A -> bool) (l : list A) :
  find p l = None <-> Forall (fun y => p y = false) l.
Proof.
  induction l as [|a l IH]; cbn.
  - split; auto.
  - destruct (p a) eqn:Hpa.
    + split; [discriminate|]. intros H. inversion H; congruence.
    + rewrite IH. split; [auto|]. intros H. now inversion H.
Qed.

(** [handle_download], case by case. *)
Lemma handle_download_cases (E : env) (url filename : pyval) (w : world) :
  handle_download E url filename w =
  match find (path_exists E) app_paths with
  | None => (Return false, w)
  | Some app_path =>
      let argv := open_command app_path url in
      match subprocess_run E argv with
      | None => (Return true, add_launch w argv)
      | Some e => (Return false, add_log (add_launch w argv) (ErrorDownload e))
      end
  end.
Proof.
  unfold handle_download, try_except.
  destruct (find (path_exists E) app_paths) as [app_path|]; [|reflexivity].
  unfold bind, run_checked. cbv zeta.
  destruct (subprocess_run E (open_command app_path url)); reflexivity.
Qed.

Lemma handle_download_returns (E : env) (url filename : pyval) (w : world) :
  exists success w',
    handle_download E url filename w = (Return success, w') /\
    stdin w' = stdin w /\ stdout w' = stdout w /\
    stdout_buffer w' = stdout_buffer w.
Proof.
  rewrite handle_download_cases.
  destruct (find _ _); cbv zeta; [destruct (subprocess_run _ _)|];
    do 2 eexists; (split; [reflexivity|]); cbn; auto.
Qed.

(** The [except] block always ends the pass with [Continue]: the outcome
    of its write is dropped. *)
Lemma except_block_cases (E : env) (e : fault) (w : world) :
  except_block E e w =
  (Return Continue,
   snd (write_message E (error_response E e) (add_log w (ErrorProcessing e)))).
Proof.
  unfold except_block, bind, logging, try_except.
  destruct (write_message _ _ _) as [[[]|e'] w']; reflexivity.
Qed.

Lemma respond_cases (E : env) (response : pyval) (w : world) :
  respond E response w =
  match write_message E response w with
  | (Return _, w') => (Return Continue, add_log w' (InfoSent response))
  | (Raise e, w') => except_block E e w'
  end.
Proof.
  unfold respond, try_except, bind, logging, ret.
  destruct (write_message E response w) as [[[]|e] w']; reflexivity.
Qed.

Lemma respond_continues (E : env) (response : pyval) (w : world) :
  fst (respond E response w) = Return Continue.
Proof.
  rewrite respond_cases.
  destruct (write_message E response w) as [[[]|e] w']; [reflexivity|].
  now rewrite except_block_cases.
Qed.

(** With an open pipe and a response that fits, exactly its frame is
    delivered. *)
Lemma respond_delivers (E : env) (response : pyval) (w : world) (fr : bytes) :
  frame_of E response = Some fr ->
  pipe_open E (stdout w) = true ->
  respond E response w =
  (Return Continue,
   add_log (set_stdout w [] (stdout w ++ stdout_buffer w ++ fr))
     (InfoSent response)).
Proof.
  intros Hfr Hopen. rewrite respond_cases.
  now rewrite (write_message_delivers _ _ _ _ Hfr Hopen).
Qed.

(** One pass of the loop, case by case. *)
Lemma iteration_cases (E : env) (w : world) :
  iteration E w =
  match read_message w with
  | (Raise e, w1) => except_block E e w1
  | (Return message, w1) =>
      if truthy message then
        let w2 := add_log w1 (InfoReceived message) in
        match message with
        | VDict m =>
            let msg_type := dict_get m (py "type") (VStr []) in
            if equals msg_type "ping" then respond E pong w2
            else if equals msg_type "download" then
              let url := dict_get m (py "url") (VStr []) in
              let filename := dict_get m (py "filename") (VStr []) in
              match handle_download E url filename w2 with
              | (Return success, w3) =>
                  respond E (download_response success url) w3
              | (Raise e, w3) => except_block E e w3
              end
            else if equals msg_type "status" then respond E status_response w2
            else respond E (unknown_type_response E msg_type) w2
        | _ => except_block E (AttributeError message) w2
        end
      else (Return Break, w1)
  end.
Proof.
  unfold iteration, try_except at 1, try_block, bind at 1.
  destruct (read_message w) as [[message|e] w1]; [|reflexivity].
  destruct (truthy message) eqn:Ht; cbn [negb]; [|reflexivity].
  unfold bind at 1, logging at 1. cbv zeta.
  set (w2 := add_log w1 (InfoReceived message)).
  destruct message as [| b | n | f | s | l | m];
    try reflexivity.
  unfold get at 1, bind at 1, ret at 1.
  set (msg_type := dict_get m (py "type") (VStr [])).
  unfold dispatch.
  destruct (equals msg_type "ping").
  { rewrite respond_cases. unfold bind, logging, ret.
    destruct (write_message E pong w2) as [[[]|e] w3]; reflexivity. }
  destruct (equals msg_type "download").
  { unfold get, bind at 1 2 3 4, ret at 1 2.
    destruct (handle_download E _ _ w2) as [[success|e] w3]; [|reflexivity].
    rewrite respond_cases. unfold bind, logging, ret.
    destruct (write_message E _ w3) as [[[]|e] w4]; reflexivity. }
  destruct (equals msg_type "status").
  { rewrite respond_cases. unfold bind, logging, ret.
    destruct (write_message E status_response w2) as [[[]|e] w3]; reflexivity. }
  rewrite respond_cases. unfold bind, logging, ret.
  destruct (write_message E _ w2) as [[[]|e] w3]; reflexivity.
Qed.

(** ** What a pass leaves of the streams *)

Lemma except_block_streams (E : env) (e : fault) (w : world) :
  let w' := snd (except_block E e w) in
  stdin w' = stdin w /\ at_most_one_frame E w w'.
Proof.
  rewrite except_block_cases. cbn [snd].
  pose proof (write_message_frame E (error_response E e)
                (add_log w (ErrorProcessing e))) as (Hin & _ & _ & Hout).
  cbn [add_log stdin stdout stdout_buffer] in *.
  split; [exact Hin|].
  destruct Hout as [Hout | (fr & Hfr & Hout)]; [now left|].
  right. eauto.
Qed.

Lemma respond_streams (E : env) (response : pyval) (w : world) :
  let w' := snd (respond E response w) in
  stdin w' = stdin w /\ at_most_one_frame E w w'.
Proof.
  rewrite respond_cases, write_message_cases. cbv zeta.
  destruct (utf8_encode _) as [payload|] eqn:Henc;
    [|apply except_block_streams].
  destruct (struct_pack_I _) as [header|] eqn:Hpack;
    [|apply except_block_streams].
  destruct (pipe_open E (stdout w)) eqn:Hopen.
  - cbn. split; [reflexivity|]. right. exists response, (header ++ payload).
    unfold frame_of. now rewrite Henc, Hpack.
  - rewrite except_block_cases, write_message_cases. cbv zeta.
    cbn [add_log set_stdout stdout stdout_buffer snd].
    rewrite Hopen.
    destruct (utf8_encode
                (json_dumps (float_text E) (error_response E BrokenPipeError)))
      as [payload'|];
      [destruct (struct_pack_I (N.of_nat (length payload')))|];
      cbn [snd set_stdout stdin stdout]; (split; [reflexivity|now left]).
Qed.

(** A pass never lets an exception out; it leaves the loop exactly when
    the value read is falsy; it delivers at most one frame; and a pass
    that stays in the loop has consumed input. *)
Lemma iteration_outcome (E : env) (w : world) :
  exists c w',
    iteration E w = (Return c, w') /\
    stdin w' = stdin (snd (read_message w)) /\
    at_most_one_frame E w w' /\
    (c = Break <->
     exists v, fst (read_message w) = Return v /\ truthy v = false) /\
    (c = Break -> w' = snd (read_message w)).
Proof.
  rewrite iteration_cases.
  pose proof (read_message_frame w) as (Hout & Hbuf & _ & _ & _).
  destruct (read_message w) as [[message|e] w1] eqn:Hread; cbn [fst snd] in *.
  - destruct (truthy message) eqn:Ht.
    + assert (Hcont : forall (k : M control) (w2 : world),
                 stdin w2 = stdin w1 -> stdout w2 = stdout w1 ->
                 stdout_buffer w2 = stdout_buffer w1 ->
                 fst (k w2) = Return Continue ->
                 (let w' := snd (k w2) in
                  stdin w' = stdin w2 /\ at_most_one_frame E w2 w') ->
                 exists c w',
                   k w2 = (Return c, w') /\ stdin w' = stdin w1 /\
                   at_most_one_frame E w w' /\
                   (c = Break <->
                    exists v, Return message = Return v /\ truthy v = false) /\
                   (c = Break -> w' = w1)).
      { intros k w2 Hi Ho Hb Hc (Hs & Hf).
        destruct (k w2) as [r w'] eqn:Hk. cbn [fst snd] in *. subst r.
        exists Continue, w'. split; [reflexivity|].
        split; [congruence|]. split.
        - unfold at_most_one_frame in *. rewrite Ho, Hb, Hout, Hbuf in Hf.
          exact Hf.
        - split; [|discriminate]. split; [discriminate|].
          intros (v & Hv & Hfalse). injection Hv as <-. congruence. }
      cbv zeta.
      set (w2 := add_log w1 (InfoReceived message)).
      assert (Hexc : forall e,
                 exists c w',
                   except_block E e w2 = (Return c, w') /\ stdin w' = stdin w1 /\
                   at_most_one_frame E w w' /\
                   (c = Break <->
                    exists v, Return message = Return v /\ truthy v = false) /\
                   (c = Break -> w' = w1)).
      { intros e. apply Hcont; try reflexivity.
        - now rewrite except_block_cases.
        - apply except_block_streams. }
      assert (Hresp : forall response,
                 exists c w',
                   respond E response w2 = (Return c, w') /\
                   stdin w' = stdin w1 /\ at_most_one_frame E w w' /\
                   (c = Break <->
                    exists v, Return message = Return v /\ truthy v = false) /\
                   (c = Break -> w' = w1)).
      { intros response. apply Hcont; try reflexivity.
        - apply respond_continues.
        - apply respond_streams. }
      destruct message as [| b | n | f | s | l | m]; try apply Hexc.
      destruct (equals _ "ping"); [apply Hresp|].
      destruct (equals _ "download"); [|destruct (equals _ "status"); apply Hresp].
      destruct (handle_download_returns E (dict_get m (py "url") (VStr []))
                  (dict_get m (py "filename") (VStr [])) w2)
        as (success & w3 & Hd & Hi & Ho & Hb).
      rewrite Hd. apply Hcont; try assumption.
      * apply respond_continues.
      * apply respond_streams.
    + exists Break, w1. split; [reflexivity|]. split; [reflexivity|].
      split; [left; exact Hout|].
      split; [|reflexivity]. split; [|reflexivity].
      intros _. exists message. auto.
  - pose proof (except_block_streams E e w1) as (Hs & Hf).
    rewrite except_block_cases in *. cbn [snd] in *.
    do 2 eexists. split; [reflexivity|]. split; [exact Hs|]. split.
    + unfold at_most_one_frame in *. now rewrite <- Hout, <- Hbuf.
    + split; [|discriminate]. split; [discriminate|].
      intros (v & Hv & _). discriminate.
Qed.

Lemma iteration_returns (E : env) (w : world) :
  exists c w', iteration E w = (Return c, w').
Proof.
  destruct (iteration_outcome E w) as (c & w' & H & _). eauto.
Qed.

Lemma iteration_continue_consumes (E : env) (w w' : world) :
  iteration E w = (Return Continue, w') ->
  (length (stdin w') < length (stdin w))%nat.
Proof.
  intros H.
  destruct (iteration_outcome E w) as (c & w1 & H1 & Hin & _ & Hbrk & _).
  rewrite H in H1. injection H1 as <- <-.
  rewrite Hin.
  destruct (read_message w) as [r w1] eqn:Hread.
  destruct (read_message_consumes _ _ _ Hread) as [Hlt | (-> & ->)]; [exact Hlt|].
  cbn [fst snd] in *.
  assert (Continue = Break); [|discriminate].
  apply Hbrk. exists VNone. auto.
Qed.

(** The loop ends, and ends by [break]: no exception leaves it. *)
Lemma main_loop_exits (E : env) (passes : nat) (w : world) :
  (length (stdin w) < passes)%nat -> fst (main_loop E passes w) = Exited.
Proof.
  revert w. induction passes as [|passes IH]; intros w Hlen; [lia|].
  cbn [main_loop].
  destruct (iteration_returns E w) as (c & w' & H). rewrite H.
  destruct c; [|reflexivity].
  apply IH. apply iteration_continue_consumes in H. lia.
Qed.

Lemma main_exits (E : env) (w : world) : fst (main E w) = Exited.
Proof.
  unfold main.
  pose proof (main_loop_exits E (S (length (stdin (add_log w InfoStarted))))
                (add_log w InfoStarted) ltac:(lia)) as H.
  destruct (main_loop E _ _) as [x w']. cbn [fst] in H. now subst x.
Qed.

(** More passes than needed change nothing. *)
Lemma main_loop_more (E : env) (passes extra : nat) (w : world) :
  (length (stdin w) < passes)%nat ->
  main_loop E (passes + extra) w = main_loop E passes w.
Proof.
  revert w. induction passes as [|passes IH]; intros w Hlen; [lia|].
  cbn [main_loop Nat.add].
  destruct (iteration_returns E w) as (c & w' & H). rewrite H.
  destruct c; [|reflexivity].
  apply IH. apply iteration_continue_consumes in H. lia.
Qed.

(* ------------------------------------------------------------------ *)
(** * Further lemmas on frames and on the dispatcher *)

(** [read_message] on a whole frame: the payload goes to the decoder and
    the input is left just after it. *)
Lemma read_message_whole_frame (w : world) (header payload rest : bytes) (n : N) :
  length header = 4%nat ->
  struct_unpack_I header = Some n ->
  N.of_nat (length payload) = n ->
  read_message (set_stdin w (header ++ payload ++ rest)) =
  (decode_payload payload, set_stdin w rest).
Proof.
  intros Hlen Hunpack Hn. rewrite read_message_cases.
  cbn [set_stdin stdin].
  change 4 with (N.of_nat 4). rewrite <- Hlen, split_at_exact.
  destruct header as [|b header]; [discriminate|].
  rewrite Hunpack, <- Hn, split_at_exact.
  unfold decode_payload, set_stdin. cbn.
  destruct (utf8_decode payload) as [text|]; [|reflexivity].
  destruct (json_loads text); reflexivity.
Qed.

Lemma pystr_eqb_eq (a b : pystr) : pystr_eqb a b = true <-> a = b.
Proof.
  revert b. induction a as [|x a IH]; intros [|y b]; cbn; try easy.
  rewrite andb_true_iff, N.eqb_eq, IH. split.
  - intros [-> ->]. reflexivity.
  - intros H. injection H as -> ->. auto.
Qed.

Lemma equals_false (t : pystr) (literal : string) :
  t <> py literal -> equals (VStr t) literal = false.
Proof.
  intros H. cbn. destruct (pystr_eqb t (py literal)) eqn:Heq; [|reflexivity].
  apply pystr_eqb_eq in Heq. contradiction.
Qed.

(** A fault of any step of the [try] block reaches the [except] block. *)
Lemma iteration_catches (E : env) (w w1 : world) (e : fault) :
  try_block E w = (Raise e, w1) -> iteration E w = except_block E e w1.
Proof. intros H. unfold iteration, try_except. now rewrite H. Qed.

Lemma try_block_read_fault (E : env) (w w1 : world) (e : fault) :
  read_message w = (Raise e, w1) -> try_block E w = (Raise e, w1).
Proof. intros H. unfold try_block, bind. now rewrite H. Qed.

Lemma read_message_dict_streams (w w1 : world) (v : pyval) :
  read_message w = (Return v, w1) ->
  stdout w1 = stdout w /\ stdout_buffer w1 = stdout_buffer w.
Proof.
  intros H. pose proof (read_message_frame w) as (Hout & Hbuf & _).
  rewrite H in Hout, Hbuf. auto.
Qed.


Lemma set_stdin_same (w : world) : set_stdin w (stdin w) = w.
Proof. now destruct w. Qed.



(** [handle_download] never looks at the file name. *)
Lemma handle_download_ignores_filename (E : env) (url f1 f2 : pyval) (w : world) :
  handle_download E url f1 w = handle_download E url f2 w.
Proof. now rewrite !handle_download_cases. Qed.

(** With the pipe open and error responses that fit the header, the
    [except] block delivers the frame of its error response. *)
Lemma except_block_delivers (E : env) (e : fault) (w : world) :
  pipe_open E (stdout w) = true ->
  (forall e', frame_of E (error_response E e') <> None) ->
  exists response fr,
    frame_of E response = Some fr /\
    stdout (snd (except_block E e w)) = stdout w ++ stdout_buffer w ++ fr.
Proof.
  intros Hopen Hfit. rewrite except_block_cases. cbn [snd].
  destruct (frame_of E (error_response E e)) as [fr|] eqn:Hfr;
    [|now destruct (Hfit e)].
  exists (error_response E e), fr. split; [exact Hfr|].
  now rewrite (write_message_delivers E _ (add_log w (ErrorProcessing e)) fr
                 Hfr Hopen).
Qed.

Lemma respond_delivers_some (E : env) (response : pyval) (w : world) :
  pipe_open E (stdout w) = true ->
  (forall e, frame_of E (error_response E e) <> None) ->
  exists r fr,
    frame_of E r = Some fr /\
    stdout (snd (respond E response w)) = stdout w ++ stdout_buffer w ++ fr.
Proof.
  intros Hopen Hfit.
  destruct (frame_of E response) as [fr|] eqn:Hfr.
  - exists response, fr. split; [exact Hfr|].
    now rewrite (respond_delivers E response w fr Hfr Hopen).
  - rewrite respond_cases, write_message_cases. cbv zeta.
    unfold frame_of in Hfr.
    destruct (utf8_encode _) as [payload|];
      [|now apply except_block_delivers].
    destruct (struct_pack_I _) as [header|]; [discriminate|].
    now apply except_block_delivers.
Qed.

(* ------------------------------------------------------------------ *)
(** * The JSON text codec: decoding what the encoder printed *)

Lemma is_digit_cases (c : N) :
  is_digit c = true ->
  c = 48 \/ c = 49 \/ c = 50 \/ c = 51 \/ c = 52 \/
  c = 53 \/ c = 54 \/ c = 55 \/ c = 56 \/ c = 57.
Proof.
  unfold is_digit. rewrite andb_true_iff, !N.leb_le. lia.
Qed.

Lemma digit_of_none (c : N) : is_digit c = false -> digit_of c = None.
Proof.
  unfold is_digit, digit_of. intros H.
  apply andb_false_iff in H. rewrite !N.leb_gt in H.
  repeat match goal with
         | |- context [?a =? ?b] =>
             destruct (N.eqb_spec a b); [exfalso; lia|]
         end.
  reflexivity.
Qed.

Lemma ends_number_not_digit (rest : pystr) :
  ends_number rest ->
  match rest with [] => True | c :: _ => is_digit c = false end.
Proof.
  destruct rest as [|c rest]; [auto|].
  intros [-> | [-> | ->]]; reflexivity.
Qed.

Lemma scan_digits_text (u : Decimal.uint) (rest : pystr) :
  ends_number rest -> scan_digits (uint_text u ++ rest) = (u, rest).
Proof.
  intros Hrest.
  induction u; cbn [uint_text app scan_digits];
    try (change (digit_of 48) with (Some Decimal.D0);
         change (digit_of 49) with (Some Decimal.D1);
         change (digit_of 50) with (Some Decimal.D2);
         change (digit_of 51) with (Some Decimal.D3);
         change (digit_of 52) with (Some Decimal.D4);
         change (digit_of 53) with (Some Decimal.D5);
         change (digit_of 54) with (Some Decimal.D6);
         change (digit_of 55) with (Some Decimal.D7);
         change (digit_of 56) with (Some Decimal.D8);
         change (digit_of 57) with (Some Decimal.D9);
         cbv iota; now rewrite IHu).
  apply ends_number_not_digit in Hrest.
  destruct rest as [|c rest]; [reflexivity|].
  cbn [scan_digits]. now rewrite digit_of_none.
Qed.

Lemma scan_fraction_none (rest : pystr) :
  ends_number rest -> scan_fraction rest = (None, rest).
Proof.
  destruct rest as [|c [|d rest]]; try reflexivity.
  intros [-> | [-> | ->]]; reflexivity.
Qed.

Lemma scan_exponent_none (rest : pystr) :
  ends_number rest -> scan_exponent rest = (None, rest).
Proof.
  destruct rest as [|c rest]; [reflexivity|].
  intros [-> | [-> | ->]]; reflexivity.
Qed.

(** The digits of a positive number start with a digit other than 0. *)
Lemma to_uint_head (p : positive) :
  match Pos.to_uint p with
  | Decimal.Nil | Decimal.D0 _ => False
  | _ => True
  end.
Proof.
  pose proof (DecimalPos.Unsigned.to_of (Pos.to_uint p)) as Hn.
  rewrite DecimalPos.Unsigned.of_to in Hn. cbn [N.to_uint] in Hn.
  pose proof (DecimalPos.Unsigned.to_uint_nonnil p) as Hnil.
  pose proof (DecimalPos.Unsigned.to_uint_nonzero p) as Hzero.
  set (d := Pos.to_uint p) in *.
  destruct d as [|d'| | | | | | | | |]; try exact I.
  - now destruct Hnil.
  - rewrite DecimalFacts.unorm_D0 in Hn.
    destruct (Decimal.uint_eq_dec d' Decimal.Nil) as [->|Hne].
    + now destruct Hzero.
    + pose proof (DecimalFacts.nb_digits_unorm d' Hne) as Hlen.
      rewrite <- Hn in Hlen. cbn [Decimal.nb_digits] in Hlen. lia.
Qed.

Lemma scan_integer_text (u : Decimal.uint) (rest : pystr) :
  ends_number rest ->
  match u with
  | Decimal.Nil => False
  | Decimal.D0 u' => u' = Decimal.Nil
  | _ => True
  end ->
  scan_integer (uint_text u ++ rest) = Some (u, rest).
Proof.
  intros Hrest Hu.
  destruct u; try (now destruct Hu);
    try (rewrite <- (scan_digits_text _ rest Hrest); reflexivity).
  subst u. reflexivity.
Qed.

Lemma scan_sign_digits (u : Decimal.uint) (rest : pystr) :
  scan_sign (uint_text u ++ rest) = (false, uint_text u ++ rest) \/
  u = Decimal.Nil.
Proof. destruct u; auto. Qed.

Lemma match_number_uint (negative : bool) (u : Decimal.uint) (rest : pystr) :
  ends_number rest ->
  match u with
  | Decimal.Nil => False
  | Decimal.D0 u' => u' = Decimal.Nil
  | _ => True
  end ->
  match_number ((if negative then [chr "-"] else []) ++ uint_text u ++ rest)
  = Scanned (VInt (Z.of_int (if negative then Decimal.Neg u else Decimal.Pos u)))
      rest.
Proof.
  intros Hrest Hu. unfold match_number.
  destruct negative; cbn [app].
  - change (scan_sign (chr "-" :: uint_text u ++ rest))
      with (true, uint_text u ++ rest).
    cbv beta iota.
    rewrite (scan_integer_text u rest Hrest Hu).
    rewrite (scan_fraction_none _ Hrest), (scan_exponent_none _ Hrest).
    reflexivity.
  - destruct (scan_sign_digits u rest) as [Hs | ->]; [|now destruct Hu].
    rewrite Hs. cbv beta iota.
    rewrite (scan_integer_text u rest Hrest Hu).
    rewrite (scan_fraction_none _ Hrest), (scan_exponent_none _ Hrest).
    reflexivity.
Qed.

Lemma match_number_int (n : Z) (rest : pystr) :
  ends_number rest -> match_number (int_text n ++ rest) = Scanned (VInt n) rest.
Proof.
  intros Hrest. unfold int_text.
  pose proof (DecimalZ.of_to n) as Hn.
  destruct n as [|p|p]; cbn [Z.to_int] in *.
  - exact (match_number_uint false Decimal.zero rest Hrest eq_refl).
  - pose proof (to_uint_head p) as Hhead.
    rewrite <- Hn.
    apply (match_number_uint false (Pos.to_uint p) rest Hrest).
    destruct (Pos.to_uint p); auto; contradiction.
  - pose proof (to_uint_head p) as Hhead.
    rewrite <- Hn.
    apply (match_number_uint true (Pos.to_uint p) rest Hrest).
    destruct (Pos.to_uint p); auto; contradiction.
Qed.

(** The first character of a printed integer: a digit, or a minus sign
    followed by a digit. *)
Lemma int_text_head (n : Z) :
  exists c t,
    int_text n = c :: t /\
    (is_digit c = true \/
     (c = chr "-" /\ exists d t', t = d :: t' /\ is_digit d = true)).
Proof.
  assert (Hu : forall u,
             u <> Decimal.Nil ->
             exists d t', uint_text u = d :: t' /\ is_digit d = true).
  { intros u Hnil. destruct u; try (now destruct Hnil);
      cbn [uint_text]; do 2 eexists; split; reflexivity. }
  unfold int_text. destruct n as [|p|p]; cbn [Z.to_int].
  - exists 48, []. split; [reflexivity|left; reflexivity].
  - destruct (Hu _ (DecimalPos.Unsigned.to_uint_nonnil p)) as (d & t & -> & Hd).
    exists d, t. auto.
  - destruct (Hu _ (DecimalPos.Unsigned.to_uint_nonnil p)) as (d & t & Ht & Hd).
    exists (chr "-"), (uint_text (Pos.to_uint p)). split; [reflexivity|].
    right. split; [reflexivity|]. eauto.
Qed.

(** On a digit, or on a minus sign followed by a digit, [scan_once] is
    [match_number]. *)
Lemma scan_once_number (fuel : nat) (c : N) (t : pystr) :
  is_digit c = true \/
  (c = chr "-" /\ exists d t', t = d :: t' /\ is_digit d = true) ->
  scan_once (S fuel) (c :: t) = match_number (c :: t).
Proof.
  intros [Hc | (-> & d & t' & -> & Hd)].
  - apply is_digit_cases in Hc.
    repeat (destruct Hc as [-> | Hc]; [reflexivity|]). subst c. reflexivity.
  - apply is_digit_cases in Hd.
    repeat (destruct Hd as [-> | Hd]; [reflexivity|]). subst d. reflexivity.
Qed.

Lemma scan_once_int (fuel : nat) (n : Z) (rest : pystr) :
  ends_number rest ->
  scan_once (S fuel) (int_text n ++ rest) = Scanned (VInt n) rest.
Proof.
  intros Hrest.
  destruct (int_text_head n) as (c & t & Hct & Hhead).
  rewrite <- (match_number_int n rest Hrest), Hct.
  cbn [app]. apply scan_once_number.
  destruct Hhead as [Hc | (-> & d & t' & -> & Hd)]; [now left|].
  right. split; [reflexivity|]. exists d, (t' ++ rest). auto.
Qed.

(** ** Strings *)

Lemma hex_value_digit (n : N) : n < 16 -> hex_value (hex_digit n) = Some n.
Proof.
  intros Hn. unfold hex_digit, hex_value.
  destruct (N.ltb_spec n 10) as [Hdec | Hhex].
  - replace ((48 <=? 48 + n) && (48 + n <=? 57)) with true.
    + f_equal. lia.
    + symmetry. apply andb_true_iff. split; apply N.leb_le; lia.
  - replace ((48 <=? 87 + n) && (87 + n <=? 57)) with false.
    + replace ((97 <=? 87 + n) && (87 + n <=? 102)) with true.
      * f_equal. lia.
      * symmetry. apply andb_true_iff. split; apply N.leb_le; lia.
    + symmetry. apply andb_false_iff. right. apply N.leb_gt. lia.
Qed.

Lemma hex4_value_digits (c : N) :
  c < 0x10000 ->
  hex4_value (hex_digit (c / 4096 mod 16)) (hex_digit (c / 256 mod 16))
    (hex_digit (c / 16 mod 16)) (hex_digit (c mod 16)) = Some c.
Proof.
  intros Hc. unfold hex4_value.
  rewrite !hex_value_digit by (apply N.mod_upper_bound; discriminate).
  f_equal.
  pose proof (N.div_mod c 16 ltac:(discriminate)) as E0.
  pose proof (N.div_mod (c / 16) 16 ltac:(discriminate)) as E1.
  pose proof (N.div_mod (c / 16 / 16) 16 ltac:(discriminate)) as E2.
  assert (H3 : c / 16 / 16 / 16 < 16).
  { repeat apply N.Div0.div_lt_upper_bound. exact Hc. }
  rewrite !N.Div0.div_div in *.
  change (16 * 16) with 256 in *. change (256 * 16) with 4096 in *.
  rewrite (N.mod_small (c / 4096) 16) by exact H3.
  lia.
Qed.

Lemma scanstring_u_escape (h1 h2 h3 h4 u : N) (t : pystr) :
  hex4_value h1 h2 h3 h4 = Some u ->
  (is_high_surrogate u = true -> no_low_escape t) ->
  scanstring (BACKSLASH :: chr "u" :: h1 :: h2 :: h3 :: h4 :: t)
  = push u (scanstring t).
Proof.
  intros Hhex Hpair. cbn [scanstring].
  change (BACKSLASH =? QUOTE) with false.
  change (BACKSLASH =? BACKSLASH) with true.
  change (chr "u" =? chr "u") with true. cbv iota.
  rewrite Hhex.
  destruct (is_high_surrogate u) eqn:Hhigh; [|reflexivity].
  specialize (Hpair eq_refl).
  destruct t as [|b [|u' [|k1 [|k2 [|k3 [|k4 t']]]]]]; try reflexivity.
  destruct (N.eqb_spec b BACKSLASH) as [->|]; [|reflexivity].
  destruct (N.eqb_spec u' (chr "u")) as [->|]; [|reflexivity].
  destruct (Hpair k1 k2 k3 k4 t' eq_refl) as (u2 & -> & ->).
  reflexivity.
Qed.

Lemma scanstring_surrogate_pair (h1 h2 h3 h4 k1 k2 k3 k4 hi lo : N) (t : pystr) :
  hex4_value h1 h2 h3 h4 = Some hi ->
  hex4_value k1 k2 k3 k4 = Some lo ->
  is_high_surrogate hi = true ->
  is_low_surrogate lo = true ->
  scanstring (BACKSLASH :: chr "u" :: h1 :: h2 :: h3 :: h4
              :: BACKSLASH :: chr "u" :: k1 :: k2 :: k3 :: k4 :: t)
  = push (join_surrogates hi lo) (scanstring t).
Proof.
  intros Hhi Hlo Hhigh Hlow. cbn [scanstring].
  change (BACKSLASH =? QUOTE) with false.
  change (BACKSLASH =? BACKSLASH) with true.
  change (chr "u" =? chr "u") with true. cbv iota.
  rewrite Hhi, Hhigh. cbn [andb]. now rewrite Hlo, Hlow.
Qed.

Lemma surrogate_halves (c : N) :
  0x10000 <= c -> c <= 0x10FFFF ->
  let n := c - 0x10000 in
  let hi := 0xD800 + (n / 1024) mod 1024 in
  let lo := 0xDC00 + n mod 1024 in
  hi < 0x10000 /\ lo < 0x10000 /\
  is_high_surrogate hi = true /\ is_low_surrogate lo = true /\
  join_surrogates hi lo = c.
Proof.
  intros Hlo Hhi n hi lo. subst hi lo.
  assert (Hn : n < 1024 * 1024) by (unfold n; lia).
  assert (Hq : n / 1024 < 1024) by now apply N.Div0.div_lt_upper_bound.
  pose proof (N.mod_upper_bound n 1024 ltac:(discriminate)) as B0.
  pose proof (N.div_mod n 1024 ltac:(discriminate)) as E.
  rewrite (N.mod_small (n / 1024) 1024) by exact Hq.
  unfold is_high_surrogate, is_low_surrogate, join_surrogates.
  assert (Hc : c = 0x10000 + n) by (unfold n; lia).
  clearbody n.
  set (q := n / 1024) in *. set (r := n mod 1024) in *.
  clearbody q r. subst n c.
  split; [lia|]. split; [lia|]. split; [|split].
  - apply andb_true_iff. split; apply N.leb_le; lia.
  - apply andb_true_iff. split; apply N.leb_le; lia.
  - lia.
Qed.

Lemma scanstring_escape_char (c : N) (t : pystr) :
  c <= 0x10FFFF ->
  (is_high_surrogate c = true -> no_low_escape t) ->
  scanstring (escape_char c ++ t) = push c (scanstring t).
Proof.
  intros Hmax Hpair. unfold escape_char.
  destruct (N.eqb_spec c QUOTE) as [->|Hq]; [reflexivity|].
  destruct (N.eqb_spec c BACKSLASH) as [->|Hb]; [reflexivity|].
  destruct (N.eqb_spec c 10) as [->|]; [reflexivity|].
  destruct (N.eqb_spec c 13) as [->|]; [reflexivity|].
  destruct (N.eqb_spec c 9) as [->|]; [reflexivity|].
  destruct (N.eqb_spec c 8) as [->|]; [reflexivity|].
  destruct (N.eqb_spec c 12) as [->|]; [reflexivity|].
  destruct ((32 <=? c) && (c <=? 126)) eqn:Hprint.
  - apply andb_true_iff in Hprint as (H32 & _). apply N.leb_le in H32.
    cbn [app scanstring].
    rewrite (proj2 (N.eqb_neq c QUOTE) Hq), (proj2 (N.eqb_neq c BACKSLASH) Hb).
    replace (c <=? 31) with false by (symmetry; apply N.leb_gt; lia).
    reflexivity.
  - destruct (N.ltb_spec c 0x10000) as [Hbmp | Hastral].
    + unfold u_escape. cbn [app].
      apply scanstring_u_escape; [now apply hex4_value_digits | exact Hpair].
    + destruct (surrogate_halves c Hastral Hmax)
        as (Hhi & Hlo & Hhigh & Hlow & Hjoin).
      cbv zeta in *. unfold u_escape. cbn [app].
      rewrite (scanstring_surrogate_pair _ _ _ _ _ _ _ _ _ _ t
                 (hex4_value_digits _ Hhi) (hex4_value_digits _ Hlo)
                 Hhigh Hlow).
      now rewrite Hjoin.
Qed.

Lemma escape_digits_eq (a b h1 h2 h3 h4 a' b' k1 k2 k3 k4 : N) (t t' : pystr) :
  a :: b :: h1 :: h2 :: h3 :: h4 :: t = a' :: b' :: k1 :: k2 :: k3 :: k4 :: t' ->
  h1 = k1 /\ h2 = k2 /\ h3 = k3 /\ h4 = k4.
Proof. intros H. injection H as _ _ -> -> -> -> _. auto. Qed.

(** When the escape of a character starts like a [\u] escape, it is the
    escape of that character or of the high half of its surrogate pair. *)
Lemma escape_char_u_head (c k1 k2 k3 k4 : N) (t0 t' : pystr) :
  c <= 0x10FFFF ->
  escape_char c ++ t0 = BACKSLASH :: chr "u" :: k1 :: k2 :: k3 :: k4 :: t' ->
  exists u2,
    hex4_value k1 k2 k3 k4 = Some u2 /\
    (u2 = c \/ is_high_surrogate u2 = true).
Proof.
  intros Hmax. unfold escape_char.
  destruct (N.eqb_spec c QUOTE); [discriminate|].
  destruct (N.eqb_spec c BACKSLASH) as [|Hb]; [discriminate|].
  destruct (N.eqb_spec c 10); [discriminate|].
  destruct (N.eqb_spec c 13); [discriminate|].
  destruct (N.eqb_spec c 9); [discriminate|].
  destruct (N.eqb_spec c 8); [discriminate|].
  destruct (N.eqb_spec c 12); [discriminate|].
  destruct ((32 <=? c) && (c <=? 126)).
  - cbn [app]. intros H. injection H as H _. contradiction.
  - destruct (N.ltb_spec c 0x10000) as [Hbmp | Hastral].
    + unfold u_escape. cbn [app]. intros H.
      apply escape_digits_eq in H as (H1 & H2 & H3 & H4).
      exists c. split; [|now left].
      rewrite <- H1, <- H2, <- H3, <- H4. now apply hex4_value_digits.
    + destruct (surrogate_halves c Hastral Hmax) as (Hhi & _ & Hhigh & _).
      cbv zeta in *. unfold u_escape. cbn [app]. intros H.
      apply escape_digits_eq in H as (H1 & H2 & H3 & H4).
      eexists. split; [|right; exact Hhigh].
      rewrite <- H1, <- H2, <- H3, <- H4. now apply hex4_value_digits.
Qed.

Lemma high_not_low (u : N) :
  is_high_surrogate u = true -> is_low_surrogate u = false.
Proof.
  unfold is_high_surrogate, is_low_surrogate.
  rewrite andb_true_iff, andb_false_iff, !N.leb_le, !N.leb_gt. lia.
Qed.

Lemma scanstring_text (s rest : pystr) :
  text_ok s ->
  scanstring (flat_map escape_char s ++ QUOTE :: rest) = Some (s, rest).
Proof.
  induction s as [|c s IH]; [reflexivity|].
  intros (Hmax & Hpair & Hok).
  cbn [flat_map]. rewrite <- app_assoc.
  rewrite scanstring_escape_char; [now rewrite IH| exact Hmax |].
  intros Hhigh k1 k2 k3 k4 t' Ht. specialize (Hpair Hhigh).
  destruct s as [|c' s'].
  - discriminate Ht.
  - cbn [flat_map] in Ht. rewrite <- app_assoc in Ht.
    destruct Hok as (Hmax' & _).
    destruct (escape_char_u_head c' k1 k2 k3 k4 _ t' Hmax' Ht)
      as (u2 & Hhex & [-> | Hhigh2]).
    + eauto.
    + exists u2. split; [exact Hhex | now apply high_not_low].
Qed.

Lemma scan_once_string (fuel : nat) (s rest : pystr) :
  text_ok s ->
  scan_once (S fuel) (encode_basestring_ascii s ++ rest) = Scanned (VStr s) rest.
Proof.
  intros Hok. unfold encode_basestring_ascii.
  cbn [app scan_once]. change (QUOTE =? QUOTE) with true. cbv iota.
  rewrite <- app_assoc. cbn [app].
  now rewrite scanstring_text.
Qed.

(** ** Values *)

Lemma skip_whitespace_head (c : N) (t : pystr) :
  is_whitespace c = false -> skip_whitespace (c :: t) = c :: t.
Proof. intros H. cbn [skip_whitespace]. now rewrite H. Qed.

Lemma skip_whitespace_space (s : pystr) :
  skip_whitespace (32 :: s) = skip_whitespace s.
Proof. reflexivity. Qed.

(** The encoder's output starts with a character that is neither white
    space nor a closing bracket. *)
Lemma json_dumps_head (ft : float_lit -> string) (v : pyval) :
  json_plain v ->
  exists c t,
    json_dumps ft v = c :: t /\ is_whitespace c = false /\
    c <> chr "]" /\ c <> chr "}".
Proof.
  destruct v as [| [|] | n | f | s | l | m]; cbn [json_plain]; intros Hv;
    try (do 2 eexists; split; [reflexivity|];
         split; [reflexivity|]; split; discriminate).
  - destruct (int_text_head n) as (c & t & Hct & [Hd | (-> & _)]).
    + exists c, t. split; [exact Hct|].
      apply is_digit_cases in Hd.
      repeat (destruct Hd as [-> | Hd];
              [split; [reflexivity|]; split; discriminate|]).
      subst c. split; [reflexivity|]; split; discriminate.
    + exists (chr "-"), t. split; [exact Hct|].
      split; [reflexivity|]; split; discriminate.
  - contradiction.
Qed.

Lemma dict_set_fresh (m : list (pystr * pyval)) (k : pystr) (v : pyval) :
  ~ In k (map fst m) -> dict_set m k v = m ++ [(k, v)].
Proof.
  induction m as [|[k' x] m IH]; cbn; [reflexivity|].
  intros Hnin.
  destruct (pystr_eqb k' k) eqn:Heq.
  - apply pystr_eqb_eq in Heq. subst. tauto.
  - rewrite IH by tauto. reflexivity.
Qed.

Lemma dict_of_pairs_distinct (m : list (pystr * pyval)) :
  NoDup (map fst m) -> dict_of_pairs m = m.
Proof.
  unfold dict_of_pairs.
  assert (H : forall ps acc,
             NoDup (map fst (acc ++ ps)) ->
             fold_left (fun m kv => dict_set m (fst kv) (snd kv)) ps acc
             = acc ++ ps).
  { induction ps as [|[k v] ps IH]; intros acc Hnd; cbn [fold_left].
    - now rewrite app_nil_r.
    - cbn [fst snd]. rewrite dict_set_fresh.
      + rewrite IH; rewrite <- app_assoc; [reflexivity | exact Hnd].
      + rewrite map_app in Hnd. cbn in Hnd.
        apply NoDup_remove_2 in Hnd. rewrite in_app_iff in Hnd. tauto. }
  intros Hnd. exact (H m [] Hnd).
Qed.

Lemma scan_once_array (fuel : nat) (t : pystr) :
  scan_once (S fuel) (chr "[" :: t) =
  match skip_whitespace t with
  | c2 :: s2 =>
      if c2 =? chr "]" then Scanned (VList []) s2
      else scan_map VList (scan_items fuel (c2 :: s2))
  | [] => Malformed
  end.
Proof. reflexivity. Qed.

Lemma scan_once_object (fuel : nat) (t : pystr) :
  scan_once (S fuel) (chr "{" :: t) =
  match skip_whitespace t with
  | c2 :: s2 =>
      if c2 =? chr "}" then Scanned (VDict []) s2
      else scan_map (fun ps => VDict (dict_of_pairs ps))
             (scan_members fuel (c2 :: s2))
  | [] => Malformed
  end.
Proof. reflexivity. Qed.

Lemma scan_items_step (fuel : nat) (s : pystr) :
  scan_items (S fuel) s =
  match scan_once fuel s with
  | Scanned v r =>
      match skip_whitespace r with
      | c :: r1 =>
          if c =? chr "]" then Scanned [v] r1
          else if c =? chr "," then
            scan_map (cons v) (scan_items fuel (skip_whitespace r1))
          else Malformed
      | [] => Malformed
      end
  | Malformed => Malformed
  | Exhausted => Exhausted
  end.
Proof. reflexivity. Qed.

Lemma scan_members_step (fuel : nat) (s1 : pystr) :
  scan_members (S fuel) (QUOTE :: s1) =
  match scanstring s1 with
  | Some (key, r) =>
      match skip_whitespace r with
      | colon :: r1 =>
          if colon =? chr ":" then
            match scan_once fuel (skip_whitespace r1) with
            | Scanned v r2 =>
                match skip_whitespace r2 with
                | c :: r3 =>
                    if c =? chr "}" then Scanned [(key, v)] r3
                    else if c =? chr "," then
                      scan_map (cons (key, v))
                        (scan_members fuel (skip_whitespace r3))
                    else Malformed
                | [] => Malformed
                end
            | Malformed => Malformed
            | Exhausted => Exhausted
            end
          else Malformed
      | [] => Malformed
      end
  | None => Malformed
  end.
Proof. reflexivity. Qed.

Section RoundTrip.
Variable ft : float_lit -> string.

Lemma join_items_cons (x y : pystr) (l : list pystr) :
  join_items (x :: y :: l) = x ++ 44 :: 32 :: join_items (y :: l).
Proof. reflexivity. Qed.

Lemma skip_whitespace_dumps (v : pyval) (t : pystr) :
  json_plain v -> skip_whitespace (json_dumps ft v ++ t) = json_dumps ft v ++ t.
Proof.
  intros Hv. destruct (json_dumps_head ft v Hv) as (c & t' & -> & Hc & _).
  cbn [app]. now apply skip_whitespace_head.
Qed.

Lemma scan_items_back (l : list pyval) :
  l <> [] ->
  Forall json_plain l ->
  Forall (scans_back ft) l ->
  forall fuel rest,
    (2 * length (join_items (map (json_dumps ft) l)) + 1 < fuel)%nat ->
    scan_items fuel (join_items (map (json_dumps ft) l) ++ chr "]" :: rest)
    = Scanned l rest.
Proof.
  induction l as [|x l IH]; [congruence|].
  intros _ Hplain Hback fuel rest Hfuel.
  inversion Hplain as [|? ? Hx Hl]; subst.
  inversion Hback as [|? ? Bx Bl]; subst.
  destruct fuel as [|fuel]; [lia|].
  rewrite scan_items_step.
  destruct l as [|y l].
  - cbn [map join_items] in *.
    rewrite Bx; [reflexivity | cbn; auto | lia].
  - cbn [map] in *. rewrite join_items_cons in *.
    rewrite length_app in Hfuel. cbn [length] in Hfuel.
    rewrite <- app_assoc. cbn [app].
    rewrite Bx; [| cbn; auto | lia].
    change (skip_whitespace (44 :: 32 :: ?t)) with (44 :: 32 :: t).
    change (44 =? chr "]") with false. change (44 =? chr ",") with true.
    cbv iota. rewrite skip_whitespace_space.
    assert (Hskip : forall t,
               skip_whitespace
                 (join_items (json_dumps ft y :: map (json_dumps ft) l) ++ t)
               = join_items (json_dumps ft y :: map (json_dumps ft) l) ++ t).
    { intros t. inversion Hl; subst.
      destruct (map (json_dumps ft) l) as [|z zs].
      - cbn [join_items]. now apply skip_whitespace_dumps.
      - rewrite join_items_cons, <- app_assoc.
        now apply skip_whitespace_dumps. }
    rewrite Hskip, IH; [reflexivity | discriminate | assumption.. | lia].
Qed.

Lemma member_text_app (k : pystr) (x : pyval) (t : pystr) :
  member_text ft (k, x) ++ t
  = QUOTE :: flat_map escape_char k
      ++ QUOTE :: chr ":" :: 32 :: json_dumps ft x ++ t.
Proof.
  unfold member_text, encode_basestring_ascii. cbn [fst snd app].
  rewrite <- !app_assoc. reflexivity.
Qed.

Lemma member_text_length (k : pystr) (x : pyval) :
  (length (json_dumps ft x) + 4 <= length (member_text ft (k, x)))%nat.
Proof.
  unfold member_text, encode_basestring_ascii. cbn [fst snd].
  rewrite !length_app. cbn [length]. rewrite !length_app.
  change (length (py ": ")) with 2%nat. cbn [length]. lia.
Qed.

Lemma scan_members_back (m : list (pystr * pyval)) :
  m <> [] ->
  Forall (fun kv => text_ok (fst kv) /\ json_plain (snd kv)) m ->
  Forall (fun kv => scans_back ft (snd kv)) m ->
  forall fuel rest,
    (2 * length (join_items (map (member_text ft) m)) + 1 < fuel)%nat ->
    scan_members fuel (join_items (map (member_text ft) m) ++ chr "}" :: rest)
    = Scanned m rest.
Proof.
  induction m as [|[k x] m IH]; [congruence|].
  intros _ Hplain Hback fuel rest Hfuel.
  inversion Hplain as [|? ? (Hk & Hx) Hm]; subst.
  inversion Hback as [|? ? Bx Bm]; subst.
  cbn [fst snd] in *.
  destruct fuel as [|fuel]; [lia|].
  pose proof (member_text_length k x) as Hlen.
  destruct m as [|[k' y] m].
  - cbn [map join_items] in *.
    rewrite member_text_app, scan_members_step, scanstring_text by exact Hk.
    change (skip_whitespace (chr ":" :: ?t)) with (chr ":" :: t).
    change (chr ":" =? chr ":") with true. cbv iota.
    rewrite skip_whitespace_space, skip_whitespace_dumps by exact Hx.
    rewrite Bx; [reflexivity | cbn; auto | lia].
  - cbn [map] in *. rewrite join_items_cons in *.
    rewrite length_app in Hfuel. cbn [length] in Hfuel.
    rewrite <- app_assoc. cbn [app].
    rewrite member_text_app, scan_members_step, scanstring_text by exact Hk.
    change (skip_whitespace (chr ":" :: ?t)) with (chr ":" :: t).
    change (chr ":" =? chr ":") with true. cbv iota.
    rewrite skip_whitespace_space, skip_whitespace_dumps by exact Hx.
    rewrite Bx; [| cbn; auto | lia].
    change (skip_whitespace (44 :: 32 :: ?t)) with (44 :: 32 :: t).
    change (44 =? chr "}") with false. change (44 =? chr ",") with true.
    cbv iota. rewrite skip_whitespace_space.
    assert (Hskip : forall t,
               skip_whitespace
                 (join_items (member_text ft (k', y) :: map (member_text ft) m) ++ t)
               = join_items (member_text ft (k', y) :: map (member_text ft) m) ++ t).
    { intros t.
      destruct (map (member_text ft) m) as [|z zs];
        [cbn [join_items]|rewrite join_items_cons, <- app_assoc];
        rewrite member_text_app; reflexivity. }
    rewrite Hskip, IH; [reflexivity | discriminate | assumption.. | lia].
Qed.

Lemma json_plain_list (l : list pyval) :
  json_plain (VList l) <-> Forall json_plain l.
Proof.
  cbn [json_plain]. induction l as [|x l IH]; cbn [fold_right].
  - split; auto.
  - rewrite IH. split.
    + intros [Hx Hl]. now constructor.
    + intros H. now inversion H.
Qed.

Lemma json_plain_dict (m : list (pystr * pyval)) :
  json_plain (VDict m) <->
  NoDup (map fst m) /\
  Forall (fun kv => text_ok (fst kv) /\ json_plain (snd kv)) m.
Proof.
  cbn [json_plain].
  assert (H : fold_right
                (fun kv rest => text_ok (fst kv) /\ json_plain (snd kv) /\ rest)
                True m
              <-> Forall (fun kv => text_ok (fst kv) /\ json_plain (snd kv)) m).
  { induction m as [|kv m IH]; cbn [fold_right].
    - split; auto.
    - rewrite IH. split.
      + intros (Hk & Hx & Hm). now constructor.
      + intros H. inversion H; tauto. }
  now rewrite H.
Qed.

Theorem scan_once_json_dumps (v : pyval) : json_plain v -> scans_back ft v.
Proof.
  induction v as [| b | n | f | s | l IH | m IH] using pyval_ind;
    intros Hv fuel rest Hrest Hfuel.
  - destruct fuel; [cbn in Hfuel; lia|]. reflexivity.
  - destruct fuel; [cbn in Hfuel; lia|]. destruct b; reflexivity.
  - destruct fuel; [lia|]. now apply scan_once_int.
  - contradiction.
  - destruct fuel; [lia|]. now apply scan_once_string.
  - apply json_plain_list in Hv.
    assert (Hback : Forall (scans_back ft) l).
    { clear Hfuel. induction IH as [|x l Hx Hl IHl]; [constructor|].
      inversion Hv; subst. constructor; auto. }
    cbn [json_dumps] in *. cbn [length app] in *.
    rewrite length_app in Hfuel. cbn [length] in Hfuel.
    destruct fuel as [|fuel]; [lia|].
    rewrite <- app_assoc. cbn [app]. rewrite scan_once_array.
    destruct l as [|x l]; [reflexivity|].
    assert (Hhead : exists c t,
               join_items (map (json_dumps ft) (x :: l)) = c :: t /\
               is_whitespace c = false /\ c <> chr "]").
    { inversion Hv; subst.
      destruct (json_dumps_head ft x H1) as (c & t & Hd & Hc & Hb & _).
      cbn [map]. destruct (map (json_dumps ft) l) as [|z zs].
      - cbn [join_items]. eauto.
      - rewrite join_items_cons, Hd. cbn [app]. eauto. }
    destruct Hhead as (c & t & Hj & Hc & Hb).
    pose proof (scan_items_back (x :: l) ltac:(discriminate) Hv Hback fuel rest
                  ltac:(lia)) as Hitems.
    rewrite Hj in *. cbn [app] in *.
    rewrite skip_whitespace_head by exact Hc.
    rewrite (proj2 (N.eqb_neq c (chr "]")) Hb).
    now rewrite Hitems.
  - apply json_plain_dict in Hv as (Hnd & Hv).
    assert (Hback : Forall (fun kv => scans_back ft (snd kv)) m).
    { clear Hfuel Hnd. induction IH as [|x l Hx Hl IHl]; [constructor|].
      inversion Hv as [|? ? (_ & Hp) ?]; subst. constructor; auto. }
    cbn [json_dumps] in *.
    change (map (fun kv => encode_basestring_ascii (fst kv) ++ py ": "
                           ++ json_dumps ft (snd kv)) m)
      with (map (member_text ft) m) in *.
    cbn [length app] in *.
    rewrite length_app in Hfuel. cbn [length] in Hfuel.
    destruct fuel as [|fuel]; [lia|].
    rewrite <- app_assoc. cbn [app]. rewrite scan_once_object.
    destruct m as [|[k x] m]; [reflexivity|].
    pose proof (scan_members_back ((k, x) :: m) ltac:(discriminate) Hv Hback
                  fuel rest ltac:(lia)) as Hmembers.
    assert (Hhead : exists t,
               join_items (map (member_text ft) ((k, x) :: m)) = QUOTE :: t).
    { cbn [map]. destruct (map (member_text ft) m) as [|z zs].
      - cbn [join_items]. unfold member_text, encode_basestring_ascii.
        cbn [app]. eauto.
      - rewrite join_items_cons. unfold member_text, encode_basestring_ascii.
        cbn [app]. eauto. }
    destruct Hhead as (t & Hj). rewrite Hj in *. cbn [app] in *.
    change (skip_whitespace (QUOTE :: ?u)) with (QUOTE :: u).
    change (QUOTE =? chr "}") with false. cbv iota.
    rewrite Hmembers. cbn [scan_map].
    now rewrite dict_of_pairs_distinct.
Qed.

(** Decoding the text printed for a value gives the value back. *)
Theorem json_loads_dumps (v : pyval) :
  json_plain v -> json_loads (json_dumps ft v) = Some v.
Proof.
  intros Hv. unfold json_loads.
  pose proof (skip_whitespace_dumps v [] Hv) as Hskip.
  rewrite app_nil_r in Hskip. rewrite Hskip.
  pose proof (scan_once_json_dumps v Hv
                (2 * length (json_dumps ft v) + 1)%nat []
                I ltac:(lia)) as Hscan.
  rewrite app_nil_r in Hscan. now rewrite Hscan.
Qed.

End RoundTrip.

(** ** The encoder's output is ASCII, which UTF-8 leaves as it is *)

Lemma ascii_text_app (a b : pystr) :
  ascii_text a -> ascii_text b -> ascii_text (a ++ b).
Proof. intros Ha Hb. apply Forall_app. auto. Qed.

Lemma ascii_text_uint (u : Decimal.uint) : ascii_text (uint_text u).
Proof.
  induction u; cbn [uint_text]; constructor; auto; reflexivity.
Qed.

Lemma ascii_text_int (n : Z) : ascii_text (int_text n).
Proof.
  unfold int_text. destruct (Z.to_int n).
  - apply ascii_text_uint.
  - constructor; [reflexivity | apply ascii_text_uint].
Qed.

Lemma hex_digit_ascii (n : N) : n < 16 -> hex_digit n < 128.
Proof. intros H. unfold hex_digit. destruct (n <? 10); lia. Qed.

Lemma ascii_text_u_escape (c : N) : ascii_text (u_escape c).
Proof.
  unfold u_escape.
  repeat (constructor;
          [first [reflexivity
                 | apply hex_digit_ascii, N.mod_upper_bound; discriminate]|]).
  constructor.
Qed.

Lemma ascii_text_escape_char (c : N) : ascii_text (escape_char c).
Proof.
  unfold escape_char.
  repeat match goal with
         | |- context [if ?a =? ?b then _ else _] =>
             destruct (a =? b);
             [repeat constructor; reflexivity|]
         end.
  destruct ((32 <=? c) && (c <=? 126)) eqn:Hp.
  - apply andb_true_iff in Hp as (_ & H). apply N.leb_le in H.
    constructor; [lia | constructor].
  - destruct (c <? 0x10000).
    + apply ascii_text_u_escape.
    + apply ascii_text_app; apply ascii_text_u_escape.
Qed.

Lemma ascii_text_string (s : pystr) : ascii_text (encode_basestring_ascii s).
Proof.
  unfold encode_basestring_ascii.
  constructor; [reflexivity|]. apply ascii_text_app.
  - induction s as [|c s IH]; cbn [flat_map]; [constructor|].
    apply ascii_text_app; [apply ascii_text_escape_char | exact IH].
  - constructor; [reflexivity | constructor].
Qed.

Lemma ascii_text_join (items : list pystr) :
  Forall ascii_text items -> ascii_text (join_items items).
Proof.
  induction 1 as [|x items Hx Hitems IH]; [constructor|].
  destruct items as [|y items]; [exact Hx|].
  change (join_items (x :: y :: items))
    with (x ++ 44 :: 32 :: join_items (y :: items)).
  apply ascii_text_app; [exact Hx|].
  constructor; [reflexivity|]. constructor; [reflexivity | exact IH].
Qed.

Lemma ascii_text_json_dumps (ft : float_lit -> string) (v : pyval) :
  json_plain v -> ascii_text (json_dumps ft v).
Proof.
  induction v as [| b | n | f | s | l IH | m IH] using pyval_ind; intros Hv.
  - repeat constructor.
  - destruct b; repeat constructor.
  - apply ascii_text_int.
  - contradiction.
  - apply ascii_text_string.
  - apply json_plain_list in Hv. cbn [json_dumps].
    constructor; [reflexivity|]. apply ascii_text_app.
    + apply ascii_text_join. apply Forall_map.
      induction IH as [|x l Hx Hl IHl]; [constructor|].
      inversion Hv; subst. constructor; auto.
    + constructor; [reflexivity | constructor].
  - apply json_plain_dict in Hv as (_ & Hv). cbn [json_dumps].
    constructor; [reflexivity|]. apply ascii_text_app.
    + apply ascii_text_join. apply Forall_map.
      induction IH as [|kv m Hx Hm IHm]; [constructor|].
      inversion Hv as [|? ? (_ & Hp) ?]; subst. constructor; auto.
      apply ascii_text_app; [apply ascii_text_string|].
      apply ascii_text_app; [repeat constructor | auto].
    + constructor; [reflexivity | constructor].
Qed.

Lemma utf8_encode_ascii (s : pystr) :
  ascii_text s -> utf8_encode s = Some (map byte_of_N s).
Proof.
  induction 1 as [|c s Hc Hs IH]; [reflexivity|].
  cbn [utf8_encode map]. rewrite IH. unfold utf8_encode_char.
  replace (c <? 128) with true by (symmetry; now apply N.ltb_lt).
  reflexivity.
Qed.

Lemma utf8_decode_ascii (s : pystr) :
  ascii_text s -> utf8_decode (map byte_of_N s) = Some s.
Proof.
  induction 1 as [|c s Hc Hs IH]; [reflexivity|].
  cbn [utf8_decode map]. rewrite byte_of_N_to_N, IH.
  rewrite N.mod_small by lia.
  replace (c <? 128) with true by (symmetry; now apply N.ltb_lt).
  reflexivity.
Qed.



(* ------------------------------------------------------------------ *)
(** * The scanner never runs out of fuel *)

Lemma skip_whitespace_length (s : pystr) :
  (length (skip_whitespace s) <= length s)%nat.
Proof.
  induction s as [|c s IH]; cbn [skip_whitespace]; [lia|].
  destruct (is_whitespace c); cbn [length]; lia.
Qed.

Lemma scan_digits_length (s : pystr) :
  (length (snd (scan_digits s)) <= length s)%nat.
Proof.
  induction s as [|c s IH]; cbn [scan_digits]; [cbn; lia|].
  destruct (digit_of c) as [d|]; [|cbn; lia].
  destruct (scan_digits s) as [u rest]. cbn [snd length] in *. lia.
Qed.

Lemma scan_fraction_length (s : pystr) :
  (length (snd (scan_fraction s)) <= length s)%nat.
Proof.
  destruct s as [|dot [|d s]]; cbn [scan_fraction snd]; try lia.
  destruct ((dot =? chr ".") && is_digit d); [|cbn; lia].
  pose proof (scan_digits_length (d :: s)) as H.
  destruct (scan_digits (d :: s)) as [f rest]. cbn [snd length] in *. lia.
Qed.

Lemma scan_exponent_length (s : pystr) :
  (length (snd (scan_exponent s)) <= length s)%nat.
Proof.
  destruct s as [|e s1]; cbn [scan_exponent snd]; [lia|].
  destruct ((e =? chr "e") || (e =? chr "E")); [|cbn; lia].
  assert (Hsign : forall p : bool * pystr,
             p = match s1 with
                 | sg :: s2 =>
                     if sg =? chr "-" then (true, s2)
                     else if sg =? chr "+" then (false, s2)
                     else (false, s1)
                 | [] => (false, s1)
                 end ->
             (length (snd p) <= length s1)%nat).
  { intros p ->. destruct s1 as [|sg s2]; [cbn; lia|].
    destruct (sg =? chr "-"); [cbn; lia|].
    destruct (sg =? chr "+"); cbn; lia. }
  specialize (Hsign _ eq_refl).
  destruct (match s1 with [] => _ | _ :: _ => _ end) as [negative s2].
  cbn [snd] in Hsign.
  pose proof (scan_digits_length s2) as H.
  destruct (scan_digits s2) as [u rest]. cbn [snd] in H.
  destruct u; cbn [snd length]; lia.
Qed.

Lemma scan_integer_shorter (s : pystr) (u : Decimal.uint) (rest : pystr) :
  scan_integer s = Some (u, rest) -> (length rest < length s)%nat.
Proof.
  destruct s as [|c s]; cbn [scan_integer]; [discriminate|].
  destruct (c =? chr "0").
  - intros H. injection H as _ <-. cbn. lia.
  - destruct (is_digit c) eqn:Hd; [|discriminate].
    cbn [scan_digits].
    destruct (digit_of c) as [d|] eqn:Hdigit.
    + pose proof (scan_digits_length s) as H.
      destruct (scan_digits s) as [u' rest']. cbn [snd] in H.
      intros E. injection E as _ <-. cbn. lia.
    + exfalso. apply is_digit_cases in Hd.
      repeat (destruct Hd as [-> | Hd]; [discriminate Hdigit|]).
      subst c. discriminate Hdigit.
Qed.

Lemma match_number_shorter (s : pystr) (v : pyval) (rest : pystr) :
  match_number s = Scanned v rest -> (length rest < length s)%nat.
Proof.
  unfold match_number.
  assert (Hsign : (length (snd (scan_sign s)) <= length s)%nat).
  { destruct s as [|c s]; cbn [scan_sign]; [cbn; lia|].
    destruct (c =? chr "-"); cbn; lia. }
  destruct (scan_sign s) as [negative s1]. cbn [snd] in Hsign.
  destruct (scan_integer s1) as [[u s2]|] eqn:Hint; [|discriminate].
  apply scan_integer_shorter in Hint.
  pose proof (scan_fraction_length s2) as Hf.
  destruct (scan_fraction s2) as [frac s3]. cbn [snd] in Hf.
  pose proof (scan_exponent_length s3) as He.
  destruct (scan_exponent s3) as [exp s4]. cbn [snd] in He.
  destruct frac, exp; intros H; injection H as _ <-; lia.
Qed.

Lemma match_number_not_exhausted (s : pystr) : match_number s <> Exhausted.
Proof.
  unfold match_number.
  destruct (scan_sign s) as [negative s1].
  destruct (scan_integer s1) as [[u s2]|]; [|discriminate].
  destruct (scan_fraction s2) as [frac s3].
  destruct (scan_exponent s3) as [exp s4].
  destruct frac, exp; discriminate.
Qed.

Lemma strip_prefix_length (word s rest : pystr) :
  strip_prefix word s = Some rest ->
  (length rest + length word = length s)%nat.
Proof.
  revert s. induction word as [|w word IH]; intros s; cbn [strip_prefix].
  - intros H. injection H as <-. cbn. lia.
  - destruct s as [|c s]; [discriminate|].
    destruct (w =? c); [|discriminate].
    intros H. apply IH in H. cbn. lia.
Qed.

Lemma constant_shorter (word : string) (value : pyval) (s : pystr)
    (r : scan pyval) :
  word <> ""%string ->
  constant word value s = Some r ->
  r <> Exhausted /\
  forall v rest, r = Scanned v rest -> (length rest < length s)%nat.
Proof.
  intros Hword. unfold constant.
  destruct (strip_prefix (py word) s) as [rest|] eqn:Hs; [|discriminate].
  intros H. injection H as <-. split; [discriminate|].
  intros v rest' H. injection H as _ <-.
  apply strip_prefix_length in Hs.
  destruct word; [congruence|]. cbn in Hs. lia.
Qed.

Lemma scan_atom_outcome (s : pystr) :
  scan_atom s <> Exhausted /\
  forall v rest, scan_atom s = Scanned v rest -> (length rest < length s)%nat.
Proof.
  unfold scan_atom.
  assert (Hnum : match_number s <> Exhausted /\
                 forall v rest,
                   match_number s = Scanned v rest ->
                   (length rest < length s)%nat)
    by (split; [apply match_number_not_exhausted
               | apply match_number_shorter]).
  destruct s as [|c s']; [exact Hnum|].
  repeat match goal with
         | |- context [if ?a =? ?b then _ else _] => destruct (a =? b)
         end;
    try exact Hnum;
    match goal with
    | |- context [constant ?w ?x ?t] =>
        destruct (constant w x t) as [r|] eqn:Hc;
        [apply (constant_shorter w x t r) in Hc; [exact Hc | discriminate]
        | exact Hnum]
    end.
Qed.

Lemma push_shorter (c : N) (o : option (pystr * pystr)) (n : nat) :
  (forall x r, o = Some (x, r) -> (length r < n)%nat) ->
  forall x r, push c o = Some (x, r) -> (length r < n)%nat.
Proof.
  intros H x r. destruct o as [[x' r']|]; [|discriminate].
  cbn. intros E. injection E as _ <-. eauto.
Qed.

Lemma scanstring_shorter (s x rest : pystr) :
  scanstring s = Some (x, rest) -> (length rest < length s)%nat.
Proof.
  remember (length s) as n eqn:Hn.
  revert s x rest Hn.
  induction n as [n IH] using lt_wf_ind. intros s x rest ->.
  assert (Hrec : forall (c : N) (t : pystr) y r,
             (length t < length s)%nat ->
             push c (scanstring t) = Some (y, r) ->
             (length r < length s)%nat).
  { intros c t y r Hlt. apply push_shorter. intros y' r' H.
    specialize (IH _ Hlt t y' r' eq_refl H). lia. }
  destruct s as [|c s1]; [discriminate|]. cbn [scanstring].
  destruct (c =? QUOTE).
  { intros H. injection H as _ <-. cbn. lia. }
  destruct (c =? BACKSLASH).
  2:{ destruct (c <=? 31); [discriminate|]. apply Hrec. cbn. lia. }
  destruct s1 as [|e s2]; [discriminate|].
  destruct (e =? chr "u").
  2:{ destruct (simple_escape e); [|discriminate]. apply Hrec. cbn. lia. }
  destruct s2 as [|h1 [|h2 [|h3 [|h4 s3]]]]; try discriminate.
  destruct (hex4_value h1 h2 h3 h4) as [u|]; [|discriminate].
  assert (Hs3 : forall y r,
             push u (scanstring s3) = Some (y, r) ->
             (length r < length (c :: e :: h1 :: h2 :: h3 :: h4 :: s3))%nat)
    by (intros y r; apply Hrec; cbn; lia).
  destruct (is_high_surrogate u); [|apply Hs3].
  destruct s3 as [|b [|u' [|k1 [|k2 [|k3 [|k4 s4]]]]]]; try apply Hs3.
  destruct ((b =? BACKSLASH) && (u' =? chr "u")); [|apply Hs3].
  destruct (hex4_value k1 k2 k3 k4) as [u2|]; [|discriminate].
  destruct (is_low_surrogate u2); [|apply Hs3].
  apply Hrec. cbn. lia.
Qed.

Lemma scan_map_scanned {A B} (f : A -> B) (r : scan A) (b : B) (rest : pystr) :
  scan_map f r = Scanned b rest -> exists a, r = Scanned a rest.
Proof.
  destruct r as [a rest'| |]; cbn; try discriminate.
  intros H. injection H as _ <-. eauto.
Qed.

Lemma scan_map_exhausted {A B} (f : A -> B) (r : scan A) :
  scan_map f r = Exhausted -> r = Exhausted.
Proof. destruct r; cbn; congruence. Qed.

(** Every scanner consumes at least one character. *)
Lemma scan_shorter (fuel : nat) :
  (forall s v rest,
     scan_once fuel s = Scanned v rest -> (length rest < length s)%nat) /\
  (forall s l rest,
     scan_items fuel s = Scanned l rest -> (length rest < length s)%nat) /\
  (forall s m rest,
     scan_members fuel s = Scanned m rest -> (length rest < length s)%nat).
Proof.
  induction fuel as [|fuel (IHonce & IHitems & IHmembers)];
    [repeat split; intros; discriminate|].
  split; [|split].
  - intros [|c s1] v rest; [discriminate|]. cbn [scan_once].
    destruct (c =? QUOTE).
    { destruct (scanstring s1) as [[x r]|] eqn:Hs; [|discriminate].
      cbn. intros H. injection H as _ <-.
      apply scanstring_shorter in Hs. cbn. lia. }
    pose proof (skip_whitespace_length s1) as Hws.
    destruct (c =? chr "{").
    { destruct (skip_whitespace s1) as [|c2 s2]; [discriminate|].
      cbn [length] in Hws.
      destruct (c2 =? chr "}").
      - intros H. injection H as _ <-. cbn. lia.
      - intros H. apply scan_map_scanned in H as (ps & H).
        apply IHmembers in H. cbn [length] in *. lia. }
    destruct (c =? chr "[").
    { destruct (skip_whitespace s1) as [|c2 s2]; [discriminate|].
      cbn [length] in Hws.
      destruct (c2 =? chr "]").
      - intros H. injection H as _ <-. cbn. lia.
      - intros H. apply scan_map_scanned in H as (ps & H).
        apply IHitems in H. cbn [length] in *. lia. }
    apply scan_atom_outcome.
  - intros s l rest. rewrite scan_items_step.
    destruct (scan_once fuel s) as [v r| |] eqn:Hv; try discriminate.
    apply IHonce in Hv.
    pose proof (skip_whitespace_length r) as Hws.
    destruct (skip_whitespace r) as [|c r1]; [discriminate|].
    cbn [length] in Hws.
    destruct (c =? chr "]").
    { intros H. injection H as _ <-. lia. }
    destruct (c =? chr ","); [|discriminate].
    intros H. apply scan_map_scanned in H as (l' & H).
    apply IHitems in H.
    pose proof (skip_whitespace_length r1). lia.
  - intros [|q s1] m rest; [discriminate|]. cbn [scan_members].
    destruct (q =? QUOTE); [|discriminate].
    destruct (scanstring s1) as [[key r]|] eqn:Hk; [|discriminate].
    apply scanstring_shorter in Hk.
    pose proof (skip_whitespace_length r) as Hws.
    destruct (skip_whitespace r) as [|colon r1]; [discriminate|].
    cbn [length] in Hws.
    destruct (colon =? chr ":"); [|discriminate].
    pose proof (skip_whitespace_length r1) as Hws1.
    destruct (scan_once fuel (skip_whitespace r1)) as [v r2| |] eqn:Hv;
      try discriminate.
    apply IHonce in Hv.
    pose proof (skip_whitespace_length r2) as Hws2.
    destruct (skip_whitespace r2) as [|c r3]; [discriminate|].
    cbn [length] in Hws2.
    destruct (c =? chr "}").
    { intros H. injection H as _ <-. cbn [length]. lia. }
    destruct (c =? chr ","); [|discriminate].
    intros H. apply scan_map_scanned in H as (m' & H).
    apply IHmembers in H.
    pose proof (skip_whitespace_length r3). cbn [length]. lia.
Qed.

(** With more than twice the length of the text as fuel, no scanner stops
    for lack of fuel. *)
Lemma scan_fuel_enough (fuel : nat) :
  (forall s, (2 * length s < fuel)%nat -> scan_once fuel s <> Exhausted) /\
  (forall s, (2 * length s + 1 < fuel)%nat -> scan_items fuel s <> Exhausted) /\
  (forall s, (2 * length s + 1 < fuel)%nat -> scan_members fuel s <> Exhausted).
Proof.
  induction fuel as [|fuel (IHonce & IHitems & IHmembers)];
    [repeat split; intros; lia|].
  destruct (scan_shorter fuel) as (Sonce & Sitems & Smembers).
  split; [|split].
  - intros [|c s1] Hfuel; [discriminate|]. cbn [scan_once].
    cbn [length] in Hfuel.
    destruct (c =? QUOTE).
    { destruct (scanstring s1) as [[x r]|]; discriminate. }
    pose proof (skip_whitespace_length s1) as Hws.
    destruct (c =? chr "{").
    { destruct (skip_whitespace s1) as [|c2 s2]; [discriminate|].
      destruct (c2 =? chr "}"); [discriminate|].
      intros H. apply scan_map_exhausted in H. revert H.
      apply IHmembers. lia. }
    destruct (c =? chr "[").
    { destruct (skip_whitespace s1) as [|c2 s2]; [discriminate|].
      destruct (c2 =? chr "]"); [discriminate|].
      intros H. apply scan_map_exhausted in H. revert H.
      apply IHitems. lia. }
    apply scan_atom_outcome.
  - intros s Hfuel. rewrite scan_items_step.
    pose proof (IHonce s ltac:(lia)) as Hne.
    destruct (scan_once fuel s) as [v r| |] eqn:Hv;
      [|discriminate|congruence].
    apply Sonce in Hv.
    pose proof (skip_whitespace_length r) as Hws.
    destruct (skip_whitespace r) as [|c r1]; [discriminate|].
    cbn [length] in Hws.
    destruct (c =? chr "]"); [discriminate|].
    destruct (c =? chr ","); [|discriminate].
    intros H. apply scan_map_exhausted in H. revert H.
    apply IHitems. pose proof (skip_whitespace_length r1). lia.
  - intros [|q s1] Hfuel; [discriminate|]. cbn [scan_members].
    cbn [length] in Hfuel.
    destruct (q =? QUOTE); [|discriminate].
    destruct (scanstring s1) as [[key r]|] eqn:Hk; [|discriminate].
    apply scanstring_shorter in Hk.
    pose proof (skip_whitespace_length r) as Hws.
    destruct (skip_whitespace r) as [|colon r1]; [discriminate|].
    cbn [length] in Hws.
    destruct (colon =? chr ":"); [|discriminate].
    pose proof (skip_whitespace_length r1) as Hws1.
    pose proof (IHonce (skip_whitespace r1) ltac:(lia)) as Hne.
    destruct (scan_once fuel (skip_whitespace r1)) as [v r2| |] eqn:Hv;
      [|discriminate|congruence].
    apply Sonce in Hv.
    pose proof (skip_whitespace_length r2) as Hws2.
    destruct (skip_whitespace r2) as [|c r3]; [discriminate|].
    cbn [length] in Hws2.
    destruct (c =? chr "}"); [discriminate|].
    destruct (c =? chr ","); [|discriminate].
    intros H. apply scan_map_exhausted in H. revert H.
    apply IHmembers. pose proof (skip_whitespace_length r3). lia.
Qed.

(** [json_loads] gives its scanner enough fuel: a [None] is a rejection of
    the text, never a scan cut short. *)
Theorem json_loads_fuel (s : pystr) :
  scan_once (2 * length s + 1) (skip_whitespace s) <> Exhausted.
Proof.
  apply (scan_fuel_enough (2 * length s + 1)).
  pose proof (skip_whitespace_length s). lia.
Qed.

(* ------------------------------------------------------------------ *)
(** * The claims *)

(** [C1], as stated, fails: the empty object is a successfully decoded
    message, yet the loop stops at it, writes nothing, and leaves the ping
    that follows unread and unanswered. *)
Lemma C1_counterexample :
  read_message (initial (frame "{}" ++ ping_frame))
  = (Return (VDict []), initial ping_frame) /\
  iteration sample_env (initial (frame "{}" ++ ping_frame))
  = (Return Break, initial ping_frame) /\
  main sample_env (initial (frame "{}" ++ ping_frame))
  = (Exited,
     {| stdin := ping_frame; stdout_buffer := []; stdout := [];
        launches := []; log := [InfoStarted; InfoExiting] |}).
Proof. repeat split; vm_compute; reflexivity. Qed.

(** [C1], amended: the loop is left only after a read that gave a falsy
    value.  At the end of the stream (no byte left) the read gives [None]
    and the pass leaves the loop at once, with nothing consumed, written or
    logged; whenever a pass leaves the loop, nothing was emitted by it.
    For every decoded message that is truthy the pass stays in the loop
    with the input at the next frame, delivers at most one frame, and
    delivers one when the pipe is open and error responses fit the header.
    The process ends by leaving the loop, never by an exception. *)
Theorem C1_loop_stops_only_on_falsy (E : env) (w : world) :
  (stdin w = [] -> iteration E w = (Return Break, w)) /\
  (forall w',
     iteration E w = (Return Break, w') ->
     (exists v, read_message w = (Return v, w') /\ truthy v = false) /\
     stdout w' = stdout w /\ stdout_buffer w' = stdout_buffer w /\
     launches w' = launches w) /\
  (forall v w1,
     read_message w = (Return v, w1) ->
     truthy v = true ->
     exists w',
       iteration E w = (Return Continue, w') /\
       stdin w' = stdin w1 /\
       at_most_one_frame E w w' /\
       (pipe_open E (stdout w) = true ->
        (forall e, frame_of E (error_response E e) <> None) ->
        exists response fr,
          frame_of E response = Some fr /\
          stdout w' = stdout w ++ stdout_buffer w ++ fr)) /\
  fst (main E w) = Exited.
Proof.
  destruct (iteration_outcome E w) as (c & w0 & Hit & Hin & Hone & Hbrk & Hw0).
  pose proof (read_message_frame w) as (Hout & Hbuf & Hl & _).
  split; [|split; [|split]].
  - intros Heof. rewrite iteration_cases, (read_message_eof w Heof).
    reflexivity.
  - intros w' H. rewrite Hit in H. injection H as -> <-.
    rewrite (Hw0 eq_refl). split; [|auto].
    destruct (proj1 Hbrk eq_refl) as (v & Hv & Hf).
    exists v. split; [|exact Hf].
    destruct (read_message w) as [r w1]. cbn in *. now subst r.
  - intros v w1 Hread Ht.
    assert (Hc : c = Continue).
    { destruct c; [reflexivity|].
      destruct (proj1 Hbrk eq_refl) as (v' & Hv' & Hf).
      rewrite Hread in Hv'. cbn in Hv'. injection Hv' as <-. congruence. }
    subst c. exists w0. rewrite Hread in Hin. cbn [snd] in Hin.
    split; [exact Hit|]. split; [exact Hin|]. split; [exact Hone|].
    intros Hopen Hfit.
    rewrite Hread in Hout, Hbuf. cbn [snd] in Hout, Hbuf.
    assert (Hw0' : w0 = snd (iteration E w)) by now rewrite Hit.
    rewrite Hw0', iteration_cases, Hread, Ht. cbv zeta.
    set (w2 := add_log w1 (InfoReceived v)).
    assert (Hexc : forall e,
               exists response fr,
                 frame_of E response = Some fr /\
                 stdout (snd (except_block E e w2))
                 = stdout w ++ stdout_buffer w ++ fr).
    { intros e. rewrite <- Hout, <- Hbuf.
      apply (except_block_delivers E e w2); [|exact Hfit].
      cbn. now rewrite Hout. }
    assert (Hresp : forall (r : pyval) (w3 : world),
               stdout w3 = stdout w -> stdout_buffer w3 = stdout_buffer w ->
               exists response fr,
                 frame_of E response = Some fr /\
                 stdout (snd (respond E r w3))
                 = stdout w ++ stdout_buffer w ++ fr).
    { intros r w3 Ho Hb. rewrite <- Ho, <- Hb.
      apply respond_delivers_some; [now rewrite Ho|exact Hfit]. }
    destruct v as [| b | n | f | s | l | m]; try apply Hexc.
    destruct (equals _ "ping"); [now apply Hresp|].
    destruct (equals _ "download");
      [|destruct (equals _ "status"); now apply Hresp].
    destruct (handle_download_returns E (dict_get m (py "url") (VStr []))
                (dict_get m (py "filename") (VStr [])) w2)
      as (success & w3 & Hd & _ & Ho & Hb).
    rewrite Hd. apply Hresp.
    + now rewrite Ho.
    + now rewrite Hb.
  - apply main_exits.
Qed.

(** [C2] A fault raised while a frame is read or decoded is answered with
    the error response built from its description; the write of that
    response is attempted and its outcome dropped, so the pass ends with
    [Continue] whether the write succeeded or raised, and the loop goes on
    with the next read.  The same holds for a fault of any later step of
    the [try] block, so no pass lets a fault out and the process ends only
    by leaving the loop. *)
Theorem C2_fault_contained (E : env) (w w1 : world) (e : fault) :
  read_message w = (Raise e, w1) ->
  let attempt :=
    write_message E
      (VDict [ (py "type", VStr (py "error"));
               (py "message", VStr (fault_text E e)) ])
      (add_log w1 (ErrorProcessing e)) in
  iteration E w = (Return Continue, snd attempt) /\
  stdin (snd attempt) = stdin w1 /\
  (forall passes,
     main_loop E (S passes) w = main_loop E passes (snd attempt)) /\
  (forall (w0 w2 : world) (e0 : fault),
     try_block E w0 = (Raise e0, w2) ->
     iteration E w0 =
     (Return Continue,
      snd (write_message E (error_response E e0)
             (add_log w2 (ErrorProcessing e0))))) /\
  (forall w0, exists c w0', iteration E w0 = (Return c, w0')) /\
  (forall w0, fst (main E w0) = Exited).
Proof.
  intros Hread attempt.
  assert (Hit : iteration E w = (Return Continue, snd attempt)).
  { rewrite (iteration_catches E w w1 e (try_block_read_fault E w w1 e Hread)).
    apply except_block_cases. }
  split; [exact Hit|]. split; [|split; [|split; [|split]]].
  - subst attempt.
    pose proof (write_message_frame E (error_response E e)
                  (add_log w1 (ErrorProcessing e))) as (Hin & _).
    exact Hin.
  - intros passes. cbn [main_loop]. now rewrite Hit.
  - intros w0 w2 e0 H0. rewrite (iteration_catches E w0 w2 e0 H0).
    apply except_block_cases.
  - apply iteration_returns.
  - apply main_exits.
Qed.

(** A frame whose payload is not JSON: the pass answers with the error
    response and leaves the input at the next frame. *)
Lemma C2_fault_contained_witness :
  read_message (initial (frame "{oops" ++ frame "[1]"))
  = (Raise (JSONDecodeError (py "{oops")), initial (frame "[1]")) /\
  iteration sample_env (initial (frame "{oops" ++ frame "[1]"))
  = (Return Continue,
     snd (write_message sample_env
            (VDict [ (py "type", VStr (py "error"));
                     (py "message",
                      VStr (fault_text sample_env
                              (JSONDecodeError (py "{oops")))) ])
            (add_log (initial (frame "[1]"))
               (ErrorProcessing (JSONDecodeError (py "{oops")))))).
Proof.
  assert (H : read_message (initial (frame "{oops" ++ frame "[1]"))
              = (Raise (JSONDecodeError (py "{oops")), initial (frame "[1]")))
    by (vm_compute; reflexivity).
  split; [exact H|].
  exact (proj1 (C2_fault_contained sample_env _ _ _ H)).
Defined.




(** [C4], as stated, fails: the file name of a download request is not
    kept in the response.  The request [download_request], which names
    [file.bin], is answered with the three fields [type], [success] and
    [url], none of which holds the name. *)
Lemma C4_counterexample :
  exists fields w',
    iteration sample_env (initial (send_native_message download_request))
    = (Return Continue, w') /\
    stdout w' = send_native_message (VDict fields) /\
    fields = [ (py "type", VStr (py "download_response"));
               (py "success", VBool false);
               (py "url", VStr (py "https://example.com/file")) ] /\
    ~ In (VStr (py "file.bin")) (map snd fields) /\
    ~ In (py "filename") (map fst fields).
Proof.
  exists [ (py "type", VStr (py "download_response"));
           (py "success", VBool false);
           (py "url", VStr (py "https://example.com/file")) ].
  eexists. split; [vm_compute; reflexivity|].
  split; [vm_compute; reflexivity|]. split; [reflexivity|].
  split; cbn; intuition discriminate.
Qed.

(** [C4], amended: for a message of type [download] the dispatcher takes
    [url] and [filename] with the empty string as default, calls the action
    invoker, whose result depends on the url only (the file name is passed
    and ignored, and is not in the response), and answers with the fields
    [type], [success] and [url], where [success] is the result of the
    invoker and [url] the value taken from the message. *)
Theorem C4_download (E : env) (w w1 : world) (m : list (pystr * pyval)) :
  read_message w = (Return (VDict m), w1) ->
  dict_get m (py "type") (VStr []) = VStr (py "download") ->
  let url := dict_get m (py "url") (VStr []) in
  let filename := dict_get m (py "filename") (VStr []) in
  let w2 := add_log w1 (InfoReceived (VDict m)) in
  exists success w3,
    handle_download E url filename w2 = (Return success, w3) /\
    (forall other, handle_download E url other w2 = (Return success, w3)) /\
    let response :=
      VDict [ (py "type", VStr (py "download_response"));
              (py "success", VBool success);
              (py "url", url) ] in
    iteration E w = respond E response w3 /\
    (forall fr,
       frame_of E response = Some fr ->
       pipe_open E (stdout w) = true ->
       iteration E w =
       (Return Continue,
        add_log (set_stdout w3 [] (stdout w ++ stdout_buffer w ++ fr))
          (InfoSent response))).
Proof.
  intros Hread Ht url filename w2.
  destruct (handle_download_returns E url filename w2)
    as (success & w3 & Hd & _ & Ho & Hb).
  exists success, w3. split; [exact Hd|]. split.
  { intros other. now rewrite (handle_download_ignores_filename E url other filename). }
  intros response.
  assert (Hit : iteration E w = respond E response w3).
  { rewrite iteration_cases, Hread.
    assert (Htruthy : truthy (VDict m) = true).
    { destruct m; [discriminate Ht|reflexivity]. }
    rewrite Htruthy. cbv zeta. rewrite Ht.
    change (equals (VStr (py "download")) "ping") with false.
    change (equals (VStr (py "download")) "download") with true.
    cbv iota. fold url filename w2. now rewrite Hd. }
  split; [exact Hit|].
  intros fr Hfr Hopen. rewrite Hit.
  destruct (read_message_dict_streams w w1 _ Hread) as (Hout & Hbuf).
  cbn [w2 add_log stdout stdout_buffer] in Ho, Hb.
  rewrite (respond_delivers E response w3 fr Hfr)
    by (now rewrite Ho, Hout).
  now rewrite Ho, Hb, Hout, Hbuf.
Qed.

Lemma C4_download_witness :
  exists success w3,
    handle_download installed_env (VStr (py "https://example.com/file"))
      (VStr (py "file.bin"))
      (add_log (initial []) (InfoReceived download_request))
    = (Return success, w3) /\
    success = true /\
    launches w3
    = [[ VStr (py "open"); VStr (py "-a");
         VStr (py "/Applications/SwiftFetch.app");
         VStr (py "https://example.com/file") ]] /\
    iteration installed_env (initial (send_native_message download_request))
    = respond installed_env
        (VDict [ (py "type", VStr (py "download_response"));
                 (py "success", VBool success);
                 (py "url", VStr (py "https://example.com/file")) ])
        w3.
Proof.
  destruct (C4_download installed_env
              (initial (send_native_message download_request)) (initial [])
              [ (py "type", VStr (py "download"));
                (py "url", VStr (py "https://example.com/file"));
                (py "filename", VStr (py "file.bin")) ])
    as (success & w3 & Hd & _ & Hit & _).
  - vm_compute. reflexivity.
  - reflexivity.
  - exists success, w3. split; [exact Hd|].
    assert (Hv : (Return success, w3)
                 = (Return true,
                    add_launch
                      (add_log (initial []) (InfoReceived download_request))
                      (open_command (py "/Applications/SwiftFetch.app")
                         (VStr (py "https://example.com/file"))))).
    { rewrite <- Hd. vm_compute. reflexivity. }
    injection Hv as -> ->.
    split; [reflexivity|]. split; [reflexivity|]. exact Hit.
Defined.

(** [C5] A message whose [type] is a string other than [ping], [download]
    and [status] (the empty string included, which is also what a missing
    [type] defaults to) is answered with the error response whose message
    is ["Unknown message type: "] followed by that string; with the pipe
    open and a response that fits the header, exactly its frame is
    delivered. *)
Theorem C5_unknown_type (E : env) (w w1 : world)
    (m : list (pystr * pyval)) (t : pystr) :
  read_message w = (Return (VDict m), w1) ->
  m <> [] ->
  dict_get m (py "type") (VStr []) = VStr t ->
  t <> py "ping" -> t <> py "download" -> t <> py "status" ->
  let response :=
    VDict [ (py "type", VStr (py "error"));
            (py "message", VStr (py "Unknown message type: " ++ t)) ] in
  let w2 := add_log w1 (InfoReceived (VDict m)) in
  iteration E w = respond E response w2 /\
  (forall fr,
     frame_of E response = Some fr ->
     pipe_open E (stdout w) = true ->
     iteration E w =
     (Return Continue,
      add_log (set_stdout w2 [] (stdout w ++ stdout_buffer w ++ fr))
        (InfoSent response))).
Proof.
  intros Hread Hm Ht Hping Hdl Hst response w2.
  assert (Hit : iteration E w = respond E response w2).
  { rewrite iteration_cases, Hread.
    assert (Htruthy : truthy (VDict m) = true) by (destruct m; easy).
    rewrite Htruthy. cbv zeta. rewrite Ht.
    now rewrite !equals_false by assumption. }
  split; [exact Hit|].
  intros fr Hfr Hopen. rewrite Hit.
  destruct (read_message_dict_streams w w1 _ Hread) as (Hout & Hbuf).
  rewrite (respond_delivers E response w2 fr Hfr)
    by (cbn; now rewrite Hout).
  cbn [w2 add_log stdout stdout_buffer]. now rewrite Hout, Hbuf.
Qed.

Lemma C5_unknown_type_witness :
  iteration sample_env
    (initial (send_native_message (VDict [(py "type", VStr (py "upload"))])))
  = respond sample_env
      (VDict [ (py "type", VStr (py "error"));
               (py "message",
                VStr (py "Unknown message type: " ++ py "upload")) ])
      (add_log (initial [])
         (InfoReceived (VDict [(py "type", VStr (py "upload"))]))).
Proof.
  refine (proj1 (C5_unknown_type sample_env
                   (initial (send_native_message
                               (VDict [(py "type", VStr (py "upload"))])))
                   (initial []) [(py "type", VStr (py "upload"))] (py "upload")
                   _ _ _ _ _ _)).
  - vm_compute. reflexivity.
  - discriminate.
  - reflexivity.
  - discriminate.
  - discriminate.
  - discriminate.
Defined.

(** [C6] The action invoker always returns a boolean and never raises: with
    no candidate path present it returns [False] at once and leaves the
    world untouched (no launch, no log record); otherwise it launches the
    first candidate that exists, once, with the url, and returns whether
    the launch command succeeded. *)
Theorem C6_launch_never_raises (E : env) (url filename : pyval) (w : world) :
  (exists success w', handle_download E url filename w = (Return success, w')) /\
  (Forall (fun p => path_exists E p = false) app_paths ->
   handle_download E url filename w = (Return false, w)) /\
  (forall before p after,
     app_paths = before ++ p :: after ->
     Forall (fun q => path_exists E q = false) before ->
     path_exists E p = true ->
     exists w',
       handle_download E url filename w =
       (Return (match subprocess_run E (open_command p url) with
                | None => true
                | Some _ => false
                end), w') /\
       launches w' = launches w ++ [open_command p url]).
Proof.
  split; [|split].
  - destruct (handle_download_returns E url filename w) as (s & w' & H & _).
    eauto.
  - intros Hnone. rewrite handle_download_cases.
    apply find_none in Hnone. now rewrite Hnone.
  - intros before p after Hsplit Hbefore Hp.
    rewrite handle_download_cases.
    assert (Hfind : find (path_exists E) app_paths = Some p)
      by (apply find_first; eauto).
    rewrite Hfind. cbv zeta.
    destruct (subprocess_run E (open_command p url));
      eexists; (split; [reflexivity|]); reflexivity.
Qed.




(** [C8] A frame is the payload length as four bytes, least significant
    first, then exactly that many payload bytes, the UTF-8 JSON text, and
    nothing else.  A successful write hands header and payload to the
    reader, in this order, and leaves nothing in the buffer; reading a frame
    takes the four bytes and the payload, and stops there. *)
Theorem C8_frame_layout (E : env) (message : pyval) (w w' : world) :
  write_message E message w = (Return tt, w') ->
  exists payload b0 b1 b2 b3,
    utf8_encode (json_dumps (float_text E) message) = Some payload /\
    N.of_nat (length payload) < 2 ^ 32 /\
    Byte.to_N b0 = N.of_nat (length payload) mod 2 ^ 8 /\
    Byte.to_N b1 = (N.of_nat (length payload) / 2 ^ 8) mod 2 ^ 8 /\
    Byte.to_N b2 = (N.of_nat (length payload) / 2 ^ 16) mod 2 ^ 8 /\
    Byte.to_N b3 = (N.of_nat (length payload) / 2 ^ 24) mod 2 ^ 8 /\
    stdout w' = stdout w ++ stdout_buffer w ++ [b0; b1; b2; b3] ++ payload /\
    stdout_buffer w' = [] /\
    forall (w0 : world) (rest : bytes),
      read_message (set_stdin w0 ([b0; b1; b2; b3] ++ payload ++ rest)) =
      (decode_payload payload, set_stdin w0 rest).
Proof.
  intros Hw. apply write_message_success in Hw as (fr & Hfr & _ & ->).
  unfold frame_of in Hfr.
  destruct (utf8_encode _) as [payload|]; [|discriminate].
  destruct (struct_pack_I _) as [header|] eqn:Hpack; [|discriminate].
  injection Hfr as <-.
  pose proof (struct_unpack_pack _ _ Hpack) as Hunpack.
  apply struct_pack_I_little_endian in Hpack
    as (Hlt & b0 & b1 & b2 & b3 & -> & H0 & H1 & H2 & H3).
  exists payload, b0, b1, b2, b3.
  repeat (split; [assumption || reflexivity|]).
  intros w0 rest.
  now apply read_message_whole_frame with (n := N.of_nat (length payload)).
Qed.

Lemma C8_frame_layout_witness :
  exists payload b0 b1 b2 b3,
    utf8_encode (json_dumps (float_text sample_env) status_response)
    = Some payload /\
    N.of_nat (length payload) < 2 ^ 32 /\
    Byte.to_N b0 = N.of_nat (length payload) mod 2 ^ 8 /\
    Byte.to_N b1 = (N.of_nat (length payload) / 2 ^ 8) mod 2 ^ 8 /\
    Byte.to_N b2 = (N.of_nat (length payload) / 2 ^ 16) mod 2 ^ 8 /\
    Byte.to_N b3 = (N.of_nat (length payload) / 2 ^ 24) mod 2 ^ 8 /\
    stdout (snd (write_message sample_env status_response (initial [])))
    = [] ++ [] ++ [b0; b1; b2; b3] ++ payload /\
    stdout_buffer (snd (write_message sample_env status_response (initial [])))
    = [] /\
    forall (w0 : world) (rest : bytes),
      read_message (set_stdin w0 ([b0; b1; b2; b3] ++ payload ++ rest)) =
      (decode_payload payload, set_stdin w0 rest).
Proof.
  apply (C8_frame_layout sample_env status_response (initial [])
           (snd (write_message sample_env status_response (initial [])))).
  vm_compute. reflexivity.
Defined.


(** [C10] A decoded message that is truthy but not an object (a non-empty
    array or string, a non-zero number, [true]) does not stop the host: the
    [AttributeError] of [message.get] is caught, the error response built
    from its description is written with the outcome of the write dropped,
    and the loop goes on with the next frame. *)
Theorem C10_non_object_message (E : env) (w w1 : world) (v : pyval) :
  read_message w = (Return v, w1) ->
  truthy v = true ->
  (forall m, v <> VDict m) ->
  let w2 :=
    add_log (add_log w1 (InfoReceived v)) (ErrorProcessing (AttributeError v)) in
  let attempt :=
    write_message E
      (VDict [ (py "type", VStr (py "error"));
               (py "message", VStr (fault_text E (AttributeError v))) ])
      w2 in
  iteration E w = (Return Continue, snd attempt) /\
  stdin (snd attempt) = stdin w1 /\
  (forall passes,
     main_loop E (S passes) w = main_loop E passes (snd attempt)) /\
  (forall fr,
     frame_of E (error_response E (AttributeError v)) = Some fr ->
     pipe_open E (stdout w) = true ->
     stdout (snd attempt) = stdout w ++ stdout_buffer w ++ fr).
Proof.
  intros Hread Ht Hnd w2 attempt.
  assert (Hit : iteration E w = (Return Continue, snd attempt)).
  { rewrite iteration_cases, Hread, Ht. cbv zeta.
    destruct v; try apply except_block_cases.
    now destruct (Hnd m). }
  pose proof (read_message_frame w) as (Hout & Hbuf & _).
  rewrite Hread in Hout, Hbuf. cbn [snd] in Hout, Hbuf.
  split; [exact Hit|]. split; [|split].
  - pose proof (write_message_frame E (error_response E (AttributeError v)) w2)
      as (Hin & _).
    exact Hin.
  - intros passes. cbn [main_loop]. now rewrite Hit.
  - intros fr Hfr Hopen. subst attempt.
    change (VDict _) with (error_response E (AttributeError v)).
    rewrite (write_message_delivers E _ w2 fr Hfr)
      by (cbn; now rewrite Hout).
    cbn. now rewrite Hout, Hbuf.
Qed.

Lemma C10_non_object_message_witness :
  iteration sample_env (initial (frame "[1]" ++ frame "7"))
  = (Return Continue,
     snd (write_message sample_env
            (VDict [ (py "type", VStr (py "error"));
                     (py "message",
                      VStr (fault_text sample_env
                              (AttributeError (VList [VInt 1])))) ])
            (add_log
               (add_log (initial (frame "7")) (InfoReceived (VList [VInt 1])))
               (ErrorProcessing (AttributeError (VList [VInt 1])))))).
Proof.
  refine (proj1 (C10_non_object_message sample_env
                   (initial (frame "[1]" ++ frame "7")) (initial (frame "7"))
                   (VList [VInt 1]) _ _ _)).
  - vm_compute. reflexivity.
  - reflexivity.
  - intros m. discriminate.
Defined.

(* ------------------------------------------------------------------ *)
(** * Two runs of the whole host *)

(** A ping, a status request and a download request, with no companion
    application installed: three answers in order, nothing launched, and a
    clean exit at the end of the stream. *)
Example run_ping_status_download :
  let url := VStr (py "https://example.com/file") in
  let input :=
    ping_frame
    ++ send_native_message (VDict [(py "type", VStr (py "status"))])
    ++ send_native_message
         (VDict [(py "type", VStr (py "download")); (py "url", url)]) in
  fst (main sample_env (initial input)) = Exited /\
  stdout (snd (main sample_env (initial input)))
  = pong_frame
    ++ send_native_message status_response
    ++ send_native_message (download_response false url) /\
  launches (snd (main sample_env (initial input))) = [] /\
  stdin (snd (main sample_env (initial input))) = [].
Proof. cbv zeta. repeat split; vm_compute; reflexivity. Qed.

(** A header that announces 100 bytes, ten bytes of an unfinished array,
    and the end of the stream: one error response, and a clean exit. *)
Example run_truncated_frame :
  let input := [x64; x00; x00; x00] ++ ascii_bytes "[1, 2, 3, " in
  main sample_env (initial input)
  = (Exited,
     {| stdin := [];
        stdout_buffer := [];
        stdout :=
          send_native_message
            (error_response sample_env (JSONDecodeError (py "[1, 2, 3, ")));
        launches := [];
        log := [ InfoStarted;
                 ErrorProcessing (JSONDecodeError (py "[1, 2, 3, "));
                 InfoExiting ] |}).
Proof. vm_compute. reflexivity. Qed.

(* ------------------------------------------------------------------ *)
(** * Further properties: the length prefix *)

Lemma byte_of_N_mod (n : N) : byte_of_N (n mod 256) = byte_of_N n.
Proof. unfold byte_of_N. now rewrite N.Div0.mod_mod. Qed.

(** A byte is the low byte of every number that ends with it. *)
Lemma byte_of_N_low (b : byte) (q : N) : byte_of_N (Byte.to_N b + 256 * q) = b.
Proof.
  rewrite <- byte_of_N_mod, (N.mul_comm 256), N.Div0.mod_add.
  rewrite byte_of_N_mod. apply byte_of_N_of_byte.
Qed.

Lemma div_256_low (b : byte) (q : N) : (Byte.to_N b + 256 * q) / 256 = q.
Proof.
  pose proof (Byte.to_N_bounded b) as Hb.
  symmetry. apply (N.div_unique _ 256 q (Byte.to_N b)); lia.
Qed.

(** [X1] The length prefix is a one-to-one code: any four bytes are the
    header of exactly one length below [2 ^ 32], which [struct.pack] turns
    back into the same four bytes; [struct.unpack] refuses every other
    number of bytes, and [struct.pack] every length from [2 ^ 32] on. *)
Theorem header_round_trip :
  (forall raw : bytes,
     length raw = 4%nat ->
     exists n,
       struct_unpack_I raw = Some n /\ n < 2 ^ 32 /\ struct_pack_I n = Some raw) /\
  (forall raw : bytes, length raw <> 4%nat -> struct_unpack_I raw = None) /\
  (forall n header,
     struct_pack_I n = Some header ->
     length header = 4%nat /\ struct_unpack_I header = Some n) /\
  (forall n, 2 ^ 32 <= n -> struct_pack_I n = None).
Proof.
  split; [|split; [|split]].
  - intros raw Hlen.
    destruct raw as [|b0 [|b1 [|b2 [|b3 [|b4 raw]]]]]; try discriminate.
    cbn [struct_unpack_I]. eexists. split; [reflexivity|].
    pose proof (Byte.to_N_bounded b0) as H0.
    pose proof (Byte.to_N_bounded b1) as H1.
    pose proof (Byte.to_N_bounded b2) as H2.
    pose proof (Byte.to_N_bounded b3) as H3.
    change (2 ^ 8) with 256. change (2 ^ 16) with (256 * 256).
    change (2 ^ 24) with (256 * (256 * 256)).
    change (2 ^ 32) with 4294967296.
    set (n1 := Byte.to_N b1 + 256 * (Byte.to_N b2 + 256 * Byte.to_N b3)).
    replace (Byte.to_N b0 + 256 * Byte.to_N b1
             + 256 * 256 * Byte.to_N b2 + 256 * (256 * 256) * Byte.to_N b3)
      with (Byte.to_N b0 + 256 * n1) by (unfold n1; lia).
    split; [unfold n1; lia|].
    unfold struct_pack_I. change (2 ^ 32) with 4294967296.
    replace (Byte.to_N b0 + 256 * n1 <? 4294967296) with true
      by (symmetry; apply N.ltb_lt; unfold n1; lia).
    change (2 ^ 8) with 256. change (2 ^ 16) with (256 * 256).
    change (2 ^ 24) with (256 * 256 * 256).
    rewrite <- !N.Div0.div_div, !div_256_low.
    rewrite byte_of_N_low. unfold n1.
    rewrite byte_of_N_low, !div_256_low, byte_of_N_low.
    rewrite <- (N.add_0_r (Byte.to_N b3)) at 1.
    change 0 with (256 * 0) at 1. rewrite byte_of_N_low. reflexivity.
  - intros raw Hlen.
    destruct raw as [|b0 [|b1 [|b2 [|b3 [|b4 raw]]]]]; try reflexivity.
    now contradiction Hlen.
  - intros n header Hpack. split.
    + exact (struct_pack_I_length n header Hpack).
    + exact (struct_unpack_pack n header Hpack).
  - intros n Hn. unfold struct_pack_I.
    destruct (N.ltb_spec n (2 ^ 32)) as [Hlt|_]; [|reflexivity].
    exfalso. apply N.lt_nge in Hlt. now apply Hlt.
Qed.

(* ------------------------------------------------------------------ *)
(** * Further properties: the edges of [read_message] *)

(** At the end of the input a pass leaves the loop and changes nothing. *)
Lemma iteration_eof (E : env) (w : world) :
  stdin w = [] -> iteration E w = (Return Break, w).
Proof.
  intros Hin. rewrite iteration_cases, (read_message_eof w Hin). reflexivity.
Qed.

Lemma iteration_read_fault (E : env) (w w1 : world) (e : fault) :
  read_message w = (Raise e, w1) ->
  iteration E w =
  (Return Continue,
   snd (write_message E (error_response E e) (add_log w1 (ErrorProcessing e)))).
Proof.
  intros Hread. rewrite iteration_cases, Hread. apply except_block_cases.
Qed.

Lemma read_message_short (w : world) :
  (0 < length (stdin w) < 4)%nat ->
  read_message w = (Raise (StructUnpackError (stdin w)), set_stdin w []).
Proof.
  intros [Hpos Hlt]. rewrite read_message_cases, split_at_short by lia.
  destruct (stdin w) as [|b0 [|b1 [|b2 [|b3 l]]]]; cbn in *; try lia; reflexivity.
Qed.

Lemma read_message_unpack_fault (w w' : world) (raw : bytes) :
  read_message w = (Raise (StructUnpackError raw), w') ->
  raw = stdin w /\ (0 < length (stdin w) < 4)%nat.
Proof.
  rewrite read_message_cases.
  pose proof (split_at_length 4 (stdin w)) as Hlen.
  pose proof (split_at_app 4 (stdin w)) as Happ.
  destruct (split_at 4 (stdin w)) as [got rest] eqn:Hsplit. cbn [fst snd] in *.
  destruct got as [|b0 got]; [discriminate|].
  destruct (struct_unpack_I (b0 :: got)) as [n|] eqn:Hunpack.
  { destruct (split_at n rest) as [payload rest'].
    destruct (utf8_decode payload) as [text|]; [|discriminate].
    destruct (json_loads text); discriminate. }
  intros H. injection H as <- _.
  assert (Hshort : (length (stdin w) < 4)%nat).
  { destruct (Nat.lt_ge_cases (length (stdin w)) 4) as [Hlt|Hge]; [exact Hlt|].
    exfalso.
    assert (H4 : length (b0 :: got) = 4%nat) by lia.
    destruct got as [|b1 [|b2 [|b3 [|b4 got]]]]; discriminate. }
  rewrite split_at_short in Hsplit by lia. injection Hsplit as Hgot _.
  split; [now symmetry|]. rewrite Hgot in Hshort |- *. cbn [length] in *. lia.
Qed.

(** [X2] Between one and three bytes left on the input are not a header:
    [struct.unpack] raises, the bytes are consumed, the [except] block of
    the loop writes its error response, and the next pass meets the end of
    the input and leaves the loop.  [read_message] raises this error in no
    other case. *)
Theorem short_header_fault (E : env) (w : world) :
  (0 < length (stdin w) < 4)%nat ->
  let e := StructUnpackError (stdin w) in
  let w1 :=
    snd (write_message E (error_response E e)
           (add_log (set_stdin w []) (ErrorProcessing e))) in
  read_message w = (Raise e, set_stdin w []) /\
  iteration E w = (Return Continue, w1) /\
  main_loop E 2 w = (Exited, w1) /\
  forall (w0 w' : world) (raw : bytes),
    read_message w0 = (Raise (StructUnpackError raw), w') ->
    raw = stdin w0 /\ (0 < length (stdin w0) < 4)%nat.
Proof.
  intros Hlen e w1.
  pose proof (read_message_short w Hlen) as Hread.
  pose proof (iteration_read_fault E w _ _ Hread) as Hit.
  split; [exact Hread|]. split; [exact Hit|]. split.
  - cbn [main_loop]. rewrite Hit. fold e w1.
    rewrite (iteration_eof E w1); [reflexivity|].
    unfold w1.
    now destruct (write_message_frame E (error_response E e)
                    (add_log (set_stdin w []) (ErrorProcessing e))) as (-> & _).
  - intros w0 w' raw. apply read_message_unpack_fault.
Qed.

Lemma short_header_fault_witness :
  read_message (initial [x02; x00])
  = (Raise (StructUnpackError [x02; x00]), initial []) /\
  main_loop sample_env 2 (initial [x02; x00])
  = (Exited,
     snd (write_message sample_env
            (error_response sample_env (StructUnpackError [x02; x00]))
            (add_log (initial []) (ErrorProcessing (StructUnpackError [x02; x00]))))).
Proof.
  pose proof (short_header_fault sample_env (initial [x02; x00])) as H.
  cbn [initial stdin length] in H.
  destruct (H ltac:(lia)) as (Hread & _ & Hloop & _).
  split; [exact Hread | exact Hloop].
Defined.

Lemma skip_whitespace_blank (text : pystr) :
  Forall (fun c => is_whitespace c = true) text -> skip_whitespace text = [].
Proof.
  induction 1 as [|c text Hc _ IH]; [reflexivity|].
  cbn [skip_whitespace]. now rewrite Hc.
Qed.

Lemma json_loads_blank (text : pystr) :
  Forall (fun c => is_whitespace c = true) text -> json_loads text = None.
Proof.
  intros H. unfold json_loads. rewrite (skip_whitespace_blank text H).
  replace (2 * length text + 1)%nat with (S (2 * length text)) by lia.
  reflexivity.
Qed.

Lemma decode_payload_blank (payload : bytes) :
  blank payload ->
  decode_payload payload = Raise (JSONDecodeError (map Byte.to_N payload)).
Proof.
  intros H. set (text := map Byte.to_N payload).
  assert (Hws : Forall (fun c => is_whitespace c = true) text).
  { unfold text. apply Forall_map. exact H. }
  assert (Hascii : ascii_text text).
  { unfold ascii_text. eapply Forall_impl; [|exact Hws].
    intros c Hc. cbv beta in Hc. unfold is_whitespace in Hc.
    rewrite !orb_true_iff, !N.eqb_eq in Hc. lia. }
  assert (Hbytes : payload = map byte_of_N text).
  { unfold text. rewrite map_map. rewrite <- (map_id payload) at 1.
    apply map_ext. intros b. symmetry. apply byte_of_N_of_byte. }
  unfold decode_payload.
  rewrite Hbytes at 1. rewrite (utf8_decode_ascii text Hascii).
  now rewrite (json_loads_blank text Hws).
Qed.

(** [X3] A frame whose payload is empty or holds only JSON whitespace is
    not the end of the stream: the four bytes and the payload are consumed,
    [json.loads] raises on the text, and the pass goes through the [except]
    block and stays in the loop. *)
Theorem blank_payload_fault (E : env) (w : world) (header payload rest : bytes) :
  stdin w = header ++ payload ++ rest ->
  length header = 4%nat ->
  struct_unpack_I header = Some (N.of_nat (length payload)) ->
  blank payload ->
  let e := JSONDecodeError (map Byte.to_N payload) in
  read_message w = (Raise e, set_stdin w rest) /\
  iteration E w =
  (Return Continue,
   snd (write_message E (error_response E e)
          (add_log (set_stdin w rest) (ErrorProcessing e)))).
Proof.
  intros Hin Hlen Hunpack Hblank e.
  pose proof (read_message_whole_frame w header payload rest _
                Hlen Hunpack eq_refl) as Hread.
  rewrite <- Hin, set_stdin_same in Hread.
  rewrite (decode_payload_blank payload Hblank) in Hread. fold e in Hread.
  split; [exact Hread|]. exact (iteration_read_fault E w _ _ Hread).
Qed.

Lemma blank_payload_fault_witness :
  read_message (initial ([x00; x00; x00; x00] ++ [] ++ ping_frame))
  = (Raise (JSONDecodeError []), initial ping_frame) /\
  read_message (initial ([x02; x00; x00; x00] ++ [x20; x0a] ++ []))
  = (Raise (JSONDecodeError [32; 10]), initial []).
Proof.
  split.
  - apply (blank_payload_fault sample_env
             (initial ([x00; x00; x00; x00] ++ [] ++ ping_frame))
             [x00; x00; x00; x00] [] ping_frame);
      [reflexivity | reflexivity | reflexivity | constructor].
  - apply (blank_payload_fault sample_env
             (initial ([x02; x00; x00; x00] ++ [x20; x0a] ++ []))
             [x02; x00; x00; x00] [x20; x0a] []);
      [reflexivity | reflexivity | reflexivity | repeat constructor].
Defined.

(* ------------------------------------------------------------------ *)
(** * Further properties: the branches of the dispatcher *)

Lemma frame_of_status_response (E : env) :
  frame_of E status_response = Some (send_native_message status_response).
Proof. reflexivity. Qed.

(** A pass on an object that is not empty, by the response of the
    [if]/[elif] chain. *)
Lemma iteration_reply (E : env) (w w1 : world) (m : list (pystr * pyval)) :
  read_message w = (Return (VDict m), w1) ->
  m <> [] ->
  let w2 := add_log w1 (InfoReceived (VDict m)) in
  let url := dict_get m (py "url") (VStr []) in
  let filename := dict_get m (py "filename") (VStr []) in
  iteration E w =
  respond E (reply E m)
    (if equals (dict_get m (py "type") (VStr [])) "ping" then w2
     else if equals (dict_get m (py "type") (VStr [])) "download"
          then snd (handle_download E url filename w2)
          else w2).
Proof.
  intros Hread Hm w2 url filename. rewrite iteration_cases, Hread.
  destruct m as [|kv m']; [contradiction|]. cbn [truthy]. cbv zeta.
  unfold reply. fold w2 url.
  destruct (equals _ "ping"); [reflexivity|].
  destruct (equals _ "download");
    [|destruct (equals _ "status"); reflexivity].
  fold filename. rewrite !handle_download_cases. unfold launch_succeeds.
  destruct (find (path_exists E) app_paths) as [app_path|]; [|reflexivity].
  cbv zeta. destruct (subprocess_run E (open_command app_path url)); reflexivity.
Qed.

Lemma dict_get_nonempty (m : list (pystr * pyval)) (key : pystr)
    (default : pyval) :
  dict_get m key default <> default -> m <> [].
Proof. intros H ->. now apply H. Qed.

(** [X4] A [status] request is answered with the fixed status object, for
    every environment: no path is probed and nothing is launched.  With an
    open pipe the pass delivers that one frame, logs the response and goes
    on. *)
Theorem status_request_answered (E : env) (w w1 : world)
    (m : list (pystr * pyval)) :
  read_message w = (Return (VDict m), w1) ->
  dict_get m (py "type") (VStr []) = VStr (py "status") ->
  let response :=
    VDict [ (py "type", VStr (py "status_response"));
            (py "connected", VBool true);
            (py "app_running", VBool true) ] in
  let w2 := add_log w1 (InfoReceived (VDict m)) in
  iteration E w = respond E response w2 /\
  launches (snd (iteration E w)) = launches w /\
  (pipe_open E (stdout w) = true ->
   iteration E w =
   (Return Continue,
    add_log
      (set_stdout w2 []
         (stdout w ++ stdout_buffer w ++ send_native_message response))
      (InfoSent response))).
Proof.
  intros Hread Htype response w2.
  assert (Hm : m <> []).
  { apply (dict_get_nonempty m (py "type") (VStr [])). now rewrite Htype. }
  pose proof (iteration_reply E w w1 m Hread Hm) as Hit.
  unfold reply in Hit. rewrite Htype in Hit. cbn [equals pystr_eqb] in Hit.
  change (iteration E w = respond E response w2) in Hit.
  destruct (read_message_frame w) as (Hout & Hbuf & Hl & _).
  rewrite Hread in Hout, Hbuf, Hl. cbn [snd] in Hout, Hbuf, Hl.
  split; [exact Hit|]. split.
  - rewrite Hit, respond_cases.
    destruct (write_message_frame E response w2) as (_ & Hl2 & _).
    destruct (write_message E response w2) as [[[]|e] w3]; cbn [snd] in *.
    + cbn [add_log launches]. now rewrite Hl2.
    + rewrite except_block_cases. cbn [snd].
      destruct (write_message_frame E (error_response E e)
                  (add_log w3 (ErrorProcessing e))) as (_ & -> & _).
      cbn [add_log launches]. now rewrite Hl2.
  - intros Hopen. rewrite Hit.
    rewrite (respond_delivers E response w2 _ (frame_of_status_response E)).
    + unfold w2. cbn [add_log stdout stdout_buffer]. now rewrite Hout, Hbuf.
    + unfold w2. cbn [add_log stdout]. now rewrite Hout.
Qed.

Lemma status_request_answered_witness :
  iteration sample_env
    (initial (send_native_message (VDict [(py "type", VStr (py "status"))])))
  = (Return Continue,
     add_log
       (set_stdout
          (add_log (initial [])
             (InfoReceived (VDict [(py "type", VStr (py "status"))])))
          [] (send_native_message status_response))
       (InfoSent status_response)).
Proof.
  refine (proj2 (proj2
    (status_request_answered sample_env
       (initial (send_native_message (VDict [(py "type", VStr (py "status"))])))
       (initial []) [(py "type", VStr (py "status"))] _ _)) _);
    vm_compute; reflexivity.
Defined.

Lemma equals_not_text (v : pyval) (literal : string) :
  (forall s, v <> VStr s) -> equals v literal = false.
Proof. destruct v; try reflexivity. intros H. now contradiction (H s). Qed.

(** [X5] A [type] that is not a text (a number, [null], a boolean, an
    array, an object) matches none of the three known types: the request is
    answered with the unknown-type error, whose message ends with what
    [str] prints for the value: [None], [True], [False], the decimal digits
    of an integer. *)
Theorem type_not_text_reported (E : env) (w w1 : world)
    (m : list (pystr * pyval)) :
  read_message w = (Return (VDict m), w1) ->
  m <> [] ->
  (forall s, dict_get m (py "type") (VStr []) <> VStr s) ->
  let msg_type := dict_get m (py "type") (VStr []) in
  let shown :=
    match msg_type with
    | VNone => py "None"
    | VBool true => py "True"
    | VBool false => py "False"
    | VInt n => int_text n
    | other => repr_text E other
    end in
  let response :=
    VDict [ (py "type", VStr (py "error"));
            (py "message", VStr (py "Unknown message type: " ++ shown)) ] in
  let w2 := add_log w1 (InfoReceived (VDict m)) in
  iteration E w = respond E response w2 /\
  (forall fr,
     frame_of E response = Some fr ->
     pipe_open E (stdout w) = true ->
     stdout (snd (iteration E w)) = stdout w ++ stdout_buffer w ++ fr).
Proof.
  intros Hread Hm Htype msg_type shown response w2.
  pose proof (iteration_reply E w w1 m Hread Hm) as Hit.
  unfold reply in Hit. fold msg_type in Hit, Htype.
  rewrite !(equals_not_text msg_type _ Htype) in Hit.
  assert (Hresp : unknown_type_response E msg_type = response).
  { unfold unknown_type_response, response, shown, format_value.
    destruct msg_type as [| b | n | f | s | l | d]; try reflexivity.
    now contradiction (Htype s). }
  rewrite Hresp in Hit. fold w2 in Hit.
  split; [exact Hit|].
  intros fr Hfr Hopen.
  destruct (read_message_frame w) as (Hout & Hbuf & _).
  rewrite Hread in Hout, Hbuf. cbn [snd] in Hout, Hbuf.
  rewrite Hit, (respond_delivers E response w2 fr Hfr).
  - unfold w2. cbn [snd add_log set_stdout stdout stdout_buffer].
    now rewrite Hout, Hbuf.
  - unfold w2. cbn [add_log stdout]. now rewrite Hout.
Qed.

Lemma type_not_text_reported_witness :
  iteration sample_env
    (initial (send_native_message (VDict [(py "type", VInt 7)])))
  = respond sample_env
      (VDict [ (py "type", VStr (py "error"));
               (py "message", VStr (py "Unknown message type: 7")) ])
      (add_log (initial []) (InfoReceived (VDict [(py "type", VInt 7)]))).
Proof.
  refine (proj1
    (type_not_text_reported sample_env
       (initial (send_native_message (VDict [(py "type", VInt 7)])))
       (initial []) [(py "type", VInt 7)] _ _ _)).
  - vm_compute. reflexivity.
  - discriminate.
  - intros s. cbn. discriminate.
Defined.

(* ------------------------------------------------------------------ *)
(** * Further properties: what a whole run keeps *)

Lemma equals_true (v : pyval) (literal : string) :
  equals v literal = true -> v = VStr (py literal).
Proof.
  destruct v; try discriminate. cbn [equals]. intros H.
  now apply pystr_eqb_eq in H as ->.
Qed.

(** A property of the process state that reading, logging, the action
    invoker and the writing of a response keep is kept by every pass, by
    the loop and by [main]. *)
Section PassInvariant.
Variable E : env.
Variable Inv : world -> Prop.
Hypothesis Inv_read : forall w, Inv w -> Inv (snd (read_message w)).
Hypothesis Inv_log : forall w r, Inv w -> Inv (add_log w r).
Hypothesis Inv_download :
  forall w m,
    Inv w ->
    dict_get m (py "type") (VStr []) = VStr (py "download") ->
    Inv (snd (handle_download E (dict_get m (py "url") (VStr []))
                (dict_get m (py "filename") (VStr []))
                (add_log w (InfoReceived (VDict m))))).
Hypothesis Inv_write :
  forall w response,
    is_response E response -> Inv w -> Inv (snd (write_message E response w)).

Lemma except_block_keeps (e : fault) (w : world) :
  Inv w -> Inv (snd (except_block E e w)).
Proof.
  intros Hw. rewrite except_block_cases. cbn [snd].
  apply Inv_write; [constructor | now apply Inv_log].
Qed.

Lemma respond_keeps (response : pyval) (w : world) :
  is_response E response -> Inv w -> Inv (snd (respond E response w)).
Proof.
  intros Hr Hw. rewrite respond_cases.
  pose proof (Inv_write w response Hr Hw) as H.
  destruct (write_message E response w) as [[[]|e] w']; cbn [snd] in *.
  - now apply Inv_log.
  - now apply except_block_keeps.
Qed.

Lemma iteration_keeps (w : world) : Inv w -> Inv (snd (iteration E w)).
Proof.
  intros Hw. rewrite iteration_cases.
  pose proof (Inv_read w Hw) as H1.
  destruct (read_message w) as [[message|e] w1]; cbn [snd] in H1;
    [|now apply except_block_keeps].
  destruct (truthy message); [|exact H1]. cbv zeta.
  pose proof (Inv_log w1 (InfoReceived message) H1) as H2.
  destruct message as [| b | n | f | s | l | m];
    try (now apply except_block_keeps).
  destruct (equals _ "ping"); [apply respond_keeps; [constructor | exact H2]|].
  destruct (equals _ "download") eqn:Hd.
  - apply equals_true in Hd.
    pose proof (Inv_download w1 m H1 Hd) as H3.
    destruct (handle_download E _ _ _) as [[success|e] w3]; cbn [snd] in H3.
    + apply respond_keeps; [constructor | exact H3].
    + now apply except_block_keeps.
  - destruct (equals _ "status");
      (apply respond_keeps; [constructor | exact H2]).
Qed.

Lemma main_loop_keeps (passes : nat) (w : world) :
  Inv w -> Inv (snd (main_loop E passes w)).
Proof.
  revert w. induction passes as [|passes IH]; intros w Hw; [exact Hw|].
  cbn [main_loop]. pose proof (iteration_keeps w Hw) as H.
  destruct (iteration E w) as [[[]|e] w']; cbn [snd] in *; auto.
Qed.

Lemma main_keeps (w : world) : Inv w -> Inv (snd (main E w)).
Proof.
  intros Hw. unfold main.
  pose proof (main_loop_keeps (S (length (stdin (add_log w InfoStarted))))
                (add_log w InfoStarted) (Inv_log w InfoStarted Hw)) as H.
  destruct (main_loop E _ _) as [[|e|] w']; cbn [snd] in *; auto.
Qed.

End PassInvariant.

(** ** The output is made of whole frames *)









(** ** What is launched *)

Lemma launched_for_download_later (E : env) (w w' : world) (argv : list pyval) :
  incl (log w) (log w') ->
  launched_for_download E w argv -> launched_for_download E w' argv.
Proof.
  intros Hincl (app_path & m & Hargv & Hfind & Htype & Hin).
  exists app_path, m. auto.
Qed.

Lemma launches_since_same (E : env) (w w1 w2 : world) :
  launches w2 = launches w1 ->
  incl (log w1) (log w2) ->
  launches_since E w w1 -> launches_since E w w2.
Proof.
  intros Hl Hlog (new & Hnew & Hall). exists new. split; [congruence|].
  eapply Forall_impl; [|exact Hall].
  intros argv. now apply launched_for_download_later.
Qed.

Lemma handle_download_launches (E : env) (w w1 : world)
    (m : list (pystr * pyval)) :
  launches_since E w w1 ->
  dict_get m (py "type") (VStr []) = VStr (py "download") ->
  launches_since E w
    (snd (handle_download E (dict_get m (py "url") (VStr []))
            (dict_get m (py "filename") (VStr []))
            (add_log w1 (InfoReceived (VDict m))))).
Proof.
  intros H Htype. rewrite handle_download_cases.
  set (w2 := add_log w1 (InfoReceived (VDict m))).
  assert (H2 : launches_since E w w2).
  { apply (launches_since_same E w w1 w2); [reflexivity| |exact H].
    unfold w2. cbn [add_log log]. apply incl_appl, incl_refl. }
  destruct (find (path_exists E) app_paths) as [app_path|] eqn:Hfind;
    [|exact H2].
  cbv zeta.
  set (argv := open_command app_path (dict_get m (py "url") (VStr []))).
  assert (Hgrow : forall w3,
             launches w3 = launches w2 ++ [argv] ->
             incl (log w2) (log w3) ->
             launches_since E w w3).
  { intros w3 Hl Hlog. destruct H2 as (new & Hnew & Hall).
    exists (new ++ [argv]). split.
    - now rewrite Hl, Hnew, app_assoc.
    - apply Forall_app. split.
      + eapply Forall_impl; [|exact Hall].
        intros a. now apply launched_for_download_later.
      + constructor; [|constructor].
        exists app_path, m. repeat split; auto.
        apply Hlog. unfold w2. cbn [add_log log].
        apply in_or_app. right. now left. }
  destruct (subprocess_run E argv); cbn [snd]; apply Hgrow;
    cbn [add_log add_launch launches log]; try reflexivity.
  - apply incl_appl, incl_refl.
  - apply incl_refl.
Qed.

(** [X7] The host runs no command but the launch of the companion
    application for a download request.  Over a whole run of [main], every
    call of [subprocess.run] that is added has the arguments [open -a
    <path> <url>], where the path is the first of the two candidates that
    exists and the url is the one of an object of type [download] that the
    log records as received; the calls made before are kept.  Where neither
    path exists nothing is launched, whatever the input. *)
Theorem launches_follow_requests (E : env) (w : world) :
  exists new,
    launches (snd (main E w)) = launches w ++ new /\
    Forall (launched_for_download E (snd (main E w))) new /\
    (find (path_exists E) app_paths = None -> new = []).
Proof.
  assert (H : launches_since E w (snd (main E w))).
  { apply (main_keeps E (launches_since E w)).
    - intros w0. destruct (read_message_frame w0) as (_ & _ & Hl & Hlog & _).
      apply launches_since_same; [exact Hl|]. rewrite Hlog. apply incl_refl.
    - intros w0 r. apply launches_since_same; [reflexivity|].
      cbn [add_log log]. apply incl_appl, incl_refl.
    - intros w0 m. apply handle_download_launches.
    - intros w0 response _.
      destruct (write_message_frame E response w0) as (_ & Hl & Hlog & _).
      apply launches_since_same; [exact Hl|]. rewrite Hlog. apply incl_refl.
    - exists []. split; [now rewrite app_nil_r | constructor]. }
  destruct H as (new & Hnew & Hall). exists new.
  split; [exact Hnew|]. split; [exact Hall|].
  intros Hnone. destruct Hall as [|argv new' (p & m & _ & Hfind & _) _];
    [reflexivity | congruence].
Qed.

(** ** A reader that has gone away *)



(** ** The log of a run *)

Lemma respond_log (E : env) (response : pyval) (w : world) :
  log (snd (respond E response w)) = log w ++ [InfoSent response] \/
  exists e, log (snd (respond E response w)) = log w ++ [ErrorProcessing e].
Proof.
  rewrite respond_cases.
  destruct (write_message_frame E response w) as (_ & _ & Hlog & _).
  destruct (write_message E response w) as [[[]|e] w']; cbn [snd] in *.
  - left. cbn [add_log log]. now rewrite Hlog.
  - right. exists e. rewrite except_block_cases. cbn [snd].
    destruct (write_message_frame E (error_response E e)
                (add_log w' (ErrorProcessing e))) as (_ & _ & -> & _).
    cbn [add_log log]. now rewrite Hlog.
Qed.

Lemma except_block_log (E : env) (e : fault) (w : world) :
  log (snd (except_block E e w)) = log w ++ [ErrorProcessing e].
Proof.
  rewrite except_block_cases. cbn [snd].
  now destruct (write_message_frame E (error_response E e)
                  (add_log w (ErrorProcessing e))) as (_ & _ & -> & _).
Qed.

(** What one pass adds to the log: nothing when it leaves the loop, else
    one of the five shapes of [pass_log]. *)
Lemma iteration_log (E : env) (w : world) :
  exists added,
    log (snd (iteration E w)) = log w ++ added /\
    ((fst (iteration E w) = Return Break /\ added = []) \/
     (fst (iteration E w) = Return Continue /\ pass_log added)).
Proof.
  rewrite iteration_cases.
  destruct (read_message_frame w) as (_ & _ & _ & Hlog & _).
  destruct (read_message w) as [[message|e] w1]; cbn [snd] in Hlog.
  2:{ exists [ErrorProcessing e]. rewrite except_block_log, Hlog.
      split; [reflexivity|]. right.
      rewrite except_block_cases. split; [reflexivity | constructor]. }
  destruct (truthy message).
  2:{ exists []. cbn [fst snd]. rewrite app_nil_r. auto. }
  cbv zeta. set (w2 := add_log w1 (InfoReceived message)).
  assert (Hexc : forall e,
             exists added,
               log (snd (except_block E e w2)) = log w ++ added /\
               ((fst (except_block E e w2) = Return Break /\ added = []) \/
                (fst (except_block E e w2) = Return Continue /\ pass_log added))).
  { intros e. exists [InfoReceived message; ErrorProcessing e].
    rewrite except_block_log. unfold w2. cbn [add_log log].
    rewrite Hlog, <- app_assoc. split; [reflexivity|]. right.
    rewrite except_block_cases. split; [reflexivity | constructor]. }
  assert (Hresp : forall response w3 between,
             log w3 = log w ++ InfoReceived message :: between ->
             between = [] \/ (exists e, between = [ErrorDownload e]) ->
             exists added,
               log (snd (respond E response w3)) = log w ++ added /\
               ((fst (respond E response w3) = Return Break /\ added = []) \/
                (fst (respond E response w3) = Return Continue /\
                 pass_log added))).
  { intros response w3 between Hw3 Hbetween.
    rewrite respond_continues.
    destruct (respond_log E response w3) as [Hl | (e & Hl)]; rewrite Hl, Hw3.
    - exists (InfoReceived message :: between ++ [InfoSent response]).
      rewrite <- app_assoc. split; [reflexivity|]. right.
      split; [reflexivity|].
      destruct Hbetween as [-> | (e & ->)]; constructor.
    - exists (InfoReceived message :: between ++ [ErrorProcessing e]).
      rewrite <- app_assoc. split; [reflexivity|]. right.
      split; [reflexivity|].
      destruct Hbetween as [-> | (e' & ->)]; constructor. }
  assert (Hw2 : log w2 = log w ++ [InfoReceived message]).
  { unfold w2. cbn [add_log log]. now rewrite Hlog. }
  destruct message as [| b | n | f | s | l | m]; try apply Hexc.
  destruct (equals _ "ping"); [apply (Hresp _ _ []); auto|].
  destruct (equals _ "download");
    [|destruct (equals _ "status"); apply (Hresp _ _ []); auto].
  rewrite handle_download_cases.
  destruct (find (path_exists E) app_paths) as [app_path|];
    [|apply (Hresp _ _ []); auto].
  cbv zeta. destruct (subprocess_run E _) as [e|].
  - apply (Hresp _ _ [ErrorDownload e]); [|eauto].
    cbn [add_log add_launch log]. now rewrite Hw2, <- app_assoc.
  - apply (Hresp _ _ []); auto.
Qed.

Lemma main_loop_log (E : env) (passes : nat) (w : world) :
  exists added,
    log (snd (main_loop E passes w)) = log w ++ concat added /\
    Forall pass_log added.
Proof.
  revert w. induction passes as [|passes IH]; intros w.
  { exists []. cbn. now rewrite app_nil_r. }
  cbn [main_loop].
  destruct (iteration_log E w) as (first & Hlog & Hshape).
  destruct (iteration E w) as [[[]|e] w'] eqn:Hit; cbn [fst snd] in *.
  - destruct Hshape as [(Hb & _) | (_ & Hfirst)]; [discriminate|].
    destruct (IH w') as (added & Hadded & Hall).
    exists (first :: added). split; [|now constructor].
    cbn [concat]. now rewrite Hadded, Hlog, app_assoc.
  - destruct Hshape as [(_ & ->) | (Hc & _)]; [|discriminate].
    exists []. split; [exact Hlog | constructor].
  - destruct Hshape as [(Hb & _) | (Hc & _)]; discriminate.
Qed.

(** [X9] The log of a run: the start record, then for every pass that
    stays in the loop one group of records, then the exit record.  A group
    is the processing error of a read that failed, or the record of the
    message received followed by the response sent or by the processing
    error, with the download error in between when the launch failed.
    What the log held before is kept. *)
Theorem log_of_a_run (E : env) (w : world) :
  exists groups,
    log (snd (main E w))
    = log w ++ [InfoStarted] ++ concat groups ++ [InfoExiting] /\
    Forall pass_log groups.
Proof.
  pose proof (main_exits E w) as Hexit. unfold main in *.
  destruct (main_loop_log E (S (length (stdin (add_log w InfoStarted))))
              (add_log w InfoStarted)) as (groups & Hlog & Hall).
  destruct (main_loop E _ _) as [[|e|] w']; try discriminate.
  exists groups. split; [|exact Hall].
  cbn [snd add_log log] in *. rewrite Hlog. now rewrite <- !app_assoc.
Qed.

(* ------------------------------------------------------------------ *)
(** * Further properties: a conversation *)

Lemma frame_of_payload (E : env) (v : pyval) (fr : bytes) :
  json_plain v ->
  frame_of E v = Some fr ->
  exists header,
    fr = header ++ map byte_of_N (json_dumps (float_text E) v) /\
    struct_pack_I
      (N.of_nat (length (map byte_of_N (json_dumps (float_text E) v))))
    = Some header.
Proof.
  intros Hplain. unfold frame_of.
  rewrite (utf8_encode_ascii _ (ascii_text_json_dumps (float_text E) v Hplain)).
  destruct (struct_pack_I _) as [header|]; [|discriminate].
  intros H. injection H as <-. eauto.
Qed.

Lemma decode_payload_dumps (ft : float_lit -> string) (v : pyval) :
  json_plain v -> decode_payload (map byte_of_N (json_dumps ft v)) = Return v.
Proof.
  intros Hplain. unfold decode_payload.
  rewrite (utf8_decode_ascii _ (ascii_text_json_dumps ft v Hplain)).
  now rewrite (json_loads_dumps ft v Hplain).
Qed.

(** Reading the frame of a value gives the value. *)
Lemma read_message_frame_of (E : env) (v : pyval) (fr rest : bytes) (w : world) :
  json_plain v ->
  frame_of E v = Some fr ->
  stdin w = fr ++ rest ->
  read_message w = (Return v, set_stdin w rest).
Proof.
  intros Hplain Hfr Hin.
  destruct (frame_of_payload E v fr Hplain Hfr) as (header & -> & Hpack).
  pose proof (read_message_whole_frame w header _ rest _
                (struct_pack_I_length _ _ Hpack) (struct_unpack_pack _ _ Hpack)
                eq_refl) as H.
  rewrite <- app_assoc in Hin. rewrite <- Hin, set_stdin_same in H.
  now rewrite (decode_payload_dumps _ v Hplain) in H.
Qed.







(* ------------------------------------------------------------------ *)
(** * Further properties: the test driver *)








(** [X12] The test driver cannot tell a falsy message from silence.  For
    [None], [False], [0], the empty text, the empty array and the empty
    object the host leaves its loop without a word, its output is shorter
    than a header, and [send_native_message] returns [None]. *)
Theorem driver_gets_none_for_falsy (E : env) (v : pyval) :
  truthy v = false ->
  (forall f, v <> VFloat f) ->
  TestDriver.communicate E (send_native_message v) = [] /\
  TestDriver.send_native_message E v = Return VNone.
Proof.
  intros Hfalsy Hfloat.
  destruct v as [| [|] | [|p|p] | f | [|c s] | [|x l] | [|kv m]];
    try discriminate; try (now contradiction (Hfloat f));
    split; reflexivity.
Qed.

Lemma driver_gets_none_for_falsy_witness :
  TestDriver.send_native_message sample_env (VDict []) = Return VNone.
Proof.
  refine (proj2 (driver_gets_none_for_falsy sample_env (VDict []) _ _));
    [reflexivity | discriminate].
Defined.

(* ------------------------------------------------------------------ *)
(** * Further properties: what the decoder returns *)

(** ** The text a scanner leaves is a part of the text it was given *)

Section Keeps.
Variable P : N -> Prop.

Lemma skip_whitespace_keeps (s : pystr) :
  Forall P s -> Forall P (skip_whitespace s).
Proof.
  induction s as [|c s IH]; cbn [skip_whitespace]; intros H; [exact H|].
  destruct (is_whitespace c); [|exact H].
  apply IH. exact (Forall_inv_tail H).
Qed.

Lemma scan_digits_keeps (s : pystr) :
  Forall P s -> Forall P (snd (scan_digits s)).
Proof.
  induction s as [|c s IH]; cbn [scan_digits]; intros H; [exact H|].
  destruct (digit_of c) as [d|]; [|exact H].
  specialize (IH (Forall_inv_tail H)).
  destruct (scan_digits s) as [u rest]. exact IH.
Qed.

Lemma scan_fraction_keeps (s : pystr) :
  Forall P s -> Forall P (snd (scan_fraction s)).
Proof.
  destruct s as [|dot [|d s]]; cbn [scan_fraction snd]; auto.
  intros H. destruct ((dot =? chr ".") && is_digit d); [|exact H].
  pose proof (scan_digits_keeps (d :: s) (Forall_inv_tail H)) as Hd.
  destruct (scan_digits (d :: s)) as [f rest]. exact Hd.
Qed.

Lemma scan_exponent_keeps (s : pystr) :
  Forall P s -> Forall P (snd (scan_exponent s)).
Proof.
  destruct s as [|e s1]; cbn [scan_exponent snd]; auto.
  intros H. destruct ((e =? chr "e") || (e =? chr "E")); [|exact H].
  pose proof (Forall_inv_tail H) as H1.
  assert (Hsign : forall p : bool * pystr,
             p = match s1 with
                 | sg :: s2 =>
                     if sg =? chr "-" then (true, s2)
                     else if sg =? chr "+" then (false, s2)
                     else (false, s1)
                 | [] => (false, s1)
                 end ->
             Forall P (snd p)).
  { intros p ->. destruct s1 as [|sg s2]; [exact H1|].
    destruct (sg =? chr "-"); [exact (Forall_inv_tail H1)|].
    destruct (sg =? chr "+"); [exact (Forall_inv_tail H1) | exact H1]. }
  specialize (Hsign _ eq_refl).
  destruct (match s1 with [] => _ | _ :: _ => _ end) as [negative s2].
  cbn [snd] in Hsign.
  pose proof (scan_digits_keeps s2 Hsign) as Hd.
  destruct (scan_digits s2) as [u rest]. cbn [snd] in Hd.
  destruct u; cbn [snd]; assumption.
Qed.

Lemma scan_integer_keeps (s : pystr) (u : Decimal.uint) (rest : pystr) :
  scan_integer s = Some (u, rest) -> Forall P s -> Forall P rest.
Proof.
  destruct s as [|c s]; cbn [scan_integer]; [discriminate|].
  destruct (c =? chr "0").
  - intros H. injection H as _ <-. apply Forall_inv_tail.
  - destruct (is_digit c); [|discriminate].
    intros H HP. injection H as H.
    change (scan_digits (c :: s) = (u, rest)) in H.
    pose proof (scan_digits_keeps (c :: s) HP) as Hd.
    now rewrite H in Hd.
Qed.

Lemma match_number_keeps (s : pystr) (v : pyval) (rest : pystr) :
  match_number s = Scanned v rest -> Forall P s -> Forall P rest.
Proof.
  unfold match_number. intros H HP.
  assert (Hsign : Forall P (snd (scan_sign s))).
  { destruct s as [|c s]; cbn [scan_sign]; [exact HP|].
    destruct (c =? chr "-"); [exact (Forall_inv_tail HP) | exact HP]. }
  destruct (scan_sign s) as [negative s1]. cbn [snd] in Hsign.
  destruct (scan_integer s1) as [[u s2]|] eqn:Hint; [|discriminate].
  pose proof (scan_integer_keeps s1 u s2 Hint Hsign) as H2.
  pose proof (scan_fraction_keeps s2 H2) as H3.
  destruct (scan_fraction s2) as [frac s3]. cbn [snd] in H3.
  pose proof (scan_exponent_keeps s3 H3) as H4.
  destruct (scan_exponent s3) as [exp s4]. cbn [snd] in H4.
  destruct frac, exp; injection H as _ <-; exact H4.
Qed.

Lemma strip_prefix_keeps (word s rest : pystr) :
  strip_prefix word s = Some rest -> Forall P s -> Forall P rest.
Proof.
  revert s. induction word as [|w word IH]; intros s; cbn [strip_prefix].
  - intros H. now injection H as <-.
  - destruct s as [|c s]; [discriminate|].
    destruct (w =? c); [|discriminate].
    intros H HP. exact (IH s H (Forall_inv_tail HP)).
Qed.

Lemma scanstring_keeps (s x rest : pystr) :
  scanstring s = Some (x, rest) -> Forall P s -> Forall P rest.
Proof.
  remember (length s) as n eqn:Hn.
  revert s x rest Hn.
  induction n as [n IH] using lt_wf_ind. intros s x rest ->.
  assert (Hrec : forall (c : N) (t : pystr) y r,
             push c (scanstring t) = Some (y, r) ->
             (length t < length s)%nat ->
             Forall P t -> Forall P r).
  { intros c t y r H Hlt. destruct (scanstring t) as [[y' r']|] eqn:Ht;
      [|discriminate].
    cbn in H. injection H as _ <-. exact (IH _ Hlt t y' r' eq_refl Ht). }
  destruct s as [|c s1]; [discriminate|]. cbn [scanstring].
  destruct (c =? QUOTE).
  { intros H. injection H as _ <-. apply Forall_inv_tail. }
  destruct (c =? BACKSLASH).
  2:{ destruct (c <=? 31); [discriminate|].
      intros H HP. apply (Hrec _ _ _ _ H); [cbn; lia|].
      exact (Forall_inv_tail HP). }
  destruct s1 as [|e s2]; [discriminate|].
  destruct (e =? chr "u").
  2:{ destruct (simple_escape e); [|discriminate].
      intros H HP. apply (Hrec _ _ _ _ H); [cbn; lia|].
      exact (Forall_inv_tail (Forall_inv_tail HP)). }
  destruct s2 as [|h1 [|h2 [|h3 [|h4 s3]]]]; try discriminate.
  destruct (hex4_value h1 h2 h3 h4) as [u|]; [|discriminate].
  assert (Hs3 : forall y r,
             push u (scanstring s3) = Some (y, r) ->
             Forall P (c :: e :: h1 :: h2 :: h3 :: h4 :: s3) -> Forall P r).
  { intros y r H HP. apply (Hrec _ _ _ _ H); [cbn; lia|].
    do 6 apply Forall_inv_tail in HP. exact HP. }
  destruct (is_high_surrogate u); [|apply Hs3].
  destruct s3 as [|b [|u' [|k1 [|k2 [|k3 [|k4 s4]]]]]]; try apply Hs3.
  destruct ((b =? BACKSLASH) && (u' =? chr "u")); [|apply Hs3].
  destruct (hex4_value k1 k2 k3 k4) as [u2|]; [|discriminate].
  destruct (is_low_surrogate u2); [|apply Hs3].
  intros H HP. apply (Hrec _ _ _ _ H); [cbn; lia|].
  do 12 apply Forall_inv_tail in HP. exact HP.
Qed.

Lemma scan_atom_keeps (s : pystr) (v : pyval) (rest : pystr) :
  scan_atom s = Scanned v rest -> Forall P s -> Forall P rest.
Proof.
  unfold scan_atom.
  destruct s as [|c s']; [apply match_number_keeps|].
  repeat match goal with
         | |- context [if ?a =? ?b then _ else _] => destruct (a =? b)
         end;
    try apply match_number_keeps;
    match goal with
    | |- context [constant ?w ?x ?t] =>
        unfold constant;
        destruct (strip_prefix (py w) t) as [r|] eqn:Hc;
        [intros H; injection H as _ <-; exact (strip_prefix_keeps _ _ _ Hc)
        | apply match_number_keeps]
    end.
Qed.

Lemma scan_keeps (fuel : nat) :
  (forall s v rest,
     scan_once fuel s = Scanned v rest -> Forall P s -> Forall P rest) /\
  (forall s l rest,
     scan_items fuel s = Scanned l rest -> Forall P s -> Forall P rest) /\
  (forall s m rest,
     scan_members fuel s = Scanned m rest -> Forall P s -> Forall P rest).
Proof.
  induction fuel as [|fuel (IHonce & IHitems & IHmembers)];
    [repeat split; intros; discriminate|].
  split; [|split].
  - intros [|c s1] v rest; [discriminate|]. cbn [scan_once].
    destruct (c =? QUOTE).
    { destruct (scanstring s1) as [[x r]|] eqn:Hs; [|discriminate].
      cbn. intros H HP. injection H as _ <-.
      exact (scanstring_keeps _ _ _ Hs (Forall_inv_tail HP)). }
    destruct (c =? chr "{").
    { intros H HP.
      pose proof (skip_whitespace_keeps s1 (Forall_inv_tail HP)) as Hws.
      destruct (skip_whitespace s1) as [|c2 s2]; [discriminate|].
      destruct (c2 =? chr "}").
      - injection H as _ <-. exact (Forall_inv_tail Hws).
      - apply scan_map_scanned in H as (ps & H). exact (IHmembers _ _ _ H Hws). }
    destruct (c =? chr "[").
    { intros H HP.
      pose proof (skip_whitespace_keeps s1 (Forall_inv_tail HP)) as Hws.
      destruct (skip_whitespace s1) as [|c2 s2]; [discriminate|].
      destruct (c2 =? chr "]").
      - injection H as _ <-. exact (Forall_inv_tail Hws).
      - apply scan_map_scanned in H as (ps & H). exact (IHitems _ _ _ H Hws). }
    apply scan_atom_keeps.
  - intros s l rest. rewrite scan_items_step.
    destruct (scan_once fuel s) as [v r| |] eqn:Hv; try discriminate.
    intros H HP.
    pose proof (skip_whitespace_keeps r (IHonce _ _ _ Hv HP)) as Hws.
    destruct (skip_whitespace r) as [|c r1]; [discriminate|].
    destruct (c =? chr "]").
    { injection H as _ <-. exact (Forall_inv_tail Hws). }
    destruct (c =? chr ","); [|discriminate].
    apply scan_map_scanned in H as (l' & H).
    apply (IHitems _ _ _ H). apply skip_whitespace_keeps.
    exact (Forall_inv_tail Hws).
  - intros [|q s1] m rest; [discriminate|]. cbn [scan_members].
    destruct (q =? QUOTE); [|discriminate].
    destruct (scanstring s1) as [[key r]|] eqn:Hk; [|discriminate].
    intros H HP.
    pose proof (skip_whitespace_keeps r
                  (scanstring_keeps _ _ _ Hk (Forall_inv_tail HP))) as Hws.
    destruct (skip_whitespace r) as [|colon r1]; [discriminate|].
    destruct (colon =? chr ":"); [|discriminate].
    pose proof (skip_whitespace_keeps r1 (Forall_inv_tail Hws)) as Hws1.
    destruct (scan_once fuel (skip_whitespace r1)) as [v r2| |] eqn:Hv;
      try discriminate.
    pose proof (skip_whitespace_keeps r2 (IHonce _ _ _ Hv Hws1)) as Hws2.
    destruct (skip_whitespace r2) as [|c r3]; [discriminate|].
    destruct (c =? chr "}").
    { injection H as _ <-. exact (Forall_inv_tail Hws2). }
    destruct (c =? chr ","); [|discriminate].
    apply scan_map_scanned in H as (m' & H).
    apply (IHmembers _ _ _ H). apply skip_whitespace_keeps.
    exact (Forall_inv_tail Hws2).
Qed.

End Keeps.

(** ** The texts the decoders return *)

Lemma is_scalar_cases (c : N) :
  is_scalar c = true ->
  c <= 0x10FFFF /\ is_high_surrogate c = false /\ is_low_surrogate c = false.
Proof.
  unfold is_scalar, is_surrogate, is_high_surrogate, is_low_surrogate.
  rewrite andb_true_iff, negb_true_iff, !andb_false_iff, !N.leb_le, !N.leb_gt.
  lia.
Qed.

Lemma is_scalar_below (c : N) : c < 0xD800 -> is_scalar c = true.
Proof.
  intros H. unfold is_scalar, is_surrogate.
  rewrite andb_true_iff, negb_true_iff, andb_false_iff, !N.leb_le, !N.leb_gt.
  lia.
Qed.

Lemma cons_opt_some {A} (x : A) (o : option (list A)) (l : list A) :
  cons_opt x o = Some l -> exists l', o = Some l' /\ l = x :: l'.
Proof.
  destruct o as [l'|]; [|discriminate]. cbn. intros H. injection H as <-. eauto.
Qed.

Lemma continuation_bound (b : byte) (x : N) : continuation b = Some x -> x < 64.
Proof.
  unfold continuation.
  destruct ((128 <=? Byte.to_N b) && (Byte.to_N b <? 192)) eqn:H; [|discriminate].
  intros E. injection E as <-.
  rewrite andb_true_iff, N.leb_le, N.ltb_lt in H. lia.
Qed.

(** [bytes.decode('utf-8')] gives Unicode scalar values only. *)
Lemma utf8_decode_scalars (bs : bytes) (s : pystr) :
  utf8_decode bs = Some s -> Forall (fun c => is_scalar c = true) s.
Proof.
  remember (length bs) as n eqn:Hn.
  revert bs s Hn.
  induction n as [n IH] using lt_wf_ind. intros bs s ->.
  assert (Hrec : forall (c : N) (r : bytes) l,
             cons_opt c (utf8_decode r) = Some l ->
             (length r < length bs)%nat ->
             is_scalar c = true ->
             Forall (fun c => is_scalar c = true) l).
  { intros c r l H Hlt Hc. apply cons_opt_some in H as (l' & Hl' & ->).
    constructor; [exact Hc|]. exact (IH _ Hlt r l' eq_refl Hl'). }
  destruct bs as [|b0 r0]; cbn [utf8_decode].
  { intros H. injection H as <-. constructor. }
  cbv zeta. set (c0 := Byte.to_N b0).
  destruct (N.ltb_spec c0 128) as [H1|H1].
  { intros H. apply (Hrec _ _ _ H); [cbn; lia|]. apply is_scalar_below. lia. }
  destruct (c0 <? 194); [discriminate|].
  destruct (N.ltb_spec c0 224) as [H3|H3].
  { destruct r0 as [|b1 r1]; [discriminate|].
    destruct (continuation b1) as [x1|] eqn:Hx1; [|discriminate].
    apply continuation_bound in Hx1.
    intros H. apply (Hrec _ _ _ H); [cbn; lia|]. apply is_scalar_below. lia. }
  destruct (N.ltb_spec c0 240) as [H4|H4].
  { destruct r0 as [|b1 [|b2 r2]]; try discriminate.
    destruct (continuation b1) as [x1|] eqn:Hx1; [|discriminate].
    destruct (continuation b2) as [x2|] eqn:Hx2; [|discriminate].
    apply continuation_bound in Hx1. apply continuation_bound in Hx2.
    set (c := (c0 - 224) * 4096 + x1 * 64 + x2).
    destruct ((2048 <=? c) && negb (is_surrogate c)) eqn:Hc; [|discriminate].
    intros H. apply (Hrec _ _ _ H); [cbn; lia|].
    apply andb_true_iff in Hc as [_ Hc].
    unfold is_scalar. rewrite Hc, andb_true_r. apply N.leb_le. unfold c. lia. }
  destruct (c0 <? 245); [|discriminate].
  destruct r0 as [|b1 [|b2 [|b3 r3]]]; try discriminate.
  destruct (continuation b1) as [x1|]; [|discriminate].
  destruct (continuation b2) as [x2|]; [|discriminate].
  destruct (continuation b3) as [x3|]; [|discriminate].
  set (c := (c0 - 240) * 262144 + x1 * 4096 + x2 * 64 + x3).
  destruct ((65536 <=? c) && (c <=? 1114111)) eqn:Hc; [|discriminate].
  intros H. apply (Hrec _ _ _ H); [cbn; lia|].
  apply andb_true_iff in Hc as [Hlo Hhi]. apply N.leb_le in Hlo.
  unfold is_scalar, is_surrogate. rewrite Hhi. cbn [andb].
  rewrite negb_true_iff, andb_false_iff, !N.leb_gt. lia.
Qed.

Lemma hex_value_bound (c x : N) : hex_value c = Some x -> x < 16.
Proof.
  unfold hex_value.
  destruct ((48 <=? c) && (c <=? 57)) eqn:H1.
  { intros H. injection H as <-.
    rewrite andb_true_iff, !N.leb_le in H1. lia. }
  destruct ((97 <=? c) && (c <=? 102)) eqn:H2.
  { intros H. injection H as <-.
    rewrite andb_true_iff, !N.leb_le in H2. lia. }
  destruct ((65 <=? c) && (c <=? 70)) eqn:H3; [|discriminate].
  intros H. injection H as <-.
  rewrite andb_true_iff, !N.leb_le in H3. lia.
Qed.

Lemma hex4_value_bound (a b c d u : N) :
  hex4_value a b c d = Some u -> u < 0x10000.
Proof.
  unfold hex4_value.
  destruct (hex_value a) as [x|] eqn:Hx; [|discriminate].
  destruct (hex_value b) as [y|] eqn:Hy; [|discriminate].
  destruct (hex_value c) as [z|] eqn:Hz; [|discriminate].
  destruct (hex_value d) as [t|] eqn:Ht; [|discriminate].
  apply hex_value_bound in Hx, Hy, Hz, Ht.
  intros H. injection H as <-. lia.
Qed.

Lemma simple_escape_ascii (e x : N) : simple_escape e = Some x -> x < 128.
Proof.
  unfold simple_escape.
  repeat match goal with
         | |- context [if ?a =? ?b then _ else _] => destruct (a =? b)
         end;
    try discriminate; intros H; injection H as <-; reflexivity.
Qed.

Lemma join_surrogates_scalar (hi lo : N) :
  is_high_surrogate hi = true -> is_low_surrogate lo = true ->
  0x10000 <= join_surrogates hi lo <= 0x10FFFF.
Proof.
  unfold is_high_surrogate, is_low_surrogate, join_surrogates.
  rewrite !andb_true_iff, !N.leb_le. lia.
Qed.

Lemma push_some (c : N) (o : option (pystr * pystr)) (x rest : pystr) :
  push c o = Some (x, rest) -> exists y, o = Some (y, rest) /\ x = c :: y.
Proof.
  destruct o as [[y r]|]; [|discriminate]. cbn.
  intros H. injection H as <- <-. eauto.
Qed.

Lemma text_ok_push (c : N) (s x : pystr) :
  c <= 0x10FFFF ->
  (is_high_surrogate c = true -> no_low_escape s) ->
  text_ok x -> from_low_escape s x ->
  text_ok (c :: x).
Proof.
  intros Hc Hhigh Hx Hfrom. cbn [text_ok]. split; [exact Hc|]. split; [|exact Hx].
  intros Hh. destruct x as [|c' x']; [exact I|].
  destruct (is_low_surrogate c') eqn:Hlow; [|reflexivity].
  destruct (Hfrom c' x' eq_refl Hlow) as (k1 & k2 & k3 & k4 & t & u & Hs & Hhex & Hu).
  destruct (Hhigh Hh k1 k2 k3 k4 t Hs) as (u2 & Hhex2 & Hu2). congruence.
Qed.

(** In a text of scalar values, [scanstring] returns a text in which no
    high surrogate is followed by a low one: the escapes of such a pair
    have been joined into one character. *)
Lemma scanstring_text_ok (s x rest : pystr) :
  Forall (fun c => is_scalar c = true) s ->
  scanstring s = Some (x, rest) ->
  text_ok x /\ from_low_escape s x.
Proof.
  remember (length s) as n eqn:Hn.
  revert s x rest Hn.
  induction n as [n IH] using lt_wf_ind. intros s x rest -> HP.
  assert (Hrec : forall t y r,
             scanstring t = Some (y, r) ->
             (length t < length s)%nat ->
             Forall (fun c => is_scalar c = true) t ->
             text_ok y /\ from_low_escape t y).
  { intros t y r H Hlt Ht. exact (IH _ Hlt t y r eq_refl Ht H). }
  destruct s as [|c s1]; [discriminate|]. cbn [scanstring].
  pose proof (Forall_inv HP) as Hc. pose proof (Forall_inv_tail HP) as HP1.
  destruct (c =? QUOTE).
  { intros H. injection H as <- _. split; [exact I|]. intros c' x'. discriminate. }
  destruct (N.eqb_spec c BACKSLASH) as [->|Hnb].
  2:{ destruct (c <=? 31); [discriminate|]. intros H.
      apply push_some in H as (y & Hy & ->).
      destruct (Hrec _ _ _ Hy ltac:(cbn; lia) HP1) as (Hok & Hfrom).
      apply is_scalar_cases in Hc as (Hmax & Hhi & Hlo). split.
      - apply (text_ok_push c s1); auto. congruence.
      - intros c' x' E. injection E as <- <-. congruence. }
  destruct s1 as [|e s2]; [discriminate|].
  pose proof (Forall_inv_tail HP1) as HP2.
  destruct (N.eqb_spec e (chr "u")) as [->|Hnu].
  2:{ destruct (simple_escape e) as [x0|] eqn:He; [|discriminate]. intros H.
      apply push_some in H as (y & Hy & ->).
      destruct (Hrec _ _ _ Hy ltac:(cbn; lia) HP2) as (Hok & Hfrom).
      apply simple_escape_ascii in He.
      assert (Hhi : is_high_surrogate x0 = false /\ is_low_surrogate x0 = false).
      { unfold is_high_surrogate, is_low_surrogate.
        rewrite !andb_false_iff, !N.leb_gt. lia. }
      split.
      - apply (text_ok_push x0 s2); auto; [lia|]. destruct Hhi. congruence.
      - intros c' x' E. injection E as <- <-. destruct Hhi. congruence. }
  destruct s2 as [|h1 [|h2 [|h3 [|h4 s3]]]]; try discriminate.
  destruct (hex4_value h1 h2 h3 h4) as [u|] eqn:Hu; [|discriminate].
  pose proof (hex4_value_bound _ _ _ _ _ Hu) as Hubound.
  assert (HP3 : Forall (fun c => is_scalar c = true) s3).
  { do 4 apply Forall_inv_tail in HP2. exact HP2. }
  assert (Hs3 : (is_high_surrogate u = true -> no_low_escape s3) ->
                forall x rest,
                  push u (scanstring s3) = Some (x, rest) ->
                  text_ok x /\
                  from_low_escape
                    (BACKSLASH :: chr "u" :: h1 :: h2 :: h3 :: h4 :: s3) x).
  { intros Hno x0 rest0 H. apply push_some in H as (y & Hy & ->).
    destruct (Hrec _ _ _ Hy ltac:(cbn; lia) HP3) as (Hok & Hfrom). split.
    - apply (text_ok_push u s3); auto. lia.
    - intros c' x' E. injection E as <- <-. intros Hlow.
      exists h1, h2, h3, h4, s3, u. auto. }
  destruct (is_high_surrogate u) eqn:Hhigh; [|apply Hs3; discriminate].
  destruct s3 as [|b [|u' [|k1 [|k2 [|k3 [|k4 s4]]]]]];
    try (apply Hs3; intros _ ? ? ? ? ? ?; discriminate).
  destruct (N.eqb_spec b BACKSLASH) as [->|Hb].
  2:{ apply Hs3. intros _ ? ? ? ? ? E. injection E. intros. congruence. }
  destruct (N.eqb_spec u' (chr "u")) as [->|Hu'].
  2:{ apply Hs3. intros _ ? ? ? ? ? E. injection E. intros. congruence. }
  cbn [andb].
  destruct (hex4_value k1 k2 k3 k4) as [u2|] eqn:Hu2; [|discriminate].
  destruct (is_low_surrogate u2) eqn:Hlow.
  2:{ apply Hs3. intros _ k1' k2' k3' k4' t E.
      injection E. intros. subst. exists u2. auto. }
  intros H. apply push_some in H as (y & Hy & ->).
  assert (HP4 : Forall (fun c => is_scalar c = true) s4).
  { do 6 apply Forall_inv_tail in HP3. exact HP3. }
  destruct (Hrec _ _ _ Hy ltac:(cbn; lia) HP4) as (Hok & Hfrom).
  pose proof (join_surrogates_scalar u u2 Hhigh Hlow) as Hjoin.
  assert (Hj : is_high_surrogate (join_surrogates u u2) = false /\
               is_low_surrogate (join_surrogates u u2) = false).
  { unfold is_high_surrogate, is_low_surrogate.
    rewrite !andb_false_iff, !N.leb_gt. lia. }
  split.
  - apply (text_ok_push _ s4); auto; [lia|]. destruct Hj. congruence.
  - intros c' x' E. injection E as <- <-. destruct Hj. congruence.
Qed.

(** ** The values the decoder returns *)

Lemma pystr_eqb_refl (a : pystr) : pystr_eqb a a = true.
Proof. now apply pystr_eqb_eq. Qed.

Lemma dict_set_in (m : list (pystr * pyval)) (k : pystr) (v : pyval)
    (k' : pystr) :
  In k' (map fst (dict_set m k v)) -> k' = k \/ In k' (map fst m).
Proof.
  induction m as [|[k0 x] m IH]; cbn [dict_set map fst In].
  - intros [<-|[]]. now left.
  - destruct (pystr_eqb k0 k); cbn [map fst In]; [tauto|].
    intros [<-|H]; [tauto|]. apply IH in H. tauto.
Qed.

Lemma dict_set_NoDup (m : list (pystr * pyval)) (k : pystr) (v : pyval) :
  NoDup (map fst m) -> NoDup (map fst (dict_set m k v)).
Proof.
  induction m as [|[k0 x] m IH]; cbn [dict_set map fst]; intros H.
  - constructor; [intros []|constructor].
  - destruct (pystr_eqb k0 k) eqn:Hk; cbn [map fst]; [exact H|].
    apply NoDup_cons_iff in H as [Hnot Hm].
    constructor; [|now apply IH].
    intros Hin. apply dict_set_in in Hin as [->|Hin]; [|contradiction].
    now rewrite pystr_eqb_refl in Hk.
Qed.

Lemma dict_set_Forall (Q : pystr * pyval -> Prop) (m : list (pystr * pyval))
    (k : pystr) (v : pyval) :
  Forall Q m -> Q (k, v) -> Forall Q (dict_set m k v).
Proof.
  intros Hm Hkv.
  induction Hm as [|[k0 x] m H0 Hm IH]; cbn [dict_set].
  - now repeat constructor.
  - destruct (pystr_eqb k0 k) eqn:Hk.
    + apply pystr_eqb_eq in Hk as ->. now constructor.
    + now constructor.
Qed.

(** A [dict] built from the members of an object has pairwise distinct
    keys, and holds what the members hold. *)
Lemma dict_of_pairs_members (Q : pystr * pyval -> Prop)
    (ps : list (pystr * pyval)) :
  Forall Q ps ->
  NoDup (map fst (dict_of_pairs ps)) /\ Forall Q (dict_of_pairs ps).
Proof.
  unfold dict_of_pairs.
  assert (H : forall acc,
             NoDup (map fst acc) -> Forall Q acc -> Forall Q ps ->
             NoDup (map fst (fold_left
                               (fun m kv => dict_set m (fst kv) (snd kv)) ps acc)) /\
             Forall Q (fold_left
                         (fun m kv => dict_set m (fst kv) (snd kv)) ps acc)).
  { induction ps as [|[k v] ps IH]; intros acc Hnd Hacc Hps; cbn [fold_left].
    - now split.
    - apply IH.
      + now apply dict_set_NoDup.
      + apply dict_set_Forall; [exact Hacc | exact (Forall_inv Hps)].
      + exact (Forall_inv_tail Hps). }
  intros Hps. apply H; [constructor | constructor | exact Hps].
Qed.

Lemma match_number_flat (s : pystr) (v : pyval) (rest : pystr) :
  match_number s = Scanned v rest -> plain_but_floats v.
Proof.
  unfold match_number, plain_but_floats.
  destruct (scan_sign s) as [negative s1].
  destruct (scan_integer s1) as [[u s2]|]; [|discriminate].
  destruct (scan_fraction s2) as [frac s3].
  destruct (scan_exponent s3) as [exp s4].
  destruct frac, exp; intros H; injection H as <- _; cbn; auto; discriminate.
Qed.

Lemma scan_atom_flat (s : pystr) (v : pyval) (rest : pystr) :
  scan_atom s = Scanned v rest -> plain_but_floats v.
Proof.
  unfold scan_atom.
  destruct s as [|c s']; [apply match_number_flat|].
  repeat match goal with
         | |- context [if ?a =? ?b then _ else _] => destruct (a =? b)
         end;
    try apply match_number_flat;
    match goal with
    | |- context [constant ?w ?x ?t] =>
        unfold constant;
        destruct (strip_prefix (py w) t) as [r|];
        [intros H; injection H as <- _; unfold plain_but_floats; cbn; easy
        | apply match_number_flat]
    end.
Qed.

Lemma plain_but_floats_list (l : list pyval) :
  Forall plain_but_floats l -> plain_but_floats (VList l).
Proof.
  intros Hl Hfree. apply json_plain_list. cbn [float_free] in Hfree.
  rewrite forallb_forall in Hfree. rewrite Forall_forall in *.
  intros x Hx. apply (Hl x Hx). now apply Hfree.
Qed.

Lemma plain_but_floats_dict (m : list (pystr * pyval)) :
  NoDup (map fst m) ->
  Forall (fun kv => text_ok (fst kv) /\ plain_but_floats (snd kv)) m ->
  plain_but_floats (VDict m).
Proof.
  intros Hnd Hm Hfree. apply json_plain_dict. split; [exact Hnd|].
  cbn [float_free] in Hfree.
  rewrite forallb_forall in Hfree. rewrite Forall_forall in *.
  intros kv Hkv. destruct (Hm kv Hkv) as (Hk & Hv).
  split; [exact Hk|]. apply Hv. now apply Hfree.
Qed.

(** In a text of scalar values every scanner returns values whose texts
    are well formed and whose objects have distinct keys. *)
Lemma scan_plain (fuel : nat) :
  (forall s v rest,
     Forall (fun c => is_scalar c = true) s ->
     scan_once fuel s = Scanned v rest -> plain_but_floats v) /\
  (forall s l rest,
     Forall (fun c => is_scalar c = true) s ->
     scan_items fuel s = Scanned l rest -> Forall plain_but_floats l) /\
  (forall s m rest,
     Forall (fun c => is_scalar c = true) s ->
     scan_members fuel s = Scanned m rest ->
     Forall (fun kv => text_ok (fst kv) /\ plain_but_floats (snd kv)) m).
Proof.
  induction fuel as [|fuel (IHonce & IHitems & IHmembers)];
    [repeat split; intros; discriminate|].
  destruct (scan_keeps (fun c => is_scalar c = true) fuel)
    as (Konce & Kitems & Kmembers).
  split; [|split].
  - intros [|c s1] v rest HP; [discriminate|]. cbn [scan_once].
    pose proof (Forall_inv_tail HP) as HP1.
    destruct (c =? QUOTE).
    { destruct (scanstring s1) as [[x r]|] eqn:Hs; [|discriminate].
      cbn. intros H. injection H as <- _. intros _.
      exact (proj1 (scanstring_text_ok s1 x r HP1 Hs)). }
    pose proof (skip_whitespace_keeps _ s1 HP1) as Hws.
    destruct (c =? chr "{").
    { destruct (skip_whitespace s1) as [|c2 s2]; [discriminate|].
      destruct (c2 =? chr "}").
      - intros H. injection H as <- _. intros _. cbn. split; [constructor|exact I].
      - intros H. destruct (scan_members fuel (c2 :: s2)) as [ps r| |] eqn:Hm;
          try discriminate.
        cbn in H. injection H as <- _.
        destruct (dict_of_pairs_members _ ps (IHmembers _ _ _ Hws Hm))
          as (Hnd & Hall).
        now apply plain_but_floats_dict. }
    destruct (c =? chr "[").
    { destruct (skip_whitespace s1) as [|c2 s2]; [discriminate|].
      destruct (c2 =? chr "]").
      - intros H. injection H as <- _. intros _. exact I.
      - intros H. destruct (scan_items fuel (c2 :: s2)) as [l r| |] eqn:Hl;
          try discriminate.
        cbn in H. injection H as <- _.
        apply plain_but_floats_list. exact (IHitems _ _ _ Hws Hl). }
    apply scan_atom_flat.
  - intros s l rest HP. rewrite scan_items_step.
    destruct (scan_once fuel s) as [v r| |] eqn:Hv; try discriminate.
    pose proof (IHonce _ _ _ HP Hv) as Hplain.
    pose proof (skip_whitespace_keeps _ r (Konce _ _ _ Hv HP)) as Hws.
    destruct (skip_whitespace r) as [|c r1]; [discriminate|].
    destruct (c =? chr "]").
    { intros H. injection H as <- _. now repeat constructor. }
    destruct (c =? chr ","); [|discriminate].
    destruct (scan_items fuel (skip_whitespace r1)) as [l' r'| |] eqn:Hl;
      try discriminate.
    cbn. intros H. injection H as <- _. constructor; [exact Hplain|].
    apply (IHitems _ _ _ (skip_whitespace_keeps _ _ (Forall_inv_tail Hws)) Hl).
  - intros [|q s1] m rest HP; [discriminate|]. cbn [scan_members].
    pose proof (Forall_inv_tail HP) as HP1.
    destruct (q =? QUOTE); [|discriminate].
    destruct (scanstring s1) as [[key r]|] eqn:Hk; [|discriminate].
    pose proof (proj1 (scanstring_text_ok s1 key r HP1 Hk)) as Hkey.
    pose proof (skip_whitespace_keeps _ r (scanstring_keeps _ _ _ _ Hk HP1))
      as Hws.
    destruct (skip_whitespace r) as [|colon r1]; [discriminate|].
    destruct (colon =? chr ":"); [|discriminate].
    pose proof (skip_whitespace_keeps _ r1 (Forall_inv_tail Hws)) as Hws1.
    destruct (scan_once fuel (skip_whitespace r1)) as [v r2| |] eqn:Hv;
      try discriminate.
    pose proof (IHonce _ _ _ Hws1 Hv) as Hplain.
    pose proof (skip_whitespace_keeps _ r2 (Konce _ _ _ Hv Hws1)) as Hws2.
    destruct (skip_whitespace r2) as [|c r3]; [discriminate|].
    destruct (c =? chr "}").
    { intros H. injection H as <- _. now repeat constructor. }
    destruct (c =? chr ","); [|discriminate].
    destruct (scan_members fuel (skip_whitespace r3)) as [m' r'| |] eqn:Hm;
      try discriminate.
    cbn. intros H. injection H as <- _. constructor; [now split|].
    apply (IHmembers _ _ _ (skip_whitespace_keeps _ _ (Forall_inv_tail Hws2)) Hm).
Qed.

Lemma decode_payload_plain (payload : bytes) (v : pyval) :
  decode_payload payload = Return v -> plain_but_floats v.
Proof.
  unfold decode_payload.
  destruct (utf8_decode payload) as [text|] eqn:Htext; [|discriminate].
  apply utf8_decode_scalars in Htext.
  unfold json_loads.
  destruct (scan_once _ _) as [v' rest| |] eqn:Hscan; try discriminate.
  destruct (skip_whitespace rest); [|discriminate].
  intros H. injection H as <-.
  apply (proj1 (scan_plain _) _ _ _ (skip_whitespace_keeps _ _ Htext) Hscan).
Qed.

Lemma read_message_plain (w w1 : world) (v : pyval) :
  read_message w = (Return v, w1) -> plain_but_floats v.
Proof.
  rewrite read_message_cases.
  destruct (split_at 4 (stdin w)) as [[|b0 raw] rest].
  { intros H. injection H as <- _. intros _. exact I. }
  destruct (struct_unpack_I _) as [n|]; [|discriminate].
  destruct (split_at n rest) as [payload rest'].
  pose proof (decode_payload_plain payload) as Hplain.
  unfold decode_payload in Hplain.
  destruct (utf8_decode payload) as [text|]; [|discriminate].
  destruct (json_loads text) as [v'|]; [|discriminate].
  intros H. injection H as <- _. now apply Hplain.
Qed.

(** [X13] What the host reads it can send back unchanged.  Every value
    [read_message] returns that holds no float has well-formed texts (no
    high surrogate just before a low one: [json.loads] joins the escapes
    of such a pair into one character) and objects with pairwise distinct
    keys; so the frame [write_message] makes of it, as for the [url] echoed
    in a download response, is read back as the same value. *)
Theorem received_value_round_trips (E : env) (w w1 : world) (v : pyval) :
  read_message w = (Return v, w1) ->
  float_free v = true ->
  json_plain v /\
  forall fr rest w0,
    frame_of E v = Some fr ->
    read_message (set_stdin w0 (fr ++ rest)) = (Return v, set_stdin w0 rest).
Proof.
  intros Hread Hfree.
  pose proof (read_message_plain w w1 v Hread Hfree) as Hplain.
  split; [exact Hplain|].
  intros fr rest w0 Hfr.
  exact (read_message_frame_of E v fr rest (set_stdin w0 (fr ++ rest))
           Hplain Hfr eq_refl).
Qed.

Lemma received_value_round_trips_witness :
  read_message (initial escaped_pair_frame)
  = (Return (VList [VStr [0x1F600]; VDict [(py "k", VInt 2)]]), initial []) /\
  json_plain (VList [VStr [0x1F600]; VDict [(py "k", VInt 2)]]) /\
  read_message
    (initial (send_native_message
                (VList [VStr [0x1F600]; VDict [(py "k", VInt 2)]])))
  = (Return (VList [VStr [0x1F600]; VDict [(py "k", VInt 2)]]), initial []).
Proof.
  assert (Hread :
            read_message (initial escaped_pair_frame)
            = (Return (VList [VStr [0x1F600]; VDict [(py "k", VInt 2)]]),
               initial []))
    by (vm_compute; reflexivity).
  split; [exact Hread|].
  destruct (received_value_round_trips sample_env _ _ _ Hread eq_refl)
    as (Hplain & Hback).
  split; [exact Hplain|].
  refine (eq_trans _ (Hback _ [] (initial []) eq_refl)).
  now rewrite app_nil_r.
Defined.


(* ------------------------------------------------------------------ *)
(** * Further properties: how [write_message] fails, and the lookup of a field *)







Lemma dict_get_set (m : list (pystr * pyval)) (k key : pystr)
    (v default : pyval) :
  dict_get (dict_set m k v) key default
  = if pystr_eqb k key then v else dict_get m key default.
Proof.
  induction m as [|[k0 x] m IH]; cbn [dict_set dict_get]; [reflexivity|].
  destruct (pystr_eqb k0 k) eqn:Hk; cbn [dict_get].
  - apply pystr_eqb_eq in Hk as ->. now destruct (pystr_eqb k key).
  - rewrite IH. destruct (pystr_eqb k0 key) eqn:H0; [|reflexivity].
    apply pystr_eqb_eq in H0. subst k0.
    destruct (pystr_eqb k key) eqn:Hkk; [|reflexivity].
    apply pystr_eqb_eq in Hkk. subst k.
    now rewrite pystr_eqb_refl in Hk.
Qed.

Lemma dict_get_app (a b : list (pystr * pyval)) (key : pystr) (default : pyval) :
  dict_get (a ++ b) key default = dict_get a key (dict_get b key default).
Proof.
  induction a as [|[k v] a IH]; cbn [app dict_get]; [reflexivity|].
  now destruct (pystr_eqb k key).
Qed.

Lemma dict_get_absent (m : list (pystr * pyval)) (key : pystr) (default : pyval) :
  ~ In key (map fst m) -> dict_get m key default = default.
Proof.
  induction m as [|[k v] m IH]; cbn [map fst In dict_get]; [reflexivity|].
  intros H. destruct (pystr_eqb k key) eqn:Hk.
  - apply pystr_eqb_eq in Hk. tauto.
  - apply IH. tauto.
Qed.

(** [X15] The lookup of a field in a decoded object.  [message.get(key,
    default)] on the [dict] that [json.loads] builds from the members of an
    object gives the value of the last member with that key, and the
    default when no member has it; so a request without [type] has the
    type [''] and a request without [url] the url [''].  On a value that is
    not a [dict] the lookup raises [AttributeError]. *)
Theorem get_after_loads (members : list (pystr * pyval)) (key : string)
    (default : pyval) (w : world) :
  get (VDict (dict_of_pairs members)) key default w
  = (Return (dict_get (rev members) (py key) default), w) /\
  (~ In (py key) (map fst members) ->
   get (VDict (dict_of_pairs members)) key default w = (Return default, w)) /\
  (forall message,
     (forall m, message <> VDict m) ->
     get message key default w = (Raise (AttributeError message), w)).
Proof.
  assert (H : forall acc,
             dict_get (fold_left (fun m kv => dict_set m (fst kv) (snd kv))
                         members acc) (py key) default
             = dict_get (rev members ++ acc) (py key) default).
  { induction members as [|[k v] members IH]; intros acc; cbn [fold_left rev];
      [reflexivity|].
    rewrite IH, <- app_assoc, !dict_get_app. cbn [app fst snd dict_get].
    now rewrite dict_get_set. }
  assert (Hget : dict_get (dict_of_pairs members) (py key) default
                 = dict_get (rev members) (py key) default).
  { unfold dict_of_pairs. now rewrite H, app_nil_r. }
  split; [|split].
  - cbn [get]. unfold ret. now rewrite Hget.
  - intros Habsent. cbn [get]. unfold ret. rewrite Hget.
    rewrite dict_get_absent; [reflexivity|].
    rewrite map_rev, <- in_rev. exact Habsent.
  - intros message Hnot.
    destruct message as [| b | n | f | s | l | m]; try reflexivity.
    now contradiction (Hnot m).
Qed.
